(** * family-savings: the savings-plan engine of [src/utils/calculation.ts]

    A shallow embedding of the month stepper, the segment simulator
    ([runSimulationPeriod]), the deposit solver ([solveRequiredDeposit]) and the
    plan orchestrator ([calculateSavingsPlan]), of the handlers of the goal
    editor ([components/EventsSection.tsx]) and of what the results view
    ([components/ResultsSection.tsx]) derives from a plan, followed by the
    properties the specification states about the engine and by further
    properties of the engine, the editor and the view.

    Numbers.  A JavaScript [number] that holds money or a rate is modelled as a
    real number: rounding, NaN and the infinities are outside the model, and no
    property below depends on the value of a division by zero.  The one place
    where the source uses [Infinity] as a sentinel ([maxDepositConstraint]) is
    modelled with [option].  Month offsets and month indices are integers
    ([Z]); [Math.pow] is the real power function, which is the mathematical
    function on the positive bases the engine feeds it.

    Host objects.  [Date] and [Intl.DateTimeFormat] belong to the JavaScript
    host; they enter through the [Host] interface and only fill the [date]
    field of a month record. *)

From Stdlib Require Import Reals Lra Lia ZArith List Bool String Sorted Permutation.
Import ListNotations.

Open Scope R_scope.

(* ------------------------------------------------------------------------- *)
(** ** JavaScript numbers and comparisons *)

Definition Rltb (x y : R) : bool := if Rlt_dec x y then true else false.
Definition Rleb (x y : R) : bool := if Rle_dec x y then true else false.
Definition Rgtb (x y : R) : bool := Rltb y x.

(** [Math.pow], [Math.max] on two numbers, [Math.ceil]. *)
Definition Math_pow (x y : R) : R := Rpower x y.
Definition Math_max (x y : R) : R := if Rleb x y then y else x.
Definition Math_ceil (x : R) : R := IZR (- Int_part (- x)).

(** [x || 0] on an optional number field. *)
Definition orZero (x : option R) : R :=
  match x with Some v => v | None => 0 end.

(** [total > 0 ? v : undefined]. *)
Definition whenPositive (total v : R) : option R :=
  if Rgtb total 0 then Some v else None.

(* ------------------------------------------------------------------------- *)
(** ** The host: dates *)

Class Host := {
  Date : Type;
  newDate : string -> Date;          (* new Date(s) *)
  addMonths : Date -> Z -> Date;     (* the [addMonths] helper *)
  formatDate : Date -> string        (* the [formatDate] helper *)
}.

(* ------------------------------------------------------------------------- *)
(** ** Data model ([types.ts]) *)

Record FinancialParams := {
  startDate : string;
  annualReturn : R;
  annualInflation : R;
  capitalGainsTax : R;
  initialCapital : R
}.

Record SavingsEvent := {
  id : string;
  name : string;
  monthOffset : Z;
  targetAmount : R
}.

Record SimulationMonth := {
  monthIndex : Z;
  date : string;
  deposit : R;
  balanceStart : R;
  balanceEnd : R;
  costBasis : R;
  eventOccurred : option SavingsEvent;
  withdrawalGross : option R;
  withdrawalNet : option R;
  taxPaid : option R;
  preWithdrawalBalance : option R;
  realGain : option R;
  nominalGain : option R
}.

Record SimulationResult := {
  success : bool;
  schedule : list SimulationMonth;
  finalBalance : R;
  totalDeposited : R;
  totalWithdrawnNet : R;
  totalTaxPaid : R
}.

(* ------------------------------------------------------------------------- *)
(** ** [Map<number, SavingsEvent[]>]: an insertion-ordered association list *)

Definition JSMap (V : Type) := list (Z * V).

Fixpoint Map_get {V} (m : JSMap V) (k : Z) : option V :=
  match m with
  | [] => None
  | (k', v) :: m' => if (k' =? k)%Z then Some v else Map_get m' k
  end.

Definition Map_has {V} (m : JSMap V) (k : Z) : bool :=
  match Map_get m k with Some _ => true | None => false end.

Fixpoint Map_set {V} (m : JSMap V) (k : Z) (v : V) : JSMap V :=
  match m with
  | [] => [(k, v)]
  | (k', v') :: m' =>
      if (k' =? k)%Z then (k, v) :: m' else (k', v') :: Map_set m' k v
  end.

Definition Map_keys {V} (m : JSMap V) : list Z := map fst m.

(** The grouping loop
    [if (!m.has(k)) m.set(k, []); m.get(k)?.push(e)] for one event. *)
Definition groupPush (m : JSMap (list SavingsEvent)) (e : SavingsEvent)
  : JSMap (list SavingsEvent) :=
  let k := monthOffset e in
  let m1 := if Map_has m k then m else Map_set m k [] in
  match Map_get m1 k with
  | Some arr => Map_set m1 k (arr ++ [e])
  | None => m1
  end.

Definition groupByMonth (events : list SavingsEvent) : JSMap (list SavingsEvent) :=
  fold_left groupPush events [].

(* ------------------------------------------------------------------------- *)
(** ** [Array.prototype.sort] with a numeric comparator (stable) *)

Fixpoint insertBy {A} (key : A -> Z) (x : A) (l : list A) : list A :=
  match l with
  | [] => [x]
  | y :: l' => if (key x <=? key y)%Z then x :: y :: l' else y :: insertBy key x l'
  end.

Definition sortBy {A} (key : A -> Z) (l : list A) : list A :=
  fold_right (insertBy key) [] l.

(* ------------------------------------------------------------------------- *)
(** ** Month stepper and segment simulator *)

Definition getMonthlyRate (annualRate : R) : R :=
  Math_pow (1 + annualRate / 100) (1 / 12) - 1.

(** The variables of one month of the loop body that the event loop updates. *)
Record MonthAcc := {
  balance : R;
  accCostBasis : R;
  nominalCostBasis : R;
  accFailed : bool;
  monthWithdrawalGross : R;
  monthWithdrawalNet : R;
  monthTaxPaid : R;
  monthRealGain : R;
  monthNominalGain : R;
  eventRef : option SavingsEvent
}.

Definition inflationFactor (monthlyInflationRate : R) (currentMonthIndex : Z) : R :=
  Math_pow (1 + monthlyInflationRate) (IZR currentMonthIndex).

Definition targetNetNominal (monthlyInflationRate : R) (currentMonthIndex : Z)
    (event : SavingsEvent) : R :=
  targetAmount event * inflationFactor monthlyInflationRate currentMonthIndex.

Definition profitRatio (basis bal : R) : R :=
  if Rgtb bal 0 then Math_max 0 (1 - basis / bal) else 0.

Definition grossNeeded (taxRate target basis bal : R) : R :=
  target / (1 - profitRatio basis bal * taxRate).

(** One pass of [for (const event of monthEvents)]. *)
Definition withdraw (taxRate monthlyInflationRate : R) (currentMonthIndex : Z)
    (a : MonthAcc) (event : SavingsEvent) : MonthAcc :=
  let target := targetNetNominal monthlyInflationRate currentMonthIndex event in
  let realProfitRatio := profitRatio (accCostBasis a) (balance a) in
  let nominalProfitRatio := profitRatio (nominalCostBasis a) (balance a) in
  let gross := grossNeeded taxRate target (accCostBasis a) (balance a) in
  let failed1 := if Rleb (balance a) 0 && Rgtb gross 0 then true else accFailed a in
  let tax := gross - target in
  let realGain := gross * realProfitRatio in
  let nominalGain := gross * nominalProfitRatio in
  let balance1 := balance a - gross in
  let shrink := Rgtb (balance1 + gross) 0 in
  let withdrawalRatio := gross / (balance1 + gross) in
  {| balance := balance1;
     accCostBasis := if shrink then accCostBasis a * (1 - withdrawalRatio) else 0;
     nominalCostBasis := if shrink then nominalCostBasis a * (1 - withdrawalRatio) else 0;
     accFailed := failed1;
     monthWithdrawalGross := monthWithdrawalGross a + gross;
     monthWithdrawalNet := monthWithdrawalNet a + target;
     monthTaxPaid := monthTaxPaid a + tax;
     monthRealGain := monthRealGain a + realGain;
     monthNominalGain := monthNominalGain a + nominalGain;
     eventRef := Some event |}.

(** The state carried by the [for (let i = 0; ...)] loop. *)
Record SimState := {
  simBalance : R;
  simCostBasis : R;
  simNominalCostBasis : R;
  simSchedule : list SimulationMonth;
  simFailed : bool
}.

Module Period.
(** The record [runSimulationPeriod] returns. *)
Record t := {
  schedule : list SimulationMonth;
  finalBalance : R;
  finalCostBasis : R;
  finalNominalCostBasis : R;
  failed : bool
}.
End Period.

Section Engine.
Context {host : Host}.

(** Steps 1 to 3 of the loop body, then the state the event loop starts from. *)
Definition afterGrowth (monthlyReturnRate monthlyInflationRate monthlyDeposit : R)
    (st : SimState) : MonthAcc :=
  {| balance := (simBalance st + monthlyDeposit) * (1 + monthlyReturnRate);
     accCostBasis := (simCostBasis st + monthlyDeposit) * (1 + monthlyInflationRate);
     nominalCostBasis := simNominalCostBasis st + monthlyDeposit;
     accFailed := simFailed st;
     monthWithdrawalGross := 0;
     monthWithdrawalNet := 0;
     monthTaxPaid := 0;
     monthRealGain := 0;
     monthNominalGain := 0;
     eventRef := None |}.

(** Step 4: the withdrawals of the month, when the map has an entry for it. *)
Definition handleEvents (taxRate monthlyInflationRate : R) (currentMonthIndex : Z)
    (eventsInPeriod : JSMap (list SavingsEvent)) (a : MonthAcc) : MonthAcc :=
  match Map_get eventsInPeriod currentMonthIndex with
  | Some monthEvents =>
      fold_left (withdraw taxRate monthlyInflationRate currentMonthIndex) monthEvents a
  | None => a
  end.

(** The balance the month's record reports as [preWithdrawalBalance]. *)
Definition monthPreWithdrawalBalance (currentMonthIndex : Z)
    (eventsInPeriod : JSMap (list SavingsEvent)) (grown : MonthAcc) : R :=
  match Map_get eventsInPeriod currentMonthIndex with
  | Some _ => balance grown
  | None => 0
  end.

Definition monthRecord (startDate : Date) (startMonthIndex i : Z) (monthlyDeposit : R)
    (balanceStart pre : R) (a : MonthAcc) : SimulationMonth :=
  {| monthIndex := startMonthIndex + i;
     date := formatDate (addMonths startDate i);
     deposit := monthlyDeposit;
     balanceStart := balanceStart;
     balanceEnd := balance a;
     costBasis := accCostBasis a;
     eventOccurred := eventRef a;
     withdrawalGross := whenPositive (monthWithdrawalGross a) (monthWithdrawalGross a);
     withdrawalNet := whenPositive (monthWithdrawalNet a) (monthWithdrawalNet a);
     taxPaid := whenPositive (monthTaxPaid a) (monthTaxPaid a);
     preWithdrawalBalance := whenPositive (monthWithdrawalGross a) pre;
     realGain := whenPositive (monthWithdrawalGross a) (monthRealGain a);
     nominalGain := whenPositive (monthWithdrawalGross a) (monthNominalGain a) |}.

(** The body of the month loop for iteration [i]. *)
Definition monthStep (startDate : Date) (startMonthIndex : Z) (monthlyDeposit : R)
    (params : FinancialParams) (eventsInPeriod : JSMap (list SavingsEvent))
    (i : Z) (st : SimState) : SimState :=
  let monthlyReturnRate := getMonthlyRate (annualReturn params) in
  let monthlyInflationRate := getMonthlyRate (annualInflation params) in
  let taxRate := capitalGainsTax params / 100 in
  let currentMonthIndex := (startMonthIndex + i)%Z in
  let grown := afterGrowth monthlyReturnRate monthlyInflationRate monthlyDeposit st in
  let a := handleEvents taxRate monthlyInflationRate currentMonthIndex eventsInPeriod grown in
  let pre := monthPreWithdrawalBalance currentMonthIndex eventsInPeriod grown in
  {| simBalance := balance a;
     simCostBasis := accCostBasis a;
     simNominalCostBasis := nominalCostBasis a;
     simSchedule := simSchedule st ++
       [monthRecord startDate startMonthIndex i monthlyDeposit (simBalance st) pre a];
     simFailed := if Rltb (balance a) (-1) then true else accFailed a |}.

(** [for (let i = 0; i < durationMonths; i++)], with [n] iterations left. *)
Fixpoint monthLoop (step : Z -> SimState -> SimState) (n : nat) (i : Z)
    (st : SimState) : SimState :=
  match n with
  | O => st
  | S n' => monthLoop step n' (i + 1)%Z (step i st)
  end.

Definition runSimulationPeriod (startBalance startCostBasis startNominalCostBasis : R)
    (startDate : Date) (startMonthIndex durationMonths : Z) (monthlyDeposit : R)
    (params : FinancialParams) (eventsInPeriod : JSMap (list SavingsEvent))
  : Period.t :=
  let st := monthLoop
      (monthStep startDate startMonthIndex monthlyDeposit params eventsInPeriod)
      (Z.to_nat durationMonths) 0%Z
      {| simBalance := startBalance;
         simCostBasis := startCostBasis;
         simNominalCostBasis := startNominalCostBasis;
         simSchedule := [];
         simFailed := false |} in
  {| Period.schedule := simSchedule st;
     Period.finalBalance := simBalance st;
     Period.finalCostBasis := simCostBasis st;
     Period.finalNominalCostBasis := simNominalCostBasis st;
     Period.failed := simFailed st |}.

(* ------------------------------------------------------------------------- *)
(** ** Deposit solver *)

Definition maxDepositCap : R := 1000000.

(** The binary search loop with [n] iterations left; [fails mid] is
    [sim.failed] for the simulation run at deposit [mid]. *)
Fixpoint bisect (fails : R -> bool) (n : nat) (low high result : R) : R :=
  match n with
  | O => result
  | S n' =>
      let mid := (low + high) / 2 in
      if fails mid then bisect fails n' mid high result
      else bisect fails n' low mid mid
  end.

(** [Math.max(...events.map(e => e.monthOffset))] on a non-empty array. *)
Definition lastEventMonthOf (e : SavingsEvent) (es : list SavingsEvent) : Z :=
  fold_left Z.max (map monthOffset es) (monthOffset e).

(** [sim.failed] of the look-ahead simulation the solver runs at deposit [mid]. *)
Definition lookaheadFails (startBalance startCostBasis startNominalCostBasis : R)
    (startDate : Date) (startMonthIndex : Z) (e : SavingsEvent)
    (es : list SavingsEvent) (params : FinancialParams) (mid : R) : bool :=
  let lastEventMonth := lastEventMonthOf e es in
  let duration := (lastEventMonth - startMonthIndex + 1)%Z in
  let periodEvents := groupByMonth (e :: es) in
  Period.failed
    (runSimulationPeriod startBalance startCostBasis startNominalCostBasis
       startDate startMonthIndex duration mid params periodEvents).

Definition solveRequiredDeposit (startBalance startCostBasis startNominalCostBasis : R)
    (startDate : Date) (startMonthIndex : Z) (events : list SavingsEvent)
    (params : FinancialParams) : R :=
  match events with
  | [] => 0
  | e :: es =>
      let result :=
        bisect (lookaheadFails startBalance startCostBasis startNominalCostBasis
                  startDate startMonthIndex e es params)
               20 0 maxDepositCap maxDepositCap in
      Math_ceil (result / 10) * 10
  end.

(* ------------------------------------------------------------------------- *)
(** ** Plan orchestrator *)

(** The variables the segment loop of [calculateSavingsPlan] updates;
    [maxDepositConstraint = None] stands for [Infinity]. *)
Record PlanState := {
  fullSchedule : list SimulationMonth;
  currentBalance : R;
  currentCostBasis : R;
  currentNominalCostBasis : R;
  currentMonth : Z;
  maxDepositConstraint : option R
}.

(** The "never upwards" rule. *)
Definition capDeposit (requiredDeposit : R) (maxDepositConstraint : option R) : R :=
  match maxDepositConstraint with
  | Some c => if Rgtb requiredDeposit c then c else requiredDeposit
  | None => requiredDeposit
  end.

(** Steps 1 and 2 of the segment loop body: the required deposit for all
    remaining events, capped by the ceiling. *)
Definition segmentDeposit (params : FinancialParams) (startDate : Date)
    (sortedEvents : list SavingsEvent) (st : PlanState) : R :=
  let remainingEvents :=
    filter (fun e => (currentMonth st <=? monthOffset e)%Z) sortedEvents in
  let requiredDeposit :=
    solveRequiredDeposit (currentBalance st) (currentCostBasis st)
      (currentNominalCostBasis st) (addMonths startDate (currentMonth st))
      (currentMonth st) remainingEvents params in
  capDeposit requiredDeposit (maxDepositConstraint st).

(** Step 3: the simulation of the segment, with its own events only. *)
Definition segmentRun (params : FinancialParams) (startDate : Date)
    (eventsByMonth : JSMap (list SavingsEvent)) (st : PlanState)
    (nextEventMonth : Z) (actualDeposit : R) : Period.t :=
  let duration := (nextEventMonth - currentMonth st + 1)%Z in
  let segmentEvents :=
    Map_set [] nextEventMonth
      (match Map_get eventsByMonth nextEventMonth with
       | Some evs => evs
       | None => []
       end) in
  runSimulationPeriod (currentBalance st) (currentCostBasis st)
    (currentNominalCostBasis st) (addMonths startDate (currentMonth st))
    (currentMonth st) duration actualDeposit params segmentEvents.

(** The body of [for (const nextEventMonth of eventMonths)]. *)
Definition segmentStep (params : FinancialParams) (startDate : Date)
    (sortedEvents : list SavingsEvent) (eventsByMonth : JSMap (list SavingsEvent))
    (st : PlanState) (nextEventMonth : Z) : PlanState :=
  let actualDeposit := segmentDeposit params startDate sortedEvents st in
  let simSegment :=
    segmentRun params startDate eventsByMonth st nextEventMonth actualDeposit in
  {| fullSchedule := fullSchedule st ++ Period.schedule simSegment;
     currentBalance := Period.finalBalance simSegment;
     currentCostBasis := Period.finalCostBasis simSegment;
     currentNominalCostBasis := Period.finalNominalCostBasis simSegment;
     currentMonth := (nextEventMonth + 1)%Z;
     maxDepositConstraint := Some actualDeposit |}.

Definition initialPlanState (params : FinancialParams) : PlanState :=
  {| fullSchedule := [];
     currentBalance := initialCapital params;
     currentCostBasis := initialCapital params;
     currentNominalCostBasis := initialCapital params;
     currentMonth := 0%Z;
     maxDepositConstraint := None |}.

(** The state after the segment loop has run over all event months. *)
Definition planLoop (params : FinancialParams) (events : list SavingsEvent) : PlanState :=
  let sortedEvents := sortBy monthOffset events in
  let startDate := newDate (startDate params) in
  let eventsByMonth := groupByMonth sortedEvents in
  let eventMonths := sortBy (fun k => k) (Map_keys eventsByMonth) in
  fold_left (segmentStep params startDate sortedEvents eventsByMonth)
    eventMonths (initialPlanState params).

Definition calculateSavingsPlan (params : FinancialParams) (events : list SavingsEvent)
  : SimulationResult :=
  let sortedEvents := sortBy monthOffset events in
  match sortedEvents with
  | [] =>
      {| success := true;
         schedule := [];
         finalBalance := initialCapital params;
         totalDeposited := 0;
         totalWithdrawnNet := 0;
         totalTaxPaid := 0 |}
  | _ :: _ =>
      let st := planLoop params events in
      let fullSchedule := fullSchedule st in
      let totalDeposited := fold_left (fun acc m => acc + deposit m) fullSchedule 0 in
      let totalWithdrawnNet :=
        fold_left (fun acc m => acc + orZero (withdrawalNet m)) fullSchedule 0 in
      let totalTaxPaid :=
        fold_left (fun acc m => acc + orZero (taxPaid m)) fullSchedule 0 in
      let failed := existsb (fun m => Rltb (balanceEnd m) (-1)) fullSchedule in
      {| success := negb failed;
         schedule := fullSchedule;
         finalBalance := currentBalance st;
         totalDeposited := totalDeposited;
         totalWithdrawnNet := totalWithdrawnNet;
         totalTaxPaid := totalTaxPaid |}
  end.

End Engine.

(* ------------------------------------------------------------------------- *)
(** ** The caller's objects

    [calculateSavingsPlan] receives references: to the caller's [events] array
    and to the caller's [params] object.  To state what the call does to them,
    the orchestrator is written once more over a store of objects.  Arrays of
    events live in the store and are named by references: the copy
    [[...events]], which [sort] then reorders in place, the buckets of
    [eventsByMonth], which [push] extends in place and which [segmentEvents]
    shares, and the arrays [filter] returns.  [solveRequiredDeposit] and
    [runSimulationPeriod] only read the arrays and maps they are given (the
    solver fills a map of its own), so they are applied to the contents.  The
    source never assigns to a field of an event or of [params]. *)

Module Heap.

Definition ref := nat.

Record Store := {
  arrays : list (list SavingsEvent);
  paramObjects : list FinancialParams
}.

Definition readArray (s : Store) (r : ref) : list SavingsEvent :=
  nth r (arrays s) [].

Definition readParams (s : Store) (r : ref) : FinancialParams :=
  nth r (paramObjects s)
    {| startDate := EmptyString; annualReturn := 0; annualInflation := 0;
       capitalGainsTax := 0; initialCapital := 0 |}.

(** A new array object with the given contents. *)
Definition alloc (v : list SavingsEvent) (s : Store) : ref * Store :=
  (List.length (arrays s),
   {| arrays := arrays s ++ [v]; paramObjects := paramObjects s |}).

Fixpoint replaceNth {A} (n : nat) (v : A) (l : list A) : list A :=
  match l, n with
  | [], _ => []
  | _ :: l', O => v :: l'
  | x :: l', S n' => x :: replaceNth n' v l'
  end.

(** In-place update of the array object [r]. *)
Definition writeArray (r : ref) (v : list SavingsEvent) (s : Store) : Store :=
  {| arrays := replaceNth r v (arrays s); paramObjects := paramObjects s |}.

(** The contents a map of array references stands for. *)
Definition resolve (s : Store) (m : JSMap ref) : JSMap (list SavingsEvent) :=
  map (fun kv => (fst kv, readArray s (snd kv))) m.

(** [if (!m.has(k)) m.set(k, []); m.get(k)?.push(e)] on array objects. *)
Definition groupPushOn (ms : JSMap ref * Store) (e : SavingsEvent)
  : JSMap ref * Store :=
  let (m, s) := ms in
  let k := monthOffset e in
  let (m1, s1) :=
    if Map_has m k then (m, s)
    else let (r, s') := alloc [] s in (Map_set m k r, s') in
  match Map_get m1 k with
  | Some r => (m1, writeArray r (readArray s1 r ++ [e]) s1)
  | None => (m1, s1)
  end.

Section Orchestrator.
Context {host : Host}.

(** The body of the segment loop; [sortedRef] is the sorted copy. *)
Definition segmentStepOn (params : FinancialParams) (startDate : Date)
    (sortedRef : ref) (eventsByMonth : JSMap ref)
    (sts : PlanState * Store) (nextEventMonth : Z) : PlanState * Store :=
  let (st, s) := sts in
  let (remainingRef, s1) :=
    alloc (filter (fun e => (currentMonth st <=? monthOffset e)%Z)
             (readArray s sortedRef)) s in
  let requiredDeposit :=
    solveRequiredDeposit (currentBalance st) (currentCostBasis st)
      (currentNominalCostBasis st) (addMonths startDate (currentMonth st))
      (currentMonth st) (readArray s1 remainingRef) params in
  let actualDeposit := capDeposit requiredDeposit (maxDepositConstraint st) in
  let duration := (nextEventMonth - currentMonth st + 1)%Z in
  let (bucket, s2) :=
    match Map_get eventsByMonth nextEventMonth with
    | Some r => (r, s1)
    | None => alloc [] s1
    end in
  let segmentEvents := Map_set [] nextEventMonth bucket in
  let simSegment :=
    runSimulationPeriod (currentBalance st) (currentCostBasis st)
      (currentNominalCostBasis st) (addMonths startDate (currentMonth st))
      (currentMonth st) duration actualDeposit params (resolve s2 segmentEvents) in
  ({| fullSchedule := fullSchedule st ++ Period.schedule simSegment;
      currentBalance := Period.finalBalance simSegment;
      currentCostBasis := Period.finalCostBasis simSegment;
      currentNominalCostBasis := Period.finalNominalCostBasis simSegment;
      currentMonth := (nextEventMonth + 1)%Z;
      maxDepositConstraint := Some actualDeposit |}, s2).

(** [calculateSavingsPlan(params, events)] on references into the store. *)
Definition calculateSavingsPlanOn (paramsRef eventsRef : ref) (s : Store)
  : SimulationResult * Store :=
  let params := readParams s paramsRef in
  let (sortedRef, s1) := alloc (readArray s eventsRef) s in
  let s2 := writeArray sortedRef (sortBy monthOffset (readArray s1 sortedRef)) s1 in
  let startDate := newDate (startDate params) in
  match readArray s2 sortedRef with
  | [] =>
      ({| success := true;
          schedule := [];
          finalBalance := initialCapital params;
          totalDeposited := 0;
          totalWithdrawnNet := 0;
          totalTaxPaid := 0 |}, s2)
  | _ :: _ =>
      let (eventsByMonth, s3) :=
        fold_left groupPushOn (readArray s2 sortedRef) ([], s2) in
      let eventMonths := sortBy (fun k => k) (Map_keys eventsByMonth) in
      let (st, s4) :=
        fold_left (segmentStepOn params startDate sortedRef eventsByMonth)
          eventMonths (initialPlanState params, s3) in
      let fullSchedule := fullSchedule st in
      let totalDeposited := fold_left (fun acc m => acc + deposit m) fullSchedule 0 in
      let totalWithdrawnNet :=
        fold_left (fun acc m => acc + orZero (withdrawalNet m)) fullSchedule 0 in
      let totalTaxPaid :=
        fold_left (fun acc m => acc + orZero (taxPaid m)) fullSchedule 0 in
      let failed := existsb (fun m => Rltb (balanceEnd m) (-1)) fullSchedule in
      ({| success := negb failed;
          schedule := fullSchedule;
          finalBalance := currentBalance st;
          totalDeposited := totalDeposited;
          totalWithdrawnNet := totalWithdrawnNet;
          totalTaxPaid := totalTaxPaid |}, s4)
  end.

End Orchestrator.

(** [frame n s s']: from [s] to [s'] the store only grew, the first [n] arrays
    kept their contents and the parameter objects are the same. *)
Definition frame (n : nat) (s s' : Store) : Prop :=
  (List.length (arrays s) <= List.length (arrays s'))%nat /\
  (forall r, (r < n)%nat -> readArray s' r = readArray s r) /\
  paramObjects s' = paramObjects s.

(** The references of a map are allocated, and at or above a base. *)
Definition refsWithin (lo hi : nat) (m : JSMap ref) : Prop :=
  Forall (fun kv => (lo <= snd kv < hi)%nat) m.

(** What the grouping loop maintains, for a store [s0] at its start whose
    first [b] arrays are not the loop's: those arrays are untouched, the
    buckets are distinct arrays allocated by the loop, and their contents are
    the buckets of [groupByMonth]. *)
Definition groupInv (b : nat) (s0 : Store) (ms : JSMap ref * Store)
    (M : JSMap (list SavingsEvent)) : Prop :=
  frame b s0 (snd ms) /\
  refsWithin b (List.length (arrays (snd ms))) (fst ms) /\
  NoDup (map snd (fst ms)) /\
  resolve (snd ms) (fst ms) = M.

End Heap.

(* ------------------------------------------------------------------------- *)
(** ** The goal editor ([components/EventsSection.tsx]) *)

(** The amount shown next to a goal. *)
Definition calculateAdjustedAmount (params : FinancialParams) (baseAmount : R)
    (monthOffset : Z) : R :=
  if (monthOffset <=? 0)%Z then baseAmount
  else
    let monthlyInflation := Math_pow (1 + annualInflation params / 100) (1 / 12) - 1 in
    baseAmount * Math_pow (1 + monthlyInflation) (IZR monthOffset).

Definition defaultEventName : string := "אירוע חדש".

(** [handleAddDefaultEvent]: [newId] is what [uuidv4()] returns, the result is
    the array handed to [setEvents]. *)
Definition handleAddDefaultEvent (newId : string) (events : list SavingsEvent)
  : list SavingsEvent :=
  let lastOffset :=
    match events with
    | [] => 0%Z
    | e :: es => lastEventMonthOf e es
    end in
  let newOffset := (lastOffset + 12)%Z in
  let newEvent :=
    {| id := newId;
       name := defaultEventName;
       monthOffset := newOffset;
       targetAmount := 10000 |} in
  events ++ [newEvent].

(** A field of a goal together with its new value: the [field] and [value]
    arguments of [handleUpdateEvent]. *)
Inductive FieldValue :=
| IdValue (v : string)
| NameValue (v : string)
| MonthOffsetValue (v : Z)
| TargetAmountValue (v : R).

(** [{ ...e, [field]: value }]. *)
Definition withField (e : SavingsEvent) (fv : FieldValue) : SavingsEvent :=
  match fv with
  | IdValue v =>
      {| id := v; name := name e;
         monthOffset := monthOffset e; targetAmount := targetAmount e |}
  | NameValue v =>
      {| id := id e; name := v;
         monthOffset := monthOffset e; targetAmount := targetAmount e |}
  | MonthOffsetValue v =>
      {| id := id e; name := name e;
         monthOffset := v; targetAmount := targetAmount e |}
  | TargetAmountValue v =>
      {| id := id e; name := name e;
         monthOffset := monthOffset e; targetAmount := v |}
  end.

Definition handleUpdateEvent (eventId : string) (fv : FieldValue)
    (events : list SavingsEvent) : list SavingsEvent :=
  map (fun e => if negb (String.eqb (id e) eventId) then e else withField e fv) events.

Definition handleDelete (eventId : string) (events : list SavingsEvent)
  : list SavingsEvent :=
  filter (fun e => negb (String.eqb (id e) eventId)) events.

Module Editor.

(** The list of goals as rendered: [events.sort(...).map(...)] pairs each goal
    with its adjusted amount; [sort] reorders, in place, the array object the
    component received. *)
Definition renderEventRows (params : FinancialParams) (eventsRef : Heap.ref)
    (s : Heap.Store) : list (SavingsEvent * R) * Heap.Store :=
  let s' :=
    Heap.writeArray eventsRef (sortBy monthOffset (Heap.readArray s eventsRef)) s in
  (map (fun event =>
          (event, calculateAdjustedAmount params (targetAmount event) (monthOffset event)))
       (Heap.readArray s' eventsRef),
   s').

End Editor.

(* ------------------------------------------------------------------------- *)
(** ** The results view ([components/ResultsSection.tsx]) *)

Definition Reqb (x y : R) : bool := if Req_dec_T x y then true else false.

(** Truthiness of an optional number field: present and not 0. *)
Definition truthy (x : option R) : bool :=
  match x with
  | Some v => negb (Reqb v 0)
  | None => false
  end.

Definition initialDeposit (data : list SimulationMonth) : R :=
  match data with
  | [] => 0
  | m :: _ => deposit m
  end.

Definition withdrawals (data : list SimulationMonth) : list SimulationMonth :=
  filter (fun d => truthy (withdrawalGross d)) data.

Definition isVariableDeposit (data : list SimulationMonth) : bool :=
  existsb (fun d => negb (Reqb (deposit d) (initialDeposit data))) data.

(** [durationMonths] of each row of the breakdown table, in row order;
    [previousEventMonth] is -1 for the first row and the month index of the
    row before for the others. *)
Fixpoint durationMonthsFrom (previousEventMonth : Z) (rows : list SimulationMonth)
  : list Z :=
  match rows with
  | [] => []
  | item :: rest =>
      (monthIndex item - previousEventMonth)%Z :: durationMonthsFrom (monthIndex item) rest
  end.

Definition durationMonths (rows : list SimulationMonth) : list Z :=
  durationMonthsFrom (-1) rows.

(* ------------------------------------------------------------------------- *)
(** ** Sample inputs *)

(** A host whose dates are month counts and whose formatting is silent. *)
Definition monthCountHost : Host :=
  {| Date := Z;
     newDate := fun _ => 0%Z;
     addMonths := Z.add;
     formatDate := fun _ => EmptyString |}.

(** A host that knows a single date and formats it as a dash. *)
Definition blankDateHost : Host :=
  {| Date := unit;
     newDate := fun _ => tt;
     addMonths := fun d _ => d;
     formatDate := fun _ => "-"%string |}.

Definition sampleParams (ret infl tax capital : R) : FinancialParams :=
  {| startDate := EmptyString;
     annualReturn := ret;
     annualInflation := infl;
     capitalGainsTax := tax;
     initialCapital := capital |}.

Definition goal (month : Z) (target : R) : SavingsEvent :=
  {| id := EmptyString; name := EmptyString;
     monthOffset := month; targetAmount := target |}.

Definition namedGoal (n : string) (month : Z) (target : R) : SavingsEvent :=
  {| id := n; name := n; monthOffset := month; targetAmount := target |}.

(* ------------------------------------------------------------------------- *)
(** ** Vocabulary of the properties *)

(** Later records never carry a larger deposit than earlier ones. *)
Definition nonIncreasingDeposits (l : list SimulationMonth) : Prop :=
  StronglySorted (fun earlier later => deposit later <= deposit earlier) l.

(** What the segment loop maintains: the schedule built so far is
    non-increasing and none of its deposits is below the current ceiling;
    as long as the ceiling is unbounded the schedule is empty. *)
Definition ceilingInvariant (st : PlanState) : Prop :=
  nonIncreasingDeposits (fullSchedule st) /\
  match maxDepositConstraint st with
  | Some c => Forall (fun m => c <= deposit m) (fullSchedule st)
  | None => fullSchedule st = []
  end.

(** Sorted in non-decreasing order of [key]. *)
Definition sortedBy {A} (key : A -> Z) (l : list A) : Prop :=
  StronglySorted (fun a b => (key a <= key b)%Z) l.

(** The segment boundaries of a plan. *)
Definition eventMonthsOf (events : list SavingsEvent) : list Z :=
  sortBy (fun k => k) (Map_keys (groupByMonth (sortBy monthOffset events))).

(** The [n] consecutive month indices from [from] on. *)
Definition monthRange (from : Z) (n : nat) : list Z :=
  map (fun k => (from + Z.of_nat k)%Z) (seq 0 n).



(** The goals due in month [k], in list order. *)
Definition eventsDue (k : Z) (events : list SavingsEvent) : list SavingsEvent :=
  filter (fun e => (monthOffset e =? k)%Z) events.


(** The state [runSimulationPeriod] starts its loop from. *)
Definition startState (sb scb sncb : R) : SimState :=
  {| simBalance := sb; simCostBasis := scb; simNominalCostBasis := sncb;
     simSchedule := []; simFailed := false |}.

(** The account just before the withdrawal of a single goal [e], when the
    look-ahead simulation runs [k] months without events first. *)
Definition beforeGoal {host : Host} (sb scb sncb : R) (sd : Date) (smi : Z) (params : FinancialParams)
    (d : R) (k : nat) : MonthAcc :=
  afterGrowth (getMonthlyRate (annualReturn params))
    (getMonthlyRate (annualInflation params)) d
    (monthLoop (monthStep sd smi d params []) k 0%Z (startState sb scb sncb)).

(** The failure flag after the goal's month. *)
Definition failedAfter (a : MonthAcc) : bool :=
  if Rltb (balance a) (-1) then true else accFailed a.





(* ------------------------------------------------------------------------- *)
(** ** Vocabulary of the further properties *)

(** [d] is [10 * k] for an integer [k] between [lo] and [hi]. *)
Definition tenTimes (lo hi : Z) (d : R) : Prop :=
  exists k : Z, d = 10 * IZR k /\ (lo <= k <= hi)%Z.

(** The records start at balance [start], each starts where the one before
    ended, and the last ends at [final]. *)
Fixpoint chained (start : R) (l : list SimulationMonth) (final : R) : Prop :=
  match l with
  | [] => start = final
  | m :: l' => balanceStart m = start /\ chained (balanceEnd m) l' final
  end.

(** A month record without its formatted date. *)
Definition eraseDate (m : SimulationMonth) : SimulationMonth :=
  {| monthIndex := monthIndex m;
     date := EmptyString;
     deposit := deposit m;
     balanceStart := balanceStart m;
     balanceEnd := balanceEnd m;
     costBasis := costBasis m;
     eventOccurred := eventOccurred m;
     withdrawalGross := withdrawalGross m;
     withdrawalNet := withdrawalNet m;
     taxPaid := taxPaid m;
     preWithdrawalBalance := preWithdrawalBalance m;
     realGain := realGain m;
     nominalGain := nominalGain m |}.

(** The sum of a list of integers. *)
Definition sumZ (l : list Z) : Z := fold_right Z.add 0%Z l.

(** [f] changes neither the month nor the target of a goal. *)
Definition keepsNumbers (f : SavingsEvent -> SavingsEvent) : Prop :=
  forall e, monthOffset (f e) = monthOffset e /\ targetAmount (f e) = targetAmount e.

(** An edit that touches only the id or the name of a goal. *)
Definition labelOnly (fv : FieldValue) : Prop :=
  match fv with
  | IdValue _ | NameValue _ => True
  | MonthOffsetValue _ | TargetAmountValue _ => False
  end.

(** What [handleUpdateEvent] does to one goal. *)
Definition updateOne (eventId : string) (fv : FieldValue) (e : SavingsEvent)
  : SavingsEvent :=
  if negb (String.eqb (id e) eventId) then e else withField e fv.

(** A month record whose goal, if any, is replaced by its image under [f]. *)
Definition relabelMonth (f : SavingsEvent -> SavingsEvent) (m : SimulationMonth)
  : SimulationMonth :=
  {| monthIndex := monthIndex m;
     date := date m;
     deposit := deposit m;
     balanceStart := balanceStart m;
     balanceEnd := balanceEnd m;
     costBasis := costBasis m;
     eventOccurred := option_map f (eventOccurred m);
     withdrawalGross := withdrawalGross m;
     withdrawalNet := withdrawalNet m;
     taxPaid := taxPaid m;
     preWithdrawalBalance := preWithdrawalBalance m;
     realGain := realGain m;
     nominalGain := nominalGain m |}.

Definition relabelResult (f : SavingsEvent -> SavingsEvent) (r : SimulationResult)
  : SimulationResult :=
  {| success := success r;
     schedule := map (relabelMonth f) (schedule r);
     finalBalance := finalBalance r;
     totalDeposited := totalDeposited r;
     totalWithdrawnNet := totalWithdrawnNet r;
     totalTaxPaid := totalTaxPaid r |}.

Definition relabelAcc (f : SavingsEvent -> SavingsEvent) (a : MonthAcc) : MonthAcc :=
  {| balance := balance a;
     accCostBasis := accCostBasis a;
     nominalCostBasis := nominalCostBasis a;
     accFailed := accFailed a;
     monthWithdrawalGross := monthWithdrawalGross a;
     monthWithdrawalNet := monthWithdrawalNet a;
     monthTaxPaid := monthTaxPaid a;
     monthRealGain := monthRealGain a;
     monthNominalGain := monthNominalGain a;
     eventRef := option_map f (eventRef a) |}.

Definition relabelSim (f : SavingsEvent -> SavingsEvent) (st : SimState) : SimState :=
  {| simBalance := simBalance st;
     simCostBasis := simCostBasis st;
     simNominalCostBasis := simNominalCostBasis st;
     simSchedule := map (relabelMonth f) (simSchedule st);
     simFailed := simFailed st |}.

Definition relabelPeriod (f : SavingsEvent -> SavingsEvent) (p : Period.t) : Period.t :=
  {| Period.schedule := map (relabelMonth f) (Period.schedule p);
     Period.finalBalance := Period.finalBalance p;
     Period.finalCostBasis := Period.finalCostBasis p;
     Period.finalNominalCostBasis := Period.finalNominalCostBasis p;
     Period.failed := Period.failed p |}.

Definition relabelPlan (f : SavingsEvent -> SavingsEvent) (st : PlanState) : PlanState :=
  {| fullSchedule := map (relabelMonth f) (fullSchedule st);
     currentBalance := currentBalance st;
     currentCostBasis := currentCostBasis st;
     currentNominalCostBasis := currentNominalCostBasis st;
     currentMonth := currentMonth st;
     maxDepositConstraint := maxDepositConstraint st |}.

Definition relabelMap (f : SavingsEvent -> SavingsEvent) (m : JSMap (list SavingsEvent))
  : JSMap (list SavingsEvent) :=
  map (fun kv => (fst kv, map f (snd kv))) m.

(** What a row of the breakdown table of a plan for [events] shows: a positive
    gross withdrawal, a pre-withdrawal balance and both gains, and the last, in
    sorted order, of the goals due in the row's month. *)
Definition tableRow (events : list SavingsEvent) (m : SimulationMonth) : Prop :=
  (exists g, withdrawalGross m = Some g /\ 0 < g) /\
  preWithdrawalBalance m <> None /\ realGain m <> None /\ nominalGain m <> None /\
  exists e front,
    eventOccurred m = Some e /\
    eventsDue (monthIndex m) (sortBy monthOffset events) = front ++ [e] /\
    In e events /\ monthOffset e = monthIndex m.

(** In the middle of a month, unless the account is overdrawn: the real cost
    basis is not negative; the net withdrawn, the tax paid and the real gain
    realised so far lie between 0 and the gross withdrawn so far; and no tax
    has been paid if no real gain has been realised. *)
Definition taxBooks (a : MonthAcc) : Prop :=
  0 <= balance a ->
  0 <= accCostBasis a /\
  0 <= monthWithdrawalNet a <= monthWithdrawalGross a /\
  0 <= monthTaxPaid a <= monthWithdrawalGross a /\
  0 <= monthRealGain a <= monthWithdrawalGross a /\
  (monthRealGain a = 0 -> monthTaxPaid a = 0).

(** What a record shows of a month's withdrawals: net, tax and real gain lie
    between 0 and the gross amount, and there is no tax without a real gain. *)
Definition taxBounds (m : SimulationMonth) : Prop :=
  0 <= orZero (withdrawalNet m) <= orZero (withdrawalGross m) /\
  0 <= orZero (taxPaid m) <= orZero (withdrawalGross m) /\
  0 <= orZero (realGain m) <= orZero (withdrawalGross m) /\
  (orZero (realGain m) = 0 -> orZero (taxPaid m) = 0).

(** [s] is the first month of a segment of a plan for [events] that holds
    month [idx]: month 0 or the month after a goal month, not after [idx], with
    no goal due from [s] up to the month before [idx]. *)
Definition segmentStartOf (events : list SavingsEvent) (idx s : Z) : Prop :=
  (s <= idx)%Z /\
  (s = 0%Z \/ In (s - 1)%Z (map monthOffset events)) /\
  (forall e, In e events -> ~ (s <= monthOffset e < idx)%Z).

(** No goal of the map has a negative target. *)
Definition targetsNonNegative (evs : JSMap (list SavingsEvent)) : Prop :=
  forall k l e, Map_get evs k = Some l -> In e l -> 0 <= targetAmount e.

(** Two parameter objects that differ at most in their start date. *)
Definition sameNumbers (p q : FinancialParams) : Prop :=
  annualReturn p = annualReturn q /\ annualInflation p = annualInflation q /\
  capitalGainsTax p = capitalGainsTax q /\ initialCapital p = initialCapital q.

(** Two month accumulators, simulation states, simulation results and plan
    states that differ at most in the dates of their records. *)
Definition accSame (a b : MonthAcc) : Prop :=
  balance a = balance b /\ accCostBasis a = accCostBasis b /\
  nominalCostBasis a = nominalCostBasis b /\
  monthWithdrawalGross a = monthWithdrawalGross b /\
  monthWithdrawalNet a = monthWithdrawalNet b /\
  monthTaxPaid a = monthTaxPaid b /\
  monthRealGain a = monthRealGain b /\
  monthNominalGain a = monthNominalGain b /\
  eventRef a = eventRef b /\
  accFailed a = accFailed b.

Definition simSame (a b : SimState) : Prop :=
  simBalance a = simBalance b /\ simCostBasis a = simCostBasis b /\
  simNominalCostBasis a = simNominalCostBasis b /\
  simFailed a = simFailed b /\
  map eraseDate (simSchedule a) = map eraseDate (simSchedule b).

Definition periodSame (x y : Period.t) : Prop :=
  Period.finalBalance x = Period.finalBalance y /\
  Period.finalCostBasis x = Period.finalCostBasis y /\
  Period.finalNominalCostBasis x = Period.finalNominalCostBasis y /\
  Period.failed x = Period.failed y /\
  map eraseDate (Period.schedule x) = map eraseDate (Period.schedule y).

Definition planSame (a b : PlanState) : Prop :=
  currentBalance a = currentBalance b /\ currentCostBasis a = currentCostBasis b /\
  currentNominalCostBasis a = currentNominalCostBasis b /\
  currentMonth a = currentMonth b /\
  maxDepositConstraint a = maxDepositConstraint b /\
  map eraseDate (fullSchedule a) = map eraseDate (fullSchedule b).

(** What the segment loop maintains about the size of the deposits. *)
Definition depositsWithin (lo : Z) (st : PlanState) : Prop :=
  Forall (fun m => tenTimes lo 100000 (deposit m)) (fullSchedule st) /\
  (forall c, maxDepositConstraint st = Some c -> tenTimes lo 100000 c).

(** The month's accumulators: the tax is the gross minus the net, and the
    balance is the balance after growth minus the gross. *)
Definition booksBalance (grown : R) (a : MonthAcc) : Prop :=
  monthTaxPaid a = monthWithdrawalGross a - monthWithdrawalNet a /\
  balance a = grown - monthWithdrawalGross a.

(** The map entry for month [k], if any, holds at most one goal. *)
Definition atMostOneGoal (evs : JSMap (list SavingsEvent)) (k : Z) : Prop :=
  forall l, Map_get evs k = Some l -> (List.length l <= 1)%nat.

(** The bookkeeping of a month record, read off its fields. *)
Definition addsUp (monthlyReturnRate : R) (m : SimulationMonth) : Prop :=
  let grown := (balanceStart m + deposit m) * (1 + monthlyReturnRate) in
  (forall g, withdrawalGross m = Some g -> 0 < g /\ balanceEnd m = grown - g) /\
  (withdrawalGross m = None -> grown <= balanceEnd m) /\
  (forall g n t, withdrawalGross m = Some g -> withdrawalNet m = Some n ->
                 taxPaid m = Some t -> 0 < t /\ t = g - n) /\
  (forall g n, withdrawalGross m = Some g -> withdrawalNet m = Some n ->
               taxPaid m = None -> g <= n).

(** Two month accumulators that agree on everything but the failure flag,
    where the first has seen the failures [f] in addition. *)
Definition accAgree (f : bool) (a b : MonthAcc) : Prop :=
  balance a = balance b /\ accCostBasis a = accCostBasis b /\
  nominalCostBasis a = nominalCostBasis b /\
  monthWithdrawalGross a = monthWithdrawalGross b /\
  monthWithdrawalNet a = monthWithdrawalNet b /\
  monthTaxPaid a = monthTaxPaid b /\
  monthRealGain a = monthRealGain b /\
  monthNominalGain a = monthNominalGain b /\
  eventRef a = eventRef b /\
  accFailed a = f || accFailed b.

(** The long run and the second part agree on the account; the long run has
    seen the failures [f] and recorded the months [pre] in addition. *)
Definition simAgree (f : bool) (pre : list SimulationMonth) (a b : SimState) : Prop :=
  simBalance a = simBalance b /\ simCostBasis a = simCostBasis b /\
  simNominalCostBasis a = simNominalCostBasis b /\
  simFailed a = f || simFailed b /\
  map eraseDate (simSchedule a) = pre ++ map eraseDate (simSchedule b).

Arguments runSimulationPeriod : simpl never.
Arguments solveRequiredDeposit : simpl never.

(* ------------------------------------------------------------------------- *)
(** * Properties *)

(** ** Comparisons *)

Lemma Rltb_true_iff x y : Rltb x y = true <-> x < y.
Proof. unfold Rltb; destruct (Rlt_dec x y); split; (assumption || discriminate || auto). Qed.

Lemma Rltb_false_iff x y : Rltb x y = false <-> y <= x.
Proof.
  unfold Rltb; destruct (Rlt_dec x y); split; intro; try discriminate; try reflexivity; lra.
Qed.

Lemma Rleb_true_iff x y : Rleb x y = true <-> x <= y.
Proof. unfold Rleb; destruct (Rle_dec x y); split; (assumption || discriminate || auto). Qed.

Lemma Rleb_false_iff x y : Rleb x y = false <-> y < x.
Proof.
  unfold Rleb; destruct (Rle_dec x y); split; intro; try discriminate; try reflexivity; lra.
Qed.

Lemma Rgtb_true_iff x y : Rgtb x y = true <-> y < x.
Proof. apply Rltb_true_iff. Qed.

Lemma Rgtb_false_iff x y : Rgtb x y = false <-> x <= y.
Proof. apply Rltb_false_iff. Qed.

(** Decide a comparison whose outcome [lra] can settle. *)
Ltac cmp_true := first
  [ apply Rltb_true_iff | apply Rleb_true_iff | apply Rgtb_true_iff ]; lra.
Ltac cmp_false := first
  [ apply Rltb_false_iff | apply Rleb_false_iff | apply Rgtb_false_iff ]; lra.

Lemma whenPositive_zero v : whenPositive 0 v = None.
Proof. unfold whenPositive. replace (Rgtb 0 0) with false; [reflexivity|]. symmetry; cmp_false. Qed.

Lemma Rpower_one_base y : Rpower 1 y = 1.
Proof. unfold Rpower. rewrite ln_1, Rmult_0_r. apply exp_0. Qed.

Lemma getMonthlyRate_zero : getMonthlyRate 0 = 0.
Proof.
  unfold getMonthlyRate, Math_pow.
  replace (1 + 0 / 100) with 1 by lra. rewrite Rpower_one_base. lra.
Qed.

(** ** Loops *)

Lemma fold_left_invariant {A B} (P : A -> Prop) (f : A -> B -> A) (l : list B) a :
  P a -> (forall a b, In b l -> P a -> P (f a b)) -> P (fold_left f l a).
Proof.
  revert a; induction l as [|b l IH]; intros a Ha Hf; simpl; [assumption|].
  apply IH.
  - apply Hf; [left; reflexivity | assumption].
  - intros a' b' Hin; apply Hf; right; assumption.
Qed.

Section Properties.
Context {host : Host}.

Lemma monthLoop_invariant (P : SimState -> Prop) step n :
  forall i st,
    P st -> (forall j s, P s -> P (step j s)) -> P (monthLoop step n i st).
Proof.
  induction n as [|n IH]; intros i st Hst Hstep; simpl; [assumption|].
  apply IH; [apply Hstep; assumption | assumption].
Qed.

Lemma monthStep_schedule startDate smi dep params evs i st :
  simSchedule (monthStep startDate smi dep params evs i st) =
  simSchedule st ++
    [monthRecord startDate smi i dep (simBalance st)
       (monthPreWithdrawalBalance (smi + i) evs
          (afterGrowth (getMonthlyRate (annualReturn params))
             (getMonthlyRate (annualInflation params)) dep st))
       (handleEvents (capitalGainsTax params / 100)
          (getMonthlyRate (annualInflation params)) (smi + i) evs
          (afterGrowth (getMonthlyRate (annualReturn params))
             (getMonthlyRate (annualInflation params)) dep st))].
Proof. reflexivity. Qed.

(** Every record of a segment satisfies [P] as soon as every record the month
    step can build does. *)
Lemma period_schedule_Forall (P : SimulationMonth -> Prop)
    sb scb sncb startDate smi dur dep params evs :
  (forall i bs pre st,
      P (monthRecord startDate smi i dep bs pre
           (handleEvents (capitalGainsTax params / 100)
              (getMonthlyRate (annualInflation params)) (smi + i) evs
              (afterGrowth (getMonthlyRate (annualReturn params))
                 (getMonthlyRate (annualInflation params)) dep st)))) ->
  Forall P (Period.schedule
              (runSimulationPeriod sb scb sncb startDate smi dur dep params evs)).
Proof.
  intros HP. unfold runSimulationPeriod; simpl.
  apply (monthLoop_invariant (fun s => Forall P (simSchedule s))).
  - constructor.
  - intros j s Hs. rewrite monthStep_schedule.
    apply Forall_app; split; [assumption|]. constructor; [apply HP | constructor].
Qed.

(** ** No goals (C6) *)

(** C6. With an empty goal list [calculateSavingsPlan] returns success, an
    empty schedule, the initial capital as final balance and zero totals, for
    every Parameters record. *)
Theorem no_goals_identity (params : FinancialParams) :
  let r := calculateSavingsPlan params [] in
  success r = true /\ schedule r = [] /\
  finalBalance r = initialCapital params /\
  totalDeposited r = 0 /\ totalWithdrawnNet r = 0 /\ totalTaxPaid r = 0.
Proof. cbv zeta. repeat split; reflexivity. Qed.

(** ** The success flag (C4) *)

Lemma existsb_Rltb_false (l : list SimulationMonth) :
  existsb (fun m => Rltb (balanceEnd m) (-1)) l = false <->
  (forall m, In m l -> -1 <= balanceEnd m).
Proof.
  induction l as [|x l IH]; simpl.
  - split; [intros _ m [] | reflexivity].
  - rewrite orb_false_iff, IH, Rltb_false_iff. split.
    + intros [Hx Hl] m [<-|Hin]; [assumption | apply Hl; assumption].
    + intros H; split; [apply H; left; reflexivity | intros m Hm; apply H; right; assumption].
Qed.

(** C4. [calculateSavingsPlan] is a total function that reports infeasibility
    through [success] only: the flag is true exactly when no month record of
    the returned schedule ends strictly below the tolerance -1.  A month that
    ends at exactly -1 does not fail the plan; one that ends at -2 does. *)
Theorem success_iff_no_month_below_tolerance
    (params : FinancialParams) (events : list SavingsEvent) :
  let r := calculateSavingsPlan params events in
  (success r = true <-> (forall m, In m (schedule r) -> ~ balanceEnd m < -1)) /\
  ((forall m, In m (schedule r) -> -1 <= balanceEnd m) -> success r = true) /\
  ((exists m, In m (schedule r) /\ balanceEnd m = -2) -> success r = false).
Proof.
  cbv zeta. unfold calculateSavingsPlan.
  destruct (sortBy monthOffset events) as [|e es]; simpl.
  - split; [|split].
    + split; [intros _ m [] | reflexivity].
    + reflexivity.
    + intros [m [[] _]].
  - pose proof (existsb_Rltb_false (fullSchedule (planLoop params events))) as Hex.
    split; [|split].
    + rewrite negb_true_iff, Hex. split.
      * intros H m Hin. specialize (H m Hin). lra.
      * intros H m Hin. specialize (H m Hin). lra.
    + intros H. rewrite negb_true_iff. apply Hex, H.
    + intros [m [Hin Hm]]. rewrite negb_false_iff.
      apply existsb_exists. exists m; split; [assumption|].
      apply Rltb_true_iff. lra.
Qed.

(** Every record of the plan satisfies [P] as soon as every record of every
    segment does. *)
Lemma plan_schedule_Forall (P : SimulationMonth -> Prop) params events :
  (forall sb scb sncb sd smi dur dep evs,
      Forall P (Period.schedule
                  (runSimulationPeriod sb scb sncb sd smi dur dep params evs))) ->
  Forall P (fullSchedule (planLoop params events)).
Proof.
  intros HP. unfold planLoop.
  apply (fold_left_invariant (fun st => Forall P (fullSchedule st))).
  - constructor.
  - intros st m _ Hst. unfold segmentStep; cbn [fullSchedule].
    apply Forall_app; split; [assumption | apply HP].
Qed.

Lemma calculateSavingsPlan_schedule_Forall (P : SimulationMonth -> Prop) params events :
  (forall sb scb sncb sd smi dur dep evs,
      Forall P (Period.schedule
                  (runSimulationPeriod sb scb sncb sd smi dur dep params evs))) ->
  Forall P (schedule (calculateSavingsPlan params events)).
Proof.
  intros HP. unfold calculateSavingsPlan.
  destruct (sortBy monthOffset events); simpl; [constructor|].
  apply plan_schedule_Forall, HP.
Qed.

(** ** Zero tax (C7) *)

Lemma grossNeeded_zero_tax target basis bal :
  grossNeeded (0 / 100) target basis bal = target.
Proof. unfold grossNeeded. unfold Rdiv at 2. rewrite Rmult_0_l, Rmult_0_r, Rminus_0_r. field. Qed.

Lemma withdraw_zero_tax_totals mi idx a e :
  monthWithdrawalGross a = monthWithdrawalNet a -> monthTaxPaid a = 0 ->
  let a' := withdraw (0 / 100) mi idx a e in
  monthWithdrawalGross a' = monthWithdrawalNet a' /\ monthTaxPaid a' = 0.
Proof.
  intros Hg Ht. cbv zeta. unfold withdraw; simpl.
  rewrite grossNeeded_zero_tax, Hg, Ht. split; lra.
Qed.

Lemma handleEvents_zero_tax_totals mi idx evs a :
  monthWithdrawalGross a = monthWithdrawalNet a -> monthTaxPaid a = 0 ->
  let a' := handleEvents (0 / 100) mi idx evs a in
  monthWithdrawalGross a' = monthWithdrawalNet a' /\ monthTaxPaid a' = 0.
Proof.
  intros Hg Ht. cbv zeta. unfold handleEvents.
  destruct (Map_get evs idx) as [monthEvents|]; [|split; assumption].
  apply (fold_left_invariant
           (fun a => monthWithdrawalGross a = monthWithdrawalNet a /\ monthTaxPaid a = 0)).
  - split; assumption.
  - intros a0 e _ [H1 H2]. apply withdraw_zero_tax_totals; assumption.
Qed.

(** C7. With a capital-gains tax rate of 0 every withdrawal's gross amount is
    its inflation-adjusted net target, whatever the cost basis and balance
    (hence whatever the profit ratio); so every month record of every segment,
    and of the whole plan, reports a gross withdrawal equal to the net
    withdrawal and no tax. *)
Theorem zero_tax_identity (params : FinancialParams) :
  capitalGainsTax params = 0 ->
  (forall mi idx event basis bal,
      grossNeeded (capitalGainsTax params / 100)
        (targetNetNominal mi idx event) basis bal = targetNetNominal mi idx event) /\
  (forall mi idx a event,
      monthWithdrawalGross (withdraw (capitalGainsTax params / 100) mi idx a event) =
        monthWithdrawalGross a + targetNetNominal mi idx event /\
      monthTaxPaid (withdraw (capitalGainsTax params / 100) mi idx a event) =
        monthTaxPaid a) /\
  (forall sb scb sncb sd smi dur dep evs,
      Forall (fun m => withdrawalGross m = withdrawalNet m /\ taxPaid m = None)
        (Period.schedule
           (runSimulationPeriod sb scb sncb sd smi dur dep params evs))) /\
  (forall events,
      Forall (fun m => withdrawalGross m = withdrawalNet m /\ taxPaid m = None)
        (schedule (calculateSavingsPlan params events))).
Proof.
  intros Htax. rewrite Htax.
  assert (Hperiod : forall sb scb sncb sd smi dur dep evs,
      Forall (fun m => withdrawalGross m = withdrawalNet m /\ taxPaid m = None)
        (Period.schedule
           (runSimulationPeriod sb scb sncb sd smi dur dep params evs))).
  { intros. apply period_schedule_Forall. intros i bs pre st. rewrite Htax.
    destruct (handleEvents_zero_tax_totals
                (getMonthlyRate (annualInflation params)) (smi + i) evs
                (afterGrowth (getMonthlyRate (annualReturn params))
                   (getMonthlyRate (annualInflation params)) dep st))
      as [Hg Ht]; try reflexivity.
    unfold monthRecord; simpl. rewrite Hg, Ht. split; [reflexivity|].
    apply whenPositive_zero. }
  split; [|split; [|split]].
  - intros. apply grossNeeded_zero_tax.
  - intros. unfold withdraw; simpl. rewrite grossNeeded_zero_tax. split; lra.
  - exact Hperiod.
  - intros events. apply calculateSavingsPlan_schedule_Forall. exact Hperiod.
Qed.

(** ** Deposits never increase (C2) *)

Lemma capDeposit_min required c : capDeposit required (Some c) = Rmin required c.
Proof.
  unfold capDeposit, Rmin.
  destruct (Rle_dec required c) as [Hle|Hgt].
  - replace (Rgtb required c) with false; [reflexivity | symmetry; cmp_false].
  - replace (Rgtb required c) with true; [reflexivity | symmetry; cmp_true].
Qed.

Lemma capDeposit_le_ceiling required c : capDeposit required (Some c) <= c.
Proof. rewrite capDeposit_min. apply Rmin_r. Qed.

Lemma period_schedule_deposit sb scb sncb sd smi dur dep params evs :
  Forall (fun m => deposit m = dep)
    (Period.schedule (runSimulationPeriod sb scb sncb sd smi dur dep params evs)).
Proof. apply period_schedule_Forall. intros; reflexivity. Qed.

Lemma nonIncreasingDeposits_app l1 l2 :
  nonIncreasingDeposits l1 -> nonIncreasingDeposits l2 ->
  (forall a b, In a l1 -> In b l2 -> deposit b <= deposit a) ->
  nonIncreasingDeposits (l1 ++ l2).
Proof.
  unfold nonIncreasingDeposits. induction l1 as [|x l1 IH]; intros H1 H2 H12; simpl.
  - assumption.
  - inversion H1 as [|? ? Hs Hf]; subst. constructor.
    + apply IH; [assumption | assumption |].
      intros a b Ha Hb; apply H12; [right|]; assumption.
    + apply Forall_app; split; [assumption|].
      apply Forall_forall; intros b Hb. apply H12; [left; reflexivity | assumption].
Qed.

Lemma constant_deposits_nonIncreasing d l :
  Forall (fun m => deposit m = d) l -> nonIncreasingDeposits l.
Proof.
  unfold nonIncreasingDeposits. induction 1 as [|x l Hx Hl IH]; constructor.
  - assumption.
  - rewrite Forall_forall in *. intros b Hb. rewrite Hx, (Hl b Hb). lra.
Qed.

Lemma segmentStep_ceilingInvariant params sd sorted ebm st m :
  ceilingInvariant st -> ceilingInvariant (segmentStep params sd sorted ebm st m).
Proof.
  intros [Hsorted Hceil].
  unfold ceilingInvariant, segmentStep; cbn [fullSchedule maxDepositConstraint].
  set (actual := segmentDeposit params sd sorted st).
  set (seg := Period.schedule _).
  assert (Hseg : Forall (fun r => deposit r = actual) seg)
    by apply period_schedule_deposit.
  assert (Hold : Forall (fun r => actual <= deposit r) (fullSchedule st)).
  { subst actual. unfold segmentDeposit.
    destruct (maxDepositConstraint st) as [c|] eqn:Hc.
    - eapply Forall_impl; [|exact Hceil]. intros r Hr; cbv beta in Hr.
      eapply Rle_trans; [apply capDeposit_le_ceiling | exact Hr].
    - rewrite Hceil. constructor. }
  split.
  - apply nonIncreasingDeposits_app.
    + assumption.
    + apply (constant_deposits_nonIncreasing actual); assumption.
    + rewrite Forall_forall in Hseg, Hold. intros a b Ha Hb.
      rewrite (Hseg b Hb). apply Hold; assumption.
  - apply Forall_app; split; [assumption|].
    eapply Forall_impl; [|exact Hseg]. intros r Hr; cbv beta in Hr. lra.
Qed.

Lemma planLoop_ceilingInvariant params events :
  ceilingInvariant (planLoop params events).
Proof.
  unfold planLoop. apply (fold_left_invariant ceilingInvariant).
  - split; [constructor | reflexivity].
  - intros st m _ Hst. apply segmentStep_ceilingInvariant; assumption.
Qed.

(** C2. In the schedule of [calculateSavingsPlan] deposits never increase:
    every record carries a deposit that is at most the deposit of every earlier
    record, so the deposit of a later segment is at most the deposit of any
    earlier one.  The reason is the one the claim gives: each segment runs at
    [actualDeposit = min(requiredDeposit, ceiling)] (the required deposit itself
    while the ceiling is still unbounded), all records of the segment carry that
    deposit, and the ceiling becomes that deposit. *)
Theorem deposits_never_increase (params : FinancialParams) (events : list SavingsEvent) :
  nonIncreasingDeposits (schedule (calculateSavingsPlan params events)) /\
  (forall sd sorted ebm st m,
      let required :=
        solveRequiredDeposit (currentBalance st) (currentCostBasis st)
          (currentNominalCostBasis st) (addMonths sd (currentMonth st))
          (currentMonth st)
          (filter (fun e => (currentMonth st <=? monthOffset e)%Z) sorted) params in
      let st' := segmentStep params sd sorted ebm st m in
      exists actual segment,
        actual = match maxDepositConstraint st with
                 | Some ceiling => Rmin required ceiling
                 | None => required
                 end /\
        maxDepositConstraint st' = Some actual /\
        fullSchedule st' = fullSchedule st ++ segment /\
        Forall (fun r => deposit r = actual) segment).
Proof.
  split.
  - unfold calculateSavingsPlan.
    destruct (sortBy monthOffset events); cbn [schedule]; [constructor|].
    apply planLoop_ceilingInvariant.
  - intros sd sorted ebm st m. cbv zeta.
    exists (segmentDeposit params sd sorted st).
    exists (Period.schedule
              (segmentRun params sd ebm st m (segmentDeposit params sd sorted st))).
    split; [|split; [|split]].
    + unfold segmentDeposit.
      destruct (maxDepositConstraint st) as [c|]; [apply capDeposit_min | reflexivity].
    + reflexivity.
    + reflexivity.
    + apply period_schedule_deposit.
Qed.

(** ** Sorting and grouping *)

Example sortBy_keeps_ties_in_order :
  map name
    (sortBy monthOffset
       [namedGoal "car" 24 1; namedGoal "trip" 12 2;
        namedGoal "roof" 24 3; namedGoal "bike" 12 4]) =
  ["trip"; "bike"; "car"; "roof"]%string.
Proof. reflexivity. Qed.

Example groupByMonth_buckets :
  map (fun kv => (fst kv, map name (snd kv)))
    (groupByMonth
       [namedGoal "trip" 12 2; namedGoal "bike" 12 4;
        namedGoal "car" 24 1; namedGoal "roof" 24 3]) =
  [(12%Z, ["trip"; "bike"]); (24%Z, ["car"; "roof"])]%string.
Proof. reflexivity. Qed.

Example lastEventMonthOf_is_max :
  lastEventMonthOf (goal 24 1) [goal 36 2; goal 12 3] = 36%Z.
Proof. reflexivity. Qed.

Lemma insertBy_perm {A} (key : A -> Z) x l : Permutation (x :: l) (insertBy key x l).
Proof.
  induction l as [|y l IH]; simpl; [reflexivity|].
  destruct (key x <=? key y)%Z; [reflexivity|].
  rewrite perm_swap. constructor. exact IH.
Qed.

Lemma sortBy_perm {A} (key : A -> Z) l : Permutation l (sortBy key l).
Proof.
  induction l as [|x l IH]; simpl; [constructor|].
  rewrite <- insertBy_perm. constructor. exact IH.
Qed.

Lemma insertBy_sorted {A} (key : A -> Z) x l :
  sortedBy key l -> sortedBy key (insertBy key x l).
Proof.
  unfold sortedBy. induction l as [|y l IH]; intros Hs; simpl.
  - constructor; constructor.
  - inversion Hs as [|? ? Hl Hy]; subst.
    destruct (key x <=? key y)%Z eqn:Hxy.
    + apply Z.leb_le in Hxy. constructor; [assumption|].
      constructor; [assumption|].
      eapply Forall_impl; [|exact Hy]. intros b Hb; cbv beta in Hb. lia.
    + apply Z.leb_gt in Hxy. constructor; [apply IH; assumption|].
      eapply Permutation_Forall; [apply insertBy_perm|].
      constructor; [lia | assumption].
Qed.

Lemma sortBy_sorted {A} (key : A -> Z) l : sortedBy key (sortBy key l).
Proof.
  induction l as [|x l IH]; simpl; [constructor|]. apply insertBy_sorted, IH.
Qed.

Lemma Map_keys_set {V} (m : JSMap V) k v :
  Map_keys (Map_set m k v) =
  if Map_has m k then Map_keys m else Map_keys m ++ [k].
Proof.
  unfold Map_has. induction m as [|[k' v'] m IH]; simpl; [reflexivity|].
  destruct (k' =? k)%Z eqn:Hk; simpl.
  - apply Z.eqb_eq in Hk. subst. reflexivity.
  - rewrite IH. destruct (Map_get m k); reflexivity.
Qed.

Lemma Map_has_set_same {V} (m : JSMap V) k v : Map_has (Map_set m k v) k = true.
Proof.
  unfold Map_has. induction m as [|[k' v'] m IH]; simpl.
  - rewrite Z.eqb_refl. reflexivity.
  - destruct (k' =? k)%Z eqn:Hk; simpl; [rewrite Z.eqb_refl; reflexivity|].
    rewrite Hk. exact IH.
Qed.

Lemma Map_has_In {V} (m : JSMap V) k : Map_has m k = true <-> In k (Map_keys m).
Proof.
  unfold Map_has. induction m as [|[k' v'] m IH]; simpl.
  - split; [discriminate | intros []].
  - destruct (k' =? k)%Z eqn:Hk.
    + apply Z.eqb_eq in Hk. split; [intros _; left; assumption | reflexivity].
    + apply Z.eqb_neq in Hk. rewrite IH. split; [right; assumption|].
      intros [H|H]; [contradiction | assumption].
Qed.

(** The keys after one grouping step: the event's month is appended when it is
    new. *)
Lemma Map_keys_groupPush m e :
  Map_keys (groupPush m e) =
  if Map_has m (monthOffset e) then Map_keys m else Map_keys m ++ [monthOffset e].
Proof.
  unfold groupPush.
  destruct (Map_has m (monthOffset e)) eqn:Hhas.
  - unfold Map_has in Hhas.
    destruct (Map_get m (monthOffset e)) as [arr|] eqn:Hget; [|discriminate].
    rewrite Map_keys_set. unfold Map_has. rewrite Hget. reflexivity.
  - pose proof (Map_has_set_same m (monthOffset e) []) as Hs.
    unfold Map_has in Hs.
    destruct (Map_get (Map_set m (monthOffset e) []) (monthOffset e)) eqn:Hget;
      [|discriminate].
    rewrite Map_keys_set. unfold Map_has at 1. rewrite Hget.
    rewrite Map_keys_set, Hhas. reflexivity.
Qed.

Lemma groupFold_keys l : forall m,
  NoDup (Map_keys m) ->
  NoDup (Map_keys (fold_left groupPush l m)) /\
  (forall k, In k (Map_keys (fold_left groupPush l m)) <->
             In k (Map_keys m) \/ In k (map monthOffset l)).
Proof.
  induction l as [|e l IH]; intros m Hnd; simpl.
  - split; [assumption|]. intros k; split; [left; assumption | intros [H|[]]; assumption].
  - assert (Hnd' : NoDup (Map_keys (groupPush m e))).
    { rewrite Map_keys_groupPush. destruct (Map_has m (monthOffset e)) eqn:Hhas.
      - assumption.
      - apply NoDup_app; [assumption | constructor; [intros [] | constructor] |].
        intros k Hk [Hk'|[]]. subst k.
        apply Map_has_In in Hk. congruence. }
    destruct (IH _ Hnd') as [H1 H2]. split; [assumption|].
    intros k. rewrite H2, Map_keys_groupPush.
    destruct (Map_has m (monthOffset e)) eqn:Hhas.
    + apply Map_has_In in Hhas. split.
      * intros [H|H]; [left; assumption | right; right; assumption].
      * intros [H|[H|H]]; [left; assumption | left; subst; assumption | right; assumption].
    + rewrite in_app_iff; simpl. tauto.
Qed.

Lemma groupByMonth_keys l :
  NoDup (Map_keys (groupByMonth l)) /\
  (forall k, In k (Map_keys (groupByMonth l)) <-> In k (map monthOffset l)).
Proof.
  destruct (groupFold_keys l [] (NoDup_nil _)) as [H1 H2]. split; [exact H1|].
  intros k. unfold groupByMonth. rewrite H2. simpl. tauto.
Qed.

Lemma sorted_NoDup_increasing (l : list Z) :
  sortedBy (fun k => k) l -> NoDup l -> StronglySorted Z.lt l.
Proof.
  unfold sortedBy. induction l as [|x l IH]; intros Hs Hnd; [constructor|].
  inversion Hs as [|? ? Hl Hx]; subst. inversion Hnd as [|? ? Hnin Hnd']; subst.
  constructor; [apply IH; assumption|].
  rewrite Forall_forall in *. intros y Hy.
  specialize (Hx y Hy). assert (x <> y) by (intros ->; contradiction). lia.
Qed.

Lemma eventMonthsOf_increasing events : StronglySorted Z.lt (eventMonthsOf events).
Proof.
  unfold eventMonthsOf. apply sorted_NoDup_increasing; [apply sortBy_sorted|].
  eapply Permutation_NoDup; [apply sortBy_perm|]. apply groupByMonth_keys.
Qed.

Lemma eventMonthsOf_In events k :
  In k (eventMonthsOf events) <-> In k (map monthOffset events).
Proof.
  unfold eventMonthsOf. split; intros H.
  - apply (Permutation_in _ (Permutation_sym (sortBy_perm _ _))) in H.
    apply groupByMonth_keys in H.
    eapply Permutation_in; [|exact H].
    apply Permutation_map, Permutation_sym, sortBy_perm.
  - apply (Permutation_in _ (sortBy_perm _ _)).
    apply groupByMonth_keys.
    eapply Permutation_in; [|exact H].
    apply Permutation_map, sortBy_perm.
Qed.

Lemma planLoop_unfold params events :
  planLoop params events =
  fold_left (segmentStep params (newDate (startDate params))
               (sortBy monthOffset events)
               (groupByMonth (sortBy monthOffset events)))
    (eventMonthsOf events) (initialPlanState params).
Proof. reflexivity. Qed.

(** ** Month indices of a schedule (C9) *)

Lemma monthRange_cons from n :
  monthRange from (S n) = from :: monthRange (from + 1) n.
Proof.
  unfold monthRange. simpl. rewrite <- seq_shift, map_map.
  f_equal; [lia|]. apply map_ext. intros k. lia.
Qed.

Lemma monthRange_app from n k :
  monthRange from n ++ monthRange (from + Z.of_nat n) k = monthRange from (n + k).
Proof.
  revert from; induction n as [|n IH]; intros from.
  - change (monthRange (from + Z.of_nat 0) k = monthRange from k). f_equal. lia.
  - rewrite Nat.add_succ_l, !monthRange_cons. simpl. f_equal.
    rewrite <- IH. do 2 f_equal. lia.
Qed.

Lemma monthRange_length from n : List.length (monthRange from n) = n.
Proof. unfold monthRange. rewrite length_map, length_seq. reflexivity. Qed.

Lemma monthRange_nth from n i :
  (i < n)%nat -> nth_error (monthRange from n) i = Some (from + Z.of_nat i)%Z.
Proof.
  intros Hi. unfold monthRange. rewrite nth_error_map.
  rewrite nth_error_seq. destruct (Nat.ltb_spec i n); [reflexivity | lia].
Qed.

Lemma monthLoop_indices sd smi dep params evs n : forall i st,
  map monthIndex
    (simSchedule (monthLoop (monthStep sd smi dep params evs) n i st)) =
  map monthIndex (simSchedule st) ++ monthRange (smi + i) n.
Proof.
  induction n as [|n IH]; intros i st; simpl.
  - unfold monthRange; simpl. rewrite app_nil_r. reflexivity.
  - rewrite IH, monthStep_schedule, map_app, <- app_assoc, monthRange_cons. simpl.
    do 3 f_equal. lia.
Qed.

(** A segment yields one record per month, numbered from its start month. *)
Lemma period_schedule_indices sb scb sncb sd smi dur dep params evs :
  map monthIndex
    (Period.schedule (runSimulationPeriod sb scb sncb sd smi dur dep params evs)) =
  monthRange smi (Z.to_nat dur).
Proof.
  unfold runSimulationPeriod; cbn [Period.schedule].
  rewrite monthLoop_indices. simpl. f_equal. lia.
Qed.

Lemma last_cons (m : Z) ms d : last (m :: ms) d = last ms m.
Proof.
  revert m d; induction ms as [|x ms IH]; intros m d; [reflexivity|].
  change (last (x :: ms) d = last (x :: ms) m). rewrite !IH. reflexivity.
Qed.

Lemma segmentStep_indices params sd sorted ebm st m :
  map monthIndex (fullSchedule (segmentStep params sd sorted ebm st m)) =
  map monthIndex (fullSchedule st) ++
  monthRange (currentMonth st) (Z.to_nat (m - currentMonth st + 1)).
Proof.
  unfold segmentStep; cbn [fullSchedule]. rewrite map_app. f_equal.
  unfold segmentRun. apply period_schedule_indices.
Qed.

(** Over increasing boundaries that start at or after the current month, the
    segment loop appends the months from the current month through the last
    boundary, each exactly once and in order. *)
Lemma planFold_indices params sd sorted ebm : forall ms st,
  StronglySorted Z.lt ms ->
  Forall (fun m => (currentMonth st <= m)%Z) ms ->
  let st' := fold_left (segmentStep params sd sorted ebm) ms st in
  (currentMonth st <= currentMonth st')%Z /\
  currentMonth st' = (last ms (currentMonth st - 1) + 1)%Z /\
  map monthIndex (fullSchedule st') =
    map monthIndex (fullSchedule st) ++
    monthRange (currentMonth st) (Z.to_nat (currentMonth st' - currentMonth st)).
Proof.
  induction ms as [|m ms IH]; intros st Hs Hge; cbv zeta.
  - simpl. split; [lia|]. split; [lia|].
    rewrite Z.sub_diag. simpl. rewrite app_nil_r. reflexivity.
  - inversion Hs as [|? ? Hs' Hlt]; subst.
    inversion Hge as [|? ? Hm Hge']; subst.
    cbn [fold_left].
    set (st1 := segmentStep params sd sorted ebm st m).
    assert (Hcur1 : currentMonth st1 = (m + 1)%Z) by reflexivity.
    destruct (IH st1 Hs') as [Hle [Hlast Hmap]].
    { rewrite Hcur1. eapply Forall_impl; [|exact Hlt]. intros x Hx; cbv beta in Hx. lia. }
    split; [lia|]. split.
    + rewrite Hlast, Hcur1, last_cons. f_equal. f_equal. lia.
    + rewrite Hmap. unfold st1 at 1. rewrite segmentStep_indices, <- app_assoc.
      f_equal. rewrite Hcur1.
      replace (m + 1)%Z
        with (currentMonth st + Z.of_nat (Z.to_nat (m - currentMonth st + 1)))%Z
        at 1 by lia.
      rewrite monthRange_app. f_equal. lia.
Qed.

Lemma fold_left_max_spec (l : list Z) : forall a,
  let M := fold_left Z.max l a in
  (M = a \/ In M l) /\ (a <= M)%Z /\ (forall x, In x l -> (x <= M)%Z).
Proof.
  induction l as [|y l IH]; intros a; cbv zeta; simpl.
  - split; [left; reflexivity|]. split; [lia | intros x []].
  - destruct (IH (Z.max a y)) as [Hin [Hle Hall]]. split; [|split].
    + destruct Hin as [Heq|Hin]; [|right; right; assumption].
      rewrite Heq. destruct (Z.max_spec a y) as [[_ ->]|[_ ->]];
        [right; left; reflexivity | left; reflexivity].
    + lia.
    + intros x [<-|Hx]; [lia | apply Hall; assumption].
Qed.

Lemma last_increasing_max (ms : list Z) d :
  StronglySorted Z.lt ms -> ms <> [] ->
  In (last ms d) ms /\ (forall x, In x ms -> (x <= last ms d)%Z).
Proof.
  induction ms as [|m ms IH]; intros Hs Hne; [contradiction|].
  inversion Hs as [|? ? Hs' Hlt]; subst.
  destruct ms as [|m' ms'].
  - simpl. split; [left; reflexivity | intros x [<-|[]]; lia].
  - destruct (IH Hs') as [Hin Hall]; [discriminate|].
    change (last (m :: m' :: ms') d) with (last (m' :: ms') d).
    split; [right; assumption|].
    intros x [<-|Hx]; [|apply Hall; assumption].
    rewrite Forall_forall in Hlt. specialize (Hlt _ Hin). lia.
Qed.

(** The last segment boundary is the largest month offset of the goals. *)
Lemma eventMonthsOf_last e es d :
  last (eventMonthsOf (e :: es)) d = lastEventMonthOf e es.
Proof.
  pose proof (eventMonthsOf_increasing (e :: es)) as Hs.
  assert (Hne : eventMonthsOf (e :: es) <> []).
  { intros Hnil. assert (Hin : In (monthOffset e) (eventMonthsOf (e :: es)))
      by (apply eventMonthsOf_In; left; reflexivity).
    rewrite Hnil in Hin. destruct Hin. }
  destruct (last_increasing_max _ d Hs Hne) as [Hin Hall].
  destruct (fold_left_max_spec (map monthOffset es) (monthOffset e)) as [HMin [HMle HMall]].
  fold (lastEventMonthOf e es) in HMin, HMle, HMall.
  apply Z.le_antisymm.
  - apply eventMonthsOf_In in Hin. destruct Hin as [<-|Hin]; [assumption|].
    apply HMall; assumption.
  - apply Hall, eventMonthsOf_In.
    destruct HMin as [->|HMin]; [left; reflexivity | right; assumption].
Qed.

Lemma sortBy_cons_nonempty {A} (key : A -> Z) x l : sortBy key (x :: l) <> [].
Proof.
  intros Hnil. pose proof (sortBy_perm key (x :: l)) as Hp.
  rewrite Hnil in Hp. apply Permutation_sym, Permutation_nil in Hp. discriminate.
Qed.

Lemma calculateSavingsPlan_nonempty params e es :
  schedule (calculateSavingsPlan params (e :: es)) =
  fullSchedule (planLoop params (e :: es)).
Proof.
  unfold calculateSavingsPlan.
  destruct (sortBy monthOffset (e :: es)) eqn:Hsorted; [|reflexivity].
  exfalso. exact (sortBy_cons_nonempty _ _ _ Hsorted).
Qed.

Lemma eventMonthsOf_nonneg events :
  (forall x, In x events -> (0 <= monthOffset x)%Z) ->
  Forall (fun m => (0 <= m)%Z) (eventMonthsOf events).
Proof.
  intros Hnonneg. apply Forall_forall. intros k Hk. apply eventMonthsOf_In in Hk.
  apply in_map_iff in Hk. destruct Hk as [x [<- Hx]]. apply Hnonneg, Hx.
Qed.

(** The month indices of a plan with non-negative month offsets. *)
Lemma plan_schedule_indices params e es :
  (forall x, In x (e :: es) -> (0 <= monthOffset x)%Z) ->
  map monthIndex (schedule (calculateSavingsPlan params (e :: es))) =
  monthRange 0 (Z.to_nat (lastEventMonthOf e es + 1)).
Proof.
  intros Hnonneg. rewrite calculateSavingsPlan_nonempty, planLoop_unfold.
  destruct (planFold_indices params (newDate (startDate params))
              (sortBy monthOffset (e :: es))
              (groupByMonth (sortBy monthOffset (e :: es)))
              (eventMonthsOf (e :: es)) (initialPlanState params))
    as [_ [Hlast Hm]].
  - apply eventMonthsOf_increasing.
  - apply eventMonthsOf_nonneg, Hnonneg.
  - rewrite Hm, Hlast, eventMonthsOf_last. simpl. f_equal. lia.
Qed.

Lemma sorted_last_max {A} (key : A -> Z) (l : list A) d :
  sortedBy key l -> l <> [] ->
  In (last l d) l /\ (forall x, In x l -> (key x <= key (last l d))%Z).
Proof.
  unfold sortedBy. induction l as [|a l IH]; intros Hs Hne; [contradiction|].
  inversion Hs as [|? ? Hs' Hle]; subst.
  destruct l as [|b l'].
  - simpl. split; [left; reflexivity | intros x [<-|[]]; lia].
  - destruct (IH Hs') as [Hin Hall]; [discriminate|].
    change (last (a :: b :: l') d) with (last (b :: l') d).
    split; [right; assumption|].
    intros x [<-|Hx]; [|apply Hall; assumption].
    rewrite Forall_forall in Hle. apply Hle, Hin.
Qed.

(** The last goal in sorted order is due in the largest month offset. *)
Lemma sorted_last_month e es :
  monthOffset (last (sortBy monthOffset (e :: es)) e) = lastEventMonthOf e es.
Proof.
  destruct (sorted_last_max monthOffset (sortBy monthOffset (e :: es)) e
              (sortBy_sorted _ _) (sortBy_cons_nonempty _ _ _)) as [Hin Hall].
  destruct (fold_left_max_spec (map monthOffset es) (monthOffset e))
    as [HMin [HMle HMall]].
  fold (lastEventMonthOf e es) in HMin, HMle, HMall.
  apply (Permutation_in _ (Permutation_sym (sortBy_perm _ _))) in Hin.
  apply Z.le_antisymm.
  - destruct Hin as [<-|Hin]; [assumption|]. apply HMall, in_map, Hin.
  - assert (HM : In (lastEventMonthOf e es) (map monthOffset (e :: es))).
    { destruct HMin as [->|HMin]; [left; reflexivity | right; assumption]. }
    apply in_map_iff in HM. destruct HM as [x [<- Hx]].
    apply Hall. apply (Permutation_in _ (sortBy_perm _ _)). exact Hx.
Qed.

(** C9. For a non-empty goal list whose month offsets are all non-negative
    integers, the schedule of [calculateSavingsPlan] has exactly
    (largest month offset + 1) records, one per month and in chronological
    order: the record at position [i] has month index [i], from month 0 through
    the month of the last goal (the last one in sorted order, whose month
    offset is the largest). *)
Theorem schedule_spans_horizon (params : FinancialParams)
    (e : SavingsEvent) (es : list SavingsEvent) :
  (forall x, In x (e :: es) -> (0 <= monthOffset x)%Z) ->
  let sched := schedule (calculateSavingsPlan params (e :: es)) in
  let lastMonth := monthOffset (last (sortBy monthOffset (e :: es)) e) in
  lastMonth = lastEventMonthOf e es /\
  List.length sched = Z.to_nat (lastMonth + 1) /\
  map monthIndex sched = monthRange 0 (Z.to_nat (lastMonth + 1)) /\
  (forall i m, nth_error sched i = Some m -> monthIndex m = Z.of_nat i) /\
  (forall i, (0 <= i <= lastMonth)%Z ->
     exists m, nth_error sched (Z.to_nat i) = Some m /\ monthIndex m = i).
Proof.
  intros Hnonneg. cbv zeta. rewrite sorted_last_month.
  pose proof (plan_schedule_indices params e es Hnonneg) as Hmap.
  split; [reflexivity|]. split; [|split; [exact Hmap|split]].
  - rewrite <- (length_map monthIndex), Hmap. apply monthRange_length.
  - intros i m Hi.
    assert (Hi' : nth_error (map monthIndex (schedule (calculateSavingsPlan params (e :: es)))) i
                  = Some (monthIndex m)) by (rewrite nth_error_map, Hi; reflexivity).
    rewrite Hmap in Hi'.
    assert (Hlt : (i < Z.to_nat (lastEventMonthOf e es + 1))%nat).
    { rewrite <- (monthRange_length 0 (Z.to_nat (lastEventMonthOf e es + 1))).
      apply nth_error_Some. rewrite Hi'. discriminate. }
    rewrite (monthRange_nth _ _ _ Hlt) in Hi'. injection Hi' as Hi'. lia.
  - intros i Hi.
    assert (Hlt : (Z.to_nat i < Z.to_nat (lastEventMonthOf e es + 1))%nat) by lia.
    pose proof (monthRange_nth 0 _ _ Hlt) as Hnth. rewrite <- Hmap, nth_error_map in Hnth.
    destruct (nth_error (schedule (calculateSavingsPlan params (e :: es))) (Z.to_nat i))
      as [m|]; [|discriminate].
    exists m. split; [reflexivity|]. simpl in Hnth. injection Hnth as Hnth. lia.
Qed.

(** ** Inflation-adjusted net targets (C5) *)




Lemma Map_get_set {V} (m : JSMap V) k v k' :
  Map_get (Map_set m k v) k' = if (k =? k')%Z then Some v else Map_get m k'.
Proof.
  induction m as [|[k0 v0] m IH]; simpl; [reflexivity|].
  destruct (k0 =? k)%Z eqn:H0; simpl.
  - apply Z.eqb_eq in H0. subst k0. destruct (k =? k')%Z; reflexivity.
  - rewrite IH. destruct (k0 =? k')%Z eqn:H1; [|reflexivity].
    apply Z.eqb_eq in H1. subst k0. rewrite Z.eqb_sym, H0. reflexivity.
Qed.

Lemma Map_get_groupPush m e k :
  Map_get (groupPush m e) k =
  if (monthOffset e =? k)%Z
  then Some (match Map_get m k with Some arr => arr | None => [] end ++ [e])
  else Map_get m k.
Proof.
  unfold groupPush, Map_has.
  destruct (Map_get m (monthOffset e)) as [arr|] eqn:Hget.
  - rewrite Hget, Map_get_set.
    destruct (monthOffset e =? k)%Z eqn:Hk; [|reflexivity].
    apply Z.eqb_eq in Hk. subst k. rewrite Hget. reflexivity.
  - rewrite Map_get_set, Z.eqb_refl, !Map_get_set.
    destruct (monthOffset e =? k)%Z eqn:Hk; [|reflexivity].
    apply Z.eqb_eq in Hk. subst k. rewrite Hget. reflexivity.
Qed.

Lemma groupFold_get l k : forall m,
  Map_get (fold_left groupPush l m) k =
  match Map_get m k with
  | Some arr => Some (arr ++ eventsDue k l)
  | None => match eventsDue k l with [] => None | evs => Some evs end
  end.
Proof.
  unfold eventsDue. induction l as [|e l IH]; intros m; simpl.
  - destruct (Map_get m k); [rewrite app_nil_r|]; reflexivity.
  - rewrite IH, Map_get_groupPush.
    destruct (monthOffset e =? k)%Z.
    + destruct (Map_get m k) as [arr|]; [rewrite <- app_assoc|]; reflexivity.
    + reflexivity.
Qed.

(** Each bucket of the grouping holds the goals due that month, in order. *)
Lemma groupByMonth_get l k :
  Map_get (groupByMonth l) k =
  match eventsDue k l with [] => None | evs => Some evs end.
Proof. unfold groupByMonth. rewrite groupFold_get. reflexivity. Qed.

Lemma monthRange_In from n k :
  In k (monthRange from n) -> (from <= k < from + Z.of_nat n)%Z.
Proof.
  unfold monthRange. rewrite in_map_iff. intros [i [<- Hi]].
  apply in_seq in Hi. lia.
Qed.






Lemma whenPositive_pos total v : 0 < total -> whenPositive total v = Some v.
Proof.
  intros H. unfold whenPositive.
  replace (Rgtb total 0) with true; [reflexivity | symmetry; cmp_true].
Qed.

Lemma Rpower_pos x y : 0 < Rpower x y.
Proof. unfold Rpower. apply exp_pos. Qed.


End Properties.

(** C7 on the specification's scenario C: a single goal of 10000 at month 12
    with no capital-gains tax. *)
Lemma zero_tax_identity_witness :
  let params := sampleParams 7 2 0 0 in
  capitalGainsTax params = 0 /\
  Forall (fun m => withdrawalGross m = withdrawalNet m /\ taxPaid m = None)
    (schedule (calculateSavingsPlan (host := monthCountHost) params [goal 12 10000])).
Proof.
  cbv zeta. split; [reflexivity|].
  exact (proj2 (proj2 (proj2
           (zero_tax_identity (host := monthCountHost) (sampleParams 7 2 0 0) eq_refl)))
           [goal 12 10000]).
Defined.

(** C9 on the specification's scenario B: goals at months 12 and 24 give a
    schedule of 25 records, month 0 through month 24. *)
Lemma schedule_spans_horizon_witness :
  let params := sampleParams 7 2 25 0 in
  let sched :=
    schedule (calculateSavingsPlan (host := monthCountHost) params
                [goal 12 5000; goal 24 20000]) in
  (forall x, In x [goal 12 5000; goal 24 20000] -> (0 <= monthOffset x)%Z) /\
  List.length sched = 25%nat /\
  map monthIndex sched = monthRange 0 25.
Proof.
  cbv zeta.
  assert (H : forall x, In x [goal 12 5000; goal 24 20000] -> (0 <= monthOffset x)%Z).
  { intros x [<-|[<-|[]]]; simpl; lia. }
  split; [exact H|].
  destruct (schedule_spans_horizon (host := monthCountHost) (sampleParams 7 2 25 0)
              (goal 12 5000) [goal 24 20000] H) as [_ [Hlen [Hmap _]]].
  split; [exact Hlen | exact Hmap].
Defined.




(* ------------------------------------------------------------------------- *)
(** ** [Math.ceil] *)

Lemma Math_ceil_spec x :
  exists k : Z, Math_ceil x = IZR k /\ IZR k - 1 < x <= IZR k.
Proof.
  exists (- Int_part (- x))%Z. split; [reflexivity|].
  destruct (base_Int_part (- x)) as [H1 H2]. rewrite opp_IZR. lra.
Qed.

Lemma Math_ceil_unique x (k : Z) : IZR k - 1 < x <= IZR k -> Math_ceil x = IZR k.
Proof.
  intros Hk. destruct (Math_ceil_spec x) as [c [Hc Hx]]. rewrite Hc. f_equal.
  assert (H1 : (c - 1 < k)%Z) by (apply lt_IZR; rewrite minus_IZR; lra).
  assert (H2 : (k - 1 < c)%Z) by (apply lt_IZR; rewrite minus_IZR; lra).
  lia.
Qed.

Lemma Math_ceil_monotone x y : x <= y -> Math_ceil x <= Math_ceil y.
Proof.
  intros Hxy.
  destruct (Math_ceil_spec x) as [a [-> Ha]].
  destruct (Math_ceil_spec y) as [b [-> Hb]].
  apply IZR_le.
  assert (H : (a - 1 < b)%Z) by (apply lt_IZR; rewrite minus_IZR; lra).
  lia.
Qed.

(** Rounding up to the next multiple of 10, as the solver's last line does. *)
Lemma roundUp10_spec r :
  let d := Math_ceil (r / 10) * 10 in
  r <= d < r + 10 /\ exists k : Z, d = 10 * IZR k.
Proof.
  cbv zeta. destruct (Math_ceil_spec (r / 10)) as [k [-> Hk]].
  split; [lra|]. exists k. lra.
Qed.

(* ------------------------------------------------------------------------- *)
(** ** The binary search *)

Lemma bisect_bounds fails n : forall low high,
  low <= high -> low <= bisect fails n low high high <= high.
Proof.
  induction n as [|n IH]; intros low high Hle; simpl; [lra|].
  destruct (fails ((low + high) / 2)).
  - assert (H : (low + high) / 2 <= high) by lra. specialize (IH _ _ H). lra.
  - assert (H : low <= (low + high) / 2) by lra. specialize (IH _ _ H). lra.
Qed.

(** After [n] halvings the search returns the upper end [r] of an interval of
    width [(high - low) / 2^n]: [r] is the initial upper end or a probed deposit
    that passed, and the lower end is the initial lower end or a probed deposit
    that failed. *)
Lemma bisect_spec fails n : forall low high,
  low <= high ->
  let r := bisect fails n low high high in
  let w := (high - low) / 2 ^ n in
  low + w <= r <= high /\
  (r = high \/ fails r = false) /\
  (r - w = low \/ fails (r - w) = true).
Proof.
  induction n as [|n IH]; intros low high Hle; cbv zeta.
  - simpl. replace ((high - low) / 1) with (high - low) by field.
    split; [lra|]. split; [left; reflexivity | left; lra].
  - assert (Hpow : 0 < 2 ^ n) by (apply pow_lt; lra).
    cbn [bisect pow]. set (mid := (low + high) / 2).
    assert (Hw1 : (high - low) / (2 * 2 ^ n) = (high - mid) / 2 ^ n)
      by (unfold mid; field; lra).
    assert (Hw2 : (high - low) / (2 * 2 ^ n) = (mid - low) / 2 ^ n)
      by (unfold mid; field; lra).
    destruct (fails mid) eqn:Hmid.
    + assert (H : mid <= high) by (unfold mid; lra).
      destruct (IH mid high H) as [Hb [Hr Hl]]. rewrite Hw1.
      split; [unfold mid in *; lra|]. split; [exact Hr|].
      destruct Hl as [Hl|Hl]; [right; rewrite Hl; exact Hmid | right; exact Hl].
    + assert (H : low <= mid) by (unfold mid; lra).
      destruct (IH low mid H) as [Hb [Hr Hl]]. rewrite Hw2.
      split; [unfold mid in *; lra|]. split; [|exact Hl].
      destruct Hr as [Hr|Hr]; [right; rewrite Hr; exact Hmid | right; exact Hr].
Qed.

Lemma bisect_all_fail fails n : forall low high result,
  (forall d, low < d <= high -> fails d = true) -> low < high ->
  bisect fails n low high result = result.
Proof.
  induction n as [|n IH]; intros low high result Hall Hlt; simpl; [reflexivity|].
  rewrite Hall by lra. apply IH; [|lra]. intros d Hd. apply Hall. lra.
Qed.

Lemma bisect_all_pass fails n low high :
  (forall d, low < d -> fails d = false) -> low < high ->
  bisect fails n low high high = low + (high - low) / 2 ^ n.
Proof.
  intros Hall Hlt.
  assert (Hle : low <= high) by lra.
  destruct (bisect_spec fails n low high Hle) as [Hb [_ Hl]].
  assert (Hpow : 0 < 2 ^ n) by (apply pow_lt; lra).
  assert (Hw : 0 < (high - low) / 2 ^ n).
  { apply Rdiv_lt_0_compat; lra. }
  destruct Hl as [Hl|Hl]; [lra|].
  destruct (Rle_lt_or_eq_dec _ _ (proj1 Hb)) as [Hgt|Heq]; [|lra].
  rewrite Hall in Hl by lra. discriminate.
Qed.

(** Pointwise more failures can only move the search result up. *)
Lemma bisect_monotone fails1 fails2 n :
  (forall d, fails1 d = true -> fails2 d = true) ->
  forall low high, low <= high ->
  bisect fails1 n low high high <= bisect fails2 n low high high.
Proof.
  intros Himp. induction n as [|n IH]; intros low high Hle; simpl; [lra|].
  set (mid := (low + high) / 2).
  assert (H1 : low <= mid) by (unfold mid; lra).
  assert (H2 : mid <= high) by (unfold mid; lra).
  destruct (fails1 mid) eqn:Hf1.
  - rewrite (Himp _ Hf1). apply IH; assumption.
  - destruct (fails2 mid).
    + pose proof (bisect_bounds fails1 n low mid H1).
      pose proof (bisect_bounds fails2 n mid high H2). lra.
    + apply IH; assumption.
Qed.

(* ------------------------------------------------------------------------- *)
(** ** The look-ahead simulation of a single goal *)

(** Split every comparison of the goal into its two outcomes. *)
Ltac cmp_destruct :=
  repeat match goal with
  | |- context [Rgtb ?x ?y] =>
      let H := fresh "Hcmp" in
      destruct (Rgtb x y) eqn:H;
      [apply Rgtb_true_iff in H | apply Rgtb_false_iff in H]
  | |- context [Rltb ?x ?y] =>
      let H := fresh "Hcmp" in
      destruct (Rltb x y) eqn:H;
      [apply Rltb_true_iff in H | apply Rltb_false_iff in H]
  | |- context [Rleb ?x ?y] =>
      let H := fresh "Hcmp" in
      destruct (Rleb x y) eqn:H;
      [apply Rleb_true_iff in H | apply Rleb_false_iff in H]
  end.

Section SingleGoal.
Context {host : Host}.

Lemma monthLoop_snoc step n : forall i st,
  monthLoop step (S n) i st = step (i + Z.of_nat n)%Z (monthLoop step n i st).
Proof.
  induction n as [|n IH]; intros i st.
  - simpl. f_equal. lia.
  - change (monthLoop step (S (S n)) i st)
      with (monthLoop step (S n) (i + 1)%Z (step i st)).
    rewrite IH. cbn [monthLoop]. f_equal. lia.
Qed.

Lemma monthLoop_ext step1 step2 n : forall i st,
  (forall j s, (i <= j < i + Z.of_nat n)%Z -> step1 j s = step2 j s) ->
  monthLoop step1 n i st = monthLoop step2 n i st.
Proof.
  induction n as [|n IH]; intros i st Hext; [reflexivity|].
  cbn [monthLoop]. rewrite (Hext i st) by lia. apply IH.
  intros j s Hj. apply Hext. lia.
Qed.

(** A month step only looks at the map entry of its own month. *)
Lemma monthStep_ext sd smi dep params evs1 evs2 i st :
  Map_get evs1 (smi + i) = Map_get evs2 (smi + i) ->
  monthStep sd smi dep params evs1 i st = monthStep sd smi dep params evs2 i st.
Proof.
  intros Hget. unfold monthStep, handleEvents, monthPreWithdrawalBalance.
  rewrite Hget. reflexivity.
Qed.

Lemma groupByMonth_single e : groupByMonth [e] = [(monthOffset e, [e])].
Proof.
  unfold groupByMonth, groupPush, Map_has. cbn [fold_left Map_get Map_set].
  rewrite Z.eqb_refl. reflexivity.
Qed.

(** With a single goal the look-ahead simulation is a run of months without
    events followed by the month of the goal. *)
Lemma lookaheadFails_single sb scb sncb sd smi e params d :
  lookaheadFails sb scb sncb sd smi e [] params d =
  match Z.to_nat (monthOffset e - smi + 1) with
  | O => false
  | S k =>
      failedAfter
        (withdraw (capitalGainsTax params / 100)
           (getMonthlyRate (annualInflation params)) (monthOffset e)
           (beforeGoal sb scb sncb sd smi params d k) e)
  end.
Proof.
  unfold lookaheadFails, lastEventMonthOf. cbn [map fold_left].
  rewrite groupByMonth_single. unfold runSimulationPeriod. cbn [Period.failed].
  destruct (Z.to_nat (monthOffset e - smi + 1)) as [|k] eqn:Hn; [reflexivity|].
  rewrite monthLoop_snoc.
  rewrite (monthLoop_ext _ (monthStep sd smi d params []) k).
  - unfold monthStep at 1. cbn [simFailed]. unfold handleEvents.
    replace (smi + (0 + Z.of_nat k))%Z with (monthOffset e) by lia.
    cbn [Map_get]. rewrite Z.eqb_refl. reflexivity.
  - intros j s Hj. apply monthStep_ext. cbn [Map_get].
    destruct (monthOffset e =? smi + j)%Z eqn:Heq; [|reflexivity].
    apply Z.eqb_eq in Heq. lia.
Qed.

(** The balance before the goal's withdrawal does not depend on the goal. *)
Lemma failed_after_withdrawal_monotone B g1 g2 f :
  g1 <= g2 \/ (0 < B /\ g1 <= 0) ->
  (if Rltb (B - g1) (-1) then true
   else if Rleb B 0 && Rgtb g1 0 then true else f) = true ->
  (if Rltb (B - g2) (-1) then true
   else if Rleb B 0 && Rgtb g2 0 then true else f) = true.
Proof.
  intros [H|[HB Hg]]; cmp_destruct; simpl; intros Hf;
    try reflexivity; try discriminate; try assumption; lra.
Qed.

Lemma profitRatio_nonpositive_balance basis bal : bal <= 0 -> profitRatio basis bal = 0.
Proof.
  intros H. unfold profitRatio.
  replace (Rgtb bal 0) with false; [reflexivity | symmetry; cmp_false].
Qed.

(** A larger non-negative target needs a larger gross withdrawal, unless the
    effective tax rate exceeds 1: then the balance is positive and the gross
    withdrawal of a non-negative target is not positive. *)
Lemma grossNeeded_order tax T1 T2 F basis bal :
  0 <= T1 <= T2 -> 0 < F ->
  grossNeeded tax (T1 * F) basis bal <= grossNeeded tax (T2 * F) basis bal \/
  (0 < bal /\ grossNeeded tax (T1 * F) basis bal <= 0).
Proof.
  intros HT HF. unfold grossNeeded, Rdiv.
  set (q := / (1 - profitRatio basis bal * tax)).
  destruct (Rle_dec 0 q) as [Hq|Hq].
  - left. apply Rmult_le_compat_r; [assumption | nra].
  - right. assert (Hq' : q < 0) by lra. split.
    + destruct (Rlt_dec 0 bal) as [Hb|Hb]; [assumption|]. exfalso.
      unfold q in Hq'. rewrite profitRatio_nonpositive_balance in Hq' by lra.
      rewrite Rmult_0_l, Rminus_0_r, Rinv_1 in Hq'. lra.
    + assert (0 <= T1 * F) by nra. nra.
Qed.

Lemma withdraw_failed_monotone tax mi idx a e1 e2 :
  0 <= targetAmount e1 <= targetAmount e2 ->
  failedAfter (withdraw tax mi idx a e1) = true ->
  failedAfter (withdraw tax mi idx a e2) = true.
Proof.
  intros HT. unfold failedAfter, withdraw. cbn [balance accFailed].
  apply failed_after_withdrawal_monotone.
  unfold targetNetNominal, inflationFactor, Math_pow.
  apply grossNeeded_order; [assumption | apply Rpower_pos].
Qed.

(** Raising the target of a single goal can only turn passing deposits into
    failing ones. *)
Lemma lookaheadFails_monotone_in_target sb scb sncb sd smi e1 e2 params d :
  monthOffset e1 = monthOffset e2 ->
  0 <= targetAmount e1 <= targetAmount e2 ->
  lookaheadFails sb scb sncb sd smi e1 [] params d = true ->
  lookaheadFails sb scb sncb sd smi e2 [] params d = true.
Proof.
  intros Hm HT. rewrite !lookaheadFails_single, <- Hm.
  destruct (Z.to_nat (monthOffset e1 - smi + 1)); [trivial|].
  apply withdraw_failed_monotone, HT.
Qed.

End SingleGoal.

(** The look-ahead simulation of a single goal due in month 0, from month 0,
    with zero return and zero inflation. *)
Lemma lookaheadFails_month0 {host : Host} sb scb sncb sd tax T d :
  lookaheadFails sb scb sncb sd 0 (goal 0 T) [] (sampleParams 0 0 tax 0) d =
  let B := sb + d in
  let g := grossNeeded (tax / 100) T (scb + d) B in
  if Rltb (B - g) (-1) then true
  else if Rleb B 0 && Rgtb g 0 then true else false.
Proof.
  rewrite lookaheadFails_single.
  change (Z.to_nat (monthOffset (goal 0 T) - 0 + 1)) with 1%nat.
  unfold failedAfter, withdraw, beforeGoal, afterGrowth, startState.
  cbn [monthLoop balance accCostBasis accFailed simBalance simCostBasis simFailed
       sampleParams annualReturn annualInflation capitalGainsTax goal monthOffset].
  unfold targetNetNominal, inflationFactor, Math_pow. cbn [goal targetAmount].
  rewrite getMonthlyRate_zero, Rplus_0_r, Rpower_one_base, !Rmult_1_r.
  reflexivity.
Qed.

(* ------------------------------------------------------------------------- *)
(** ** The deposit solver (C1, C8) *)

Lemma cap_width : maxDepositCap / 2 ^ 20 = 15625 / 16384.
Proof. unfold maxDepositCap. simpl. field. Qed.

Lemma roundUp10_small r : 0 < r <= 10 -> Math_ceil (r / 10) * 10 = 10.
Proof.
  intros Hr. rewrite (Math_ceil_unique _ 1); [lra|]. lra.
Qed.

Section Solver.
Context {host : Host}.

(** When no positive deposit fails, the solver returns 10. *)
Lemma solveRequiredDeposit_all_pass sb scb sncb sd smi e es params :
  (forall d, 0 < d -> lookaheadFails sb scb sncb sd smi e es params d = false) ->
  solveRequiredDeposit sb scb sncb sd smi (e :: es) params = 10.
Proof.
  intros Hall. unfold solveRequiredDeposit.
  rewrite bisect_all_pass; [|exact Hall | unfold maxDepositCap; lra].
  rewrite Rplus_0_l, Rminus_0_r, cap_width. apply roundUp10_small. lra.
Qed.

(** When every deposit up to the cap fails, the solver returns the cap. *)
Lemma solveRequiredDeposit_all_fail sb scb sncb sd smi e es params :
  (forall d, 0 < d <= maxDepositCap ->
             lookaheadFails sb scb sncb sd smi e es params d = true) ->
  solveRequiredDeposit sb scb sncb sd smi (e :: es) params = maxDepositCap.
Proof.
  intros Hall. unfold solveRequiredDeposit.
  rewrite bisect_all_fail; [|exact Hall | unfold maxDepositCap; lra].
  unfold maxDepositCap. rewrite (Math_ceil_unique _ 100000); lra.
Qed.

(** C1 (as amended).  With no goals the solver returns 0.  With goals, the
    look-ahead simulation at a deposit runs from the start month through the
    largest month offset of the goals, inclusive, with every goal in the bucket
    of its month.  The solver returns [ceil(r / 10) * 10], the least multiple
    of 10 that is at least [r], where [r] is the upper end left by 20 halvings
    of [0, 1_000_000]: [r] lies in [1_000_000 / 2^20, 1_000_000]; [r] is the
    cap itself or a probed deposit at which the look-ahead simulation does not
    fail; and [r - 1_000_000 / 2^20] is 0 or a probed deposit at which it fails.  When
    failure is monotone in the deposit and the cap does not fail, [r] does not
    fail and every non-negative deposit that does not fail is at least
    [r - 1_000_000 / 2^20]: the result exceeds the minimal sufficient deposit by
    less than [1_000_000 / 2^20 + 10]. *)
Theorem solver_bisection_result sb scb sncb sd smi
    (e : SavingsEvent) (es : list SavingsEvent) (params : FinancialParams) :
  let fails := lookaheadFails sb scb sncb sd smi e es params in
  let w := maxDepositCap / 2 ^ 20 in
  let d := solveRequiredDeposit sb scb sncb sd smi (e :: es) params in
  solveRequiredDeposit sb scb sncb sd smi [] params = 0 /\
  (forall x,
     fails x =
     Period.failed
       (runSimulationPeriod sb scb sncb sd smi
          (lastEventMonthOf e es - smi + 1) x params (groupByMonth (e :: es)))) /\
  (In (lastEventMonthOf e es) (map monthOffset (e :: es)) /\
   forall g, In g (e :: es) -> (monthOffset g <= lastEventMonthOf e es)%Z) /\
  (forall k,
     Map_get (groupByMonth (e :: es)) k =
     match eventsDue k (e :: es) with [] => None | due => Some due end) /\
  exists r,
    d = Math_ceil (r / 10) * 10 /\
    w <= r <= maxDepositCap /\
    (r = maxDepositCap \/ fails r = false) /\
    (r - w = 0 \/ fails (r - w) = true) /\
    r <= d < r + 10 /\
    (exists k : Z, d = 10 * IZR k) /\
    ((forall x y, x <= y -> fails x = false -> fails y = false) ->
     fails maxDepositCap = false ->
     fails r = false /\
     (forall x, 0 <= x -> fails x = false -> r - w <= x /\ d < x + w + 10)).
Proof.
  cbv zeta. split; [reflexivity|]. split; [reflexivity|].
  split.
  { destruct (fold_left_max_spec (map monthOffset es) (monthOffset e))
      as [Hin [Hle Hall]].
    fold (lastEventMonthOf e es) in Hin, Hle, Hall. split.
    - destruct Hin as [->|Hin]; [left; reflexivity | right; exact Hin].
    - intros g [<-|Hg]; [exact Hle | apply Hall, in_map, Hg]. }
  split; [intros k; apply groupByMonth_get|].
  set (fails := lookaheadFails sb scb sncb sd smi e es params).
  assert (Hcap : 0 <= maxDepositCap) by (unfold maxDepositCap; lra).
  destruct (bisect_spec fails 20 0 maxDepositCap Hcap) as [Hb [Hr Hl]].
  rewrite Rminus_0_r in Hb, Hl. rewrite Rplus_0_l in Hb.
  exists (bisect fails 20 0 maxDepositCap maxDepositCap).
  set (r := bisect fails 20 0 maxDepositCap maxDepositCap) in *.
  destruct (roundUp10_spec r) as [Hd Hk].
  split; [reflexivity|]. split; [exact Hb|]. split; [exact Hr|].
  split; [exact Hl|]. split; [exact Hd|]. split; [exact Hk|].
  intros Hmono Hpass.
  assert (Hfr : fails r = false) by (destruct Hr as [->|Hr]; assumption).
  split; [exact Hfr|]. intros x Hx Hfx.
  assert (Hrx : r - maxDepositCap / 2 ^ 20 <= x).
  { destruct Hl as [Hl|Hl]; [lra|].
    destruct (Rle_dec (r - maxDepositCap / 2 ^ 20) x) as [Hle|Hgt]; [assumption|].
    rewrite (Hmono x (r - maxDepositCap / 2 ^ 20)) in Hl; [discriminate | lra | assumption]. }
  split; [exact Hrx|].
  change (solveRequiredDeposit sb scb sncb sd smi (e :: es) params)
    with (Math_ceil (r / 10) * 10).
  lra.
Qed.

(** C8 (as amended).  For a single goal at a fixed month and with everything
    else fixed, raising a non-negative target amount never lowers the deposit
    the solver returns. *)
Theorem required_deposit_monotone_in_target sb scb sncb sd smi
    (params : FinancialParams) (e1 e2 : SavingsEvent) :
  monthOffset e1 = monthOffset e2 ->
  0 <= targetAmount e1 <= targetAmount e2 ->
  solveRequiredDeposit sb scb sncb sd smi [e1] params <=
  solveRequiredDeposit sb scb sncb sd smi [e2] params.
Proof.
  intros Hm HT. unfold solveRequiredDeposit.
  apply Rmult_le_compat_r; [lra|]. apply Math_ceil_monotone.
  apply Rmult_le_compat_r; [lra|].
  apply bisect_monotone; [|unfold maxDepositCap; lra].
  intros d. apply lookaheadFails_monotone_in_target; assumption.
Qed.

End Solver.

(** C8 (amended) at work: from an empty account, a goal at month 12 raised
    from 5000 to 10000. *)
Lemma required_deposit_monotone_in_target_witness :
  let params := sampleParams 7 2 25 0 in
  let solve e :=
    solveRequiredDeposit (host := monthCountHost) 0 0 0 0%Z 0 [e] params in
  monthOffset (goal 12 5000) = monthOffset (goal 12 10000) /\
  0 <= targetAmount (goal 12 5000) <= targetAmount (goal 12 10000) /\
  solve (goal 12 5000) <= solve (goal 12 10000).
Proof.
  cbv zeta.
  assert (HT : 0 <= targetAmount (goal 12 5000) <= targetAmount (goal 12 10000))
    by (simpl; lra).
  split; [reflexivity|]. split; [exact HT|].
  exact (required_deposit_monotone_in_target (host := monthCountHost) 0 0 0 0%Z 0
           (sampleParams 7 2 25 0) (goal 12 5000) (goal 12 10000) eq_refl HT).
Defined.

(** C1 as stated fails when the goal is already funded: from a balance of 1000
    a goal of 100 in month 0 needs no deposit (the look-ahead simulation does
    not fail at deposit 0), yet the solver returns 10: its first probe is
    500000 and halving never reaches 0. *)
Lemma solver_overshoots_funded_goal :
  let params := sampleParams 0 0 0 0 in
  let fails :=
    lookaheadFails (host := monthCountHost) 1000 1000 1000 0%Z 0 (goal 0 100) [] params in
  let d :=
    solveRequiredDeposit (host := monthCountHost) 1000 1000 1000 0%Z 0 [goal 0 100] params in
  fails 0 = false /\ d = 10 /\
  ~ (forall x, 0 <= x <= maxDepositCap -> fails x = false -> d <= x).
Proof.
  cbv zeta.
  assert (Hpass : forall x, 0 <= x ->
            lookaheadFails (host := monthCountHost) 1000 1000 1000 0%Z 0
              (goal 0 100) [] (sampleParams 0 0 0 0) x = false).
  { intros x Hx. rewrite lookaheadFails_month0. cbv zeta.
    rewrite grossNeeded_zero_tax.
    replace (Rltb (1000 + x - 100) (-1)) with false by (symmetry; cmp_false).
    replace (Rleb (1000 + x) 0) with false by (symmetry; cmp_false).
    reflexivity. }
  assert (Hd : solveRequiredDeposit (host := monthCountHost) 1000 1000 1000 0%Z 0
                 [goal 0 100] (sampleParams 0 0 0 0) = 10).
  { apply solveRequiredDeposit_all_pass. intros x Hx. apply Hpass. lra. }
  split; [apply Hpass; lra|]. split; [exact Hd|].
  intros Hmin. specialize (Hmin 0). rewrite Hd in Hmin.
  assert (10 <= 0); [|lra].
  apply Hmin; [unfold maxDepositCap; lra | apply Hpass; lra].
Qed.

(** The amended C1 on the funded goal: failure is monotone in the deposit
    there, the cap does not fail, and the result 10 is within
    [1_000_000 / 2^20 + 10] of every sufficient deposit, 0 included. *)
Lemma solver_bisection_result_witness :
  let params := sampleParams 0 0 0 0 in
  let fails :=
    lookaheadFails (host := monthCountHost) 1000 1000 1000 0%Z 0 (goal 0 100) [] params in
  let d :=
    solveRequiredDeposit (host := monthCountHost) 1000 1000 1000 0%Z 0 [goal 0 100] params in
  (forall x y, x <= y -> fails x = false -> fails y = false) /\
  fails maxDepositCap = false /\
  (forall x, 0 <= x -> fails x = false -> d < x + maxDepositCap / 2 ^ 20 + 10).
Proof.
  cbv zeta.
  assert (Hmono : forall x y, x <= y ->
            lookaheadFails (host := monthCountHost) 1000 1000 1000 0%Z 0
              (goal 0 100) [] (sampleParams 0 0 0 0) x = false ->
            lookaheadFails (host := monthCountHost) 1000 1000 1000 0%Z 0
              (goal 0 100) [] (sampleParams 0 0 0 0) y = false).
  { intros x y Hxy. rewrite !lookaheadFails_month0. cbv zeta.
    rewrite !grossNeeded_zero_tax.
    cmp_destruct; simpl; intros Hf; try reflexivity; try discriminate; lra. }
  assert (Hcap : lookaheadFails (host := monthCountHost) 1000 1000 1000 0%Z 0
                   (goal 0 100) [] (sampleParams 0 0 0 0) maxDepositCap = false).
  { rewrite lookaheadFails_month0. cbv zeta. rewrite grossNeeded_zero_tax.
    unfold maxDepositCap.
    replace (Rltb (1000 + 1000000 - 100) (-1)) with false by (symmetry; cmp_false).
    replace (Rleb (1000 + 1000000) 0) with false by (symmetry; cmp_false).
    reflexivity. }
  split; [exact Hmono|]. split; [exact Hcap|].
  destruct (solver_bisection_result (host := monthCountHost) 1000 1000 1000 0%Z 0
              (goal 0 100) [] (sampleParams 0 0 0 0))
    as [_ [_ [_ [_ [r [Hd [_ [_ [_ [_ [_ Hmin]]]]]]]]]]].
  cbv zeta in Hmin. destruct (Hmin Hmono Hcap) as [_ Hall].
  intros x Hx Hfx. exact (proj2 (Hall x Hx Hfx)).
Defined.

(** The profit ratio of an account of 1000000 with no cost basis, after a
    deposit of at most 1000000, is between 1/2 and 1. *)
Lemma profitRatio_half d :
  0 < d <= 1000000 -> 1 / 2 <= profitRatio (0 + d) (1000000 + d) <= 1.
Proof.
  intros Hd. unfold profitRatio, Math_max.
  replace (Rgtb (1000000 + d) 0) with true by (symmetry; cmp_true).
  assert (HB : 0 < 1000000 + d) by lra.
  pose proof (Rinv_0_lt_compat _ HB) as Hi.
  assert (Hone : (1000000 + d) * / (1000000 + d) = 1) by (apply Rinv_r; lra).
  unfold Rdiv. set (i := / (1000000 + d)) in *.
  assert (Hy : 0 <= (0 + d) * i <= 1 / 2) by nra.
  replace (Rleb 0 (1 - (0 + d) * i)) with true by (symmetry; cmp_true).
  lra.
Qed.

(** C8 as stated fails for a negative target under a tax rate above 100%:
    with a tax of 400% on an account that is mostly profit, the target
    -1000000000 fails at every deposit and the solver returns the cap, while
    the larger target 0 never fails and the solver returns 10. *)
Lemma negative_target_breaks_monotonicity :
  let params := sampleParams 0 0 400 0 in
  let solve e :=
    solveRequiredDeposit (host := monthCountHost) 1000000 0 0 0%Z 0 [e] params in
  let e1 := goal 0 (-1000000000) in
  let e2 := goal 0 0 in
  monthOffset e1 = monthOffset e2 /\
  targetAmount e1 <= targetAmount e2 /\
  solve e1 = 1000000 /\ solve e2 = 10 /\
  ~ solve e1 <= solve e2.
Proof.
  cbv zeta.
  assert (H1 : solveRequiredDeposit (host := monthCountHost) 1000000 0 0 0%Z 0
                 [goal 0 (-1000000000)] (sampleParams 0 0 400 0) = 1000000).
  { apply solveRequiredDeposit_all_fail. unfold maxDepositCap. intros d Hd.
    rewrite lookaheadFails_month0. cbv zeta.
    pose proof (profitRatio_half d Hd) as Hrho.
    unfold grossNeeded, Rdiv.
    set (rho := profitRatio (0 + d) (1000000 + d)) in *.
    assert (Hx : 1 - rho * (400 * / 100) < 0) by lra.
    pose proof (Rinv_lt_0_compat _ Hx) as Hq.
    assert (Hone : (1 - rho * (400 * / 100)) * / (1 - rho * (400 * / 100)) = 1)
      by (apply Rinv_r; lra).
    set (q := / (1 - rho * (400 * / 100))) in *.
    assert (Hqb : q <= - (1 / 3)) by nra.
    replace (Rltb (1000000 + d - -1000000000 * q) (-1)) with true
      by (symmetry; cmp_true).
    reflexivity. }
  assert (H2 : solveRequiredDeposit (host := monthCountHost) 1000000 0 0 0%Z 0
                 [goal 0 0] (sampleParams 0 0 400 0) = 10).
  { apply solveRequiredDeposit_all_pass. intros d Hd.
    rewrite lookaheadFails_month0. cbv zeta.
    unfold grossNeeded, Rdiv. rewrite Rmult_0_l, Rminus_0_r.
    replace (Rltb (1000000 + d) (-1)) with false by (symmetry; cmp_false).
    replace (Rgtb 0 0) with false by (symmetry; cmp_false).
    rewrite andb_false_r. reflexivity. }
  split; [reflexivity|]. split; [simpl; lra|].
  split; [exact H1|]. split; [exact H2|]. rewrite H1, H2. lra.
Qed.

(* ------------------------------------------------------------------------- *)
(** ** Cost bases and balance (C3) *)


(** The withdrawal of one event: the balance drops by the gross amount, and
    both cost bases are scaled by [1 - gross / balance] when the balance
    before the withdrawal is positive, and set to 0 otherwise. *)
Lemma withdraw_bases tax mi idx a e :
  let gross :=
    grossNeeded tax (targetNetNominal mi idx e) (accCostBasis a) (balance a) in
  balance (withdraw tax mi idx a e) = balance a - gross /\
  accCostBasis (withdraw tax mi idx a e) =
    (if Rgtb (balance a) 0 then accCostBasis a * (1 - gross / balance a) else 0) /\
  nominalCostBasis (withdraw tax mi idx a e) =
    (if Rgtb (balance a) 0 then nominalCostBasis a * (1 - gross / balance a) else 0).
Proof.
  cbv zeta. unfold withdraw. cbn [balance accCostBasis nominalCostBasis].
  set (g := grossNeeded _ _ _ _).
  replace (balance a - g + g) with (balance a) by ring.
  repeat split; reflexivity.
Qed.


Section CostBases.
Context {host : Host}.




End CostBases.



Lemma inflationFactor_zero idx : inflationFactor 0 idx = 1.
Proof. unfold inflationFactor, Math_pow. rewrite Rplus_0_r. apply Rpower_one_base. Qed.

(** A month may end overdrawn within the tolerance without raising the
    failure flag: a goal of 100.5 taken from a balance of 100 whose nominal
    cost basis is 50 leaves a balance of -0.5 and a negative nominal cost basis
    above it. *)
Lemma overdraft_leaves_basis_above_balance :
  let params := sampleParams 0 0 0 0 in
  let run :=
    runSimulationPeriod (host := monthCountHost) 100 50 50 0%Z 0 1 0 params
      [(0%Z, [goal 0 (201 / 2)])] in
  Period.failed run = false /\
  Period.finalBalance run = - (1 / 2) /\
  Period.finalNominalCostBasis run < 0 /\
  ~ Period.finalNominalCostBasis run <= Period.finalBalance run.
Proof.
  cbv zeta. unfold runSimulationPeriod.
  change (Z.to_nat 1) with 1%nat.
  cbn [monthLoop monthStep Period.finalNominalCostBasis Period.finalBalance
       Period.failed simNominalCostBasis simBalance simFailed simCostBasis
       handleEvents Map_get Z.add Z.eqb fold_left afterGrowth sampleParams
       annualReturn annualInflation capitalGainsTax].
  rewrite getMonthlyRate_zero.
  set (a0 := afterGrowth 0 0 0 _).
  set (a1 := withdraw (0 / 100) 0 0 a0 (goal 0 (201 / 2))).
  destruct (withdraw_bases (0 / 100) 0 0 a0 (goal 0 (201 / 2))) as [Hbal [_ Hncb]].
  fold a1 in Hbal, Hncb. cbv zeta in Hbal, Hncb.
  rewrite grossNeeded_zero_tax in Hbal, Hncb.
  unfold targetNetNominal in Hbal, Hncb.
  rewrite inflationFactor_zero in Hbal, Hncb.
  unfold a0, afterGrowth in Hbal, Hncb.
  cbn [balance nominalCostBasis goal targetAmount simBalance simNominalCostBasis]
    in Hbal, Hncb.
  replace (Rgtb ((100 + 0) * (1 + 0)) 0) with true in Hncb by (symmetry; cmp_true).
  assert (Hb : balance a1 = - (1 / 2)) by (rewrite Hbal; lra).
  assert (Hn : nominalCostBasis a1 = - (1 / 4)) by (rewrite Hncb; field).
  assert (Hf : accFailed a1 = false).
  { unfold a1, withdraw, a0, afterGrowth. cbn [accFailed balance simBalance simFailed].
    replace (Rleb ((100 + 0) * (1 + 0)) 0) with false; [reflexivity|].
    symmetry. cmp_false. }
  rewrite Hb, Hn, Hf.
  replace (Rltb (- (1 / 2)) (-1)) with false by (symmetry; cmp_false).
  split; [reflexivity|]. split; [reflexivity|]. split; lra.
Qed.

(* ------------------------------------------------------------------------- *)
(** ** The caller's objects are left alone (C10) *)

Import Heap.

Lemma replaceNth_length {A} n (v : A) l :
  List.length (replaceNth n v l) = List.length l.
Proof.
  revert n; induction l as [|x l IH]; intros [|n]; simpl; try reflexivity.
  rewrite IH. reflexivity.
Qed.

Lemma replaceNth_same {A} n (v d : A) l :
  (n < List.length l)%nat -> nth n (replaceNth n v l) d = v.
Proof.
  revert n; induction l as [|x l IH]; intros [|n] Hn; simpl in *; try lia.
  - reflexivity.
  - apply IH. lia.
Qed.

Lemma replaceNth_other {A} n i (v d : A) l :
  n <> i -> nth i (replaceNth n v l) d = nth i l d.
Proof.
  revert n i; induction l as [|x l IH]; intros [|n] [|i] Hni; simpl;
    try reflexivity; try congruence.
  apply IH. congruence.
Qed.

Lemma readArray_alloc_old v s r :
  (r < List.length (arrays s))%nat -> readArray (snd (alloc v s)) r = readArray s r.
Proof. intros Hr. unfold readArray, alloc; simpl. apply app_nth1, Hr. Qed.

Lemma readArray_alloc_new v s : readArray (snd (alloc v s)) (fst (alloc v s)) = v.
Proof. unfold readArray, alloc; simpl. apply nth_middle. Qed.

Lemma readArray_write_same r v s :
  (r < List.length (arrays s))%nat -> readArray (writeArray r v s) r = v.
Proof. intros Hr. unfold readArray, writeArray; simpl. apply replaceNth_same, Hr. Qed.

Lemma readArray_write_other r r' v s :
  r <> r' -> readArray (writeArray r v s) r' = readArray s r'.
Proof. intros Hr. unfold readArray, writeArray; simpl. apply replaceNth_other, Hr. Qed.

Lemma frame_refl n s : frame n s s.
Proof. repeat split; auto. Qed.

Lemma frame_trans n s1 s2 s3 : frame n s1 s2 -> frame n s2 s3 -> frame n s1 s3.
Proof.
  intros [H1 [H2 H3]] [H4 [H5 H6]]. repeat split.
  - lia.
  - intros r Hr. rewrite H5, H2; auto.
  - congruence.
Qed.

Lemma frame_alloc n v s :
  (n <= List.length (arrays s))%nat -> frame n s (snd (alloc v s)).
Proof.
  intros Hn. repeat split.
  - unfold alloc; simpl. rewrite length_app. lia.
  - intros r Hr. apply readArray_alloc_old. lia.
Qed.

Lemma frame_write n r v s : (n <= r)%nat -> frame n s (writeArray r v s).
Proof.
  intros Hn. repeat split.
  - unfold writeArray; simpl. rewrite replaceNth_length. lia.
  - intros r' Hr'. apply readArray_write_other. lia.
Qed.

Lemma frame_weaken n n' s s' : (n' <= n)%nat -> frame n s s' -> frame n' s s'.
Proof.
  intros Hn [H1 [H2 H3]]. repeat split; auto. intros r Hr. apply H2. lia.
Qed.

(** *** Maps of references *)

Lemma Map_keys_resolve s m : Map_keys (resolve s m) = Map_keys m.
Proof. unfold Map_keys, resolve. rewrite map_map. reflexivity. Qed.

Lemma Map_get_resolve s m k :
  Map_get (resolve s m) k = option_map (readArray s) (Map_get m k).
Proof.
  induction m as [|[k' r] m IH]; simpl; [reflexivity|].
  destruct (k' =? k)%Z; [reflexivity | exact IH].
Qed.

Lemma Map_has_resolve s m k : Map_has (resolve s m) k = Map_has m k.
Proof. unfold Map_has. rewrite Map_get_resolve. destruct (Map_get m k); reflexivity. Qed.

Lemma resolve_Map_set s m k r :
  resolve s (Map_set m k r) = Map_set (resolve s m) k (readArray s r).
Proof.
  induction m as [|[k' r'] m IH]; simpl; [reflexivity|].
  destruct (k' =? k)%Z; simpl; [reflexivity|]. rewrite IH. reflexivity.
Qed.

Lemma resolve_ext s s' m :
  (forall kv, In kv m -> readArray s' (snd kv) = readArray s (snd kv)) ->
  resolve s' m = resolve s m.
Proof.
  intros H. unfold resolve. apply map_ext_in. intros kv Hkv. rewrite H; auto.
Qed.

Lemma Map_get_In {V} (m : JSMap V) k v : Map_get m k = Some v -> In (k, v) m.
Proof.
  induction m as [|[k' v'] m IH]; simpl; [discriminate|].
  destruct (k' =? k)%Z eqn:Hk.
  - apply Z.eqb_eq in Hk. intros [= ->]. left. subst. reflexivity.
  - intros H. right. apply IH, H.
Qed.

(** Writing to the array a key is bound to updates that binding and no
    other, because no two keys share an array. *)
Lemma resolve_write s m k r v :
  NoDup (map snd m) -> refsWithin 0 (List.length (arrays s)) m ->
  Map_get m k = Some r ->
  resolve (writeArray r v s) m = Map_set (resolve s m) k v.
Proof.
  induction m as [|[k' r'] m IH]; intros Hnd Hin Hget; simpl in *; [discriminate|].
  inversion Hnd as [|? ? Hnotin Hnd']; subst.
  inversion Hin as [|? ? Hr' Hin']; subst. simpl in Hr'.
  destruct (k' =? k)%Z eqn:Hk.
  - injection Hget as ->. apply Z.eqb_eq in Hk. subst k'.
    rewrite readArray_write_same by lia. f_equal.
    apply resolve_ext. intros kv Hkv. apply readArray_write_other.
    intros ->. apply Hnotin. apply in_map, Hkv.
  - assert (Hne : r <> r').
    { intros ->. apply Hnotin.
      apply Map_get_In in Hget. apply (in_map snd) in Hget. exact Hget. }
    rewrite readArray_write_other by exact Hne. f_equal.
    apply IH; assumption.
Qed.

Lemma Map_set_absent {V} (m : JSMap V) k v :
  Map_has m k = false -> Map_set m k v = m ++ [(k, v)].
Proof.
  unfold Map_has. induction m as [|[k' v'] m IH]; simpl; [reflexivity|].
  destruct (k' =? k)%Z; [discriminate|]. intros H. rewrite IH by exact H. reflexivity.
Qed.

Lemma refsWithin_weaken lo hi lo' hi' m :
  (lo' <= lo)%nat -> (hi <= hi')%nat -> refsWithin lo hi m -> refsWithin lo' hi' m.
Proof.
  intros Hlo Hhi H. eapply Forall_impl; [|exact H]. intros kv Hkv; cbv beta in *. lia.
Qed.

Lemma alloc_length v s :
  List.length (arrays (snd (alloc v s))) = S (List.length (arrays s)).
Proof. unfold alloc; simpl. rewrite length_app. simpl. lia. Qed.

Lemma groupPushOn_inv b s0 m s M e :
  (b <= List.length (arrays s0))%nat ->
  groupInv b s0 (m, s) M -> groupInv b s0 (groupPushOn (m, s) e) (groupPush M e).
Proof.
  intros Hb [Hframe [Hrefs [Hnd HM]]]. simpl in Hframe, Hrefs, Hnd, HM.
  assert (Hlen : (b <= List.length (arrays s))%nat) by (destruct Hframe; lia).
  unfold groupPushOn, groupPush. rewrite <- HM, Map_has_resolve.
  destruct (Map_has m (monthOffset e)) eqn:Hhas.
  - rewrite Map_get_resolve. unfold Map_has in Hhas.
    destruct (Map_get m (monthOffset e)) as [r|] eqn:Hget; [|discriminate].
    cbn [option_map].
    assert (Hr : (b <= r < List.length (arrays s))%nat).
    { apply Map_get_In in Hget. unfold refsWithin in Hrefs.
      rewrite Forall_forall in Hrefs. exact (Hrefs _ Hget). }
    unfold groupInv; cbn [fst snd]. split; [|split; [|split]].
    + eapply frame_trans; [exact Hframe|]. apply frame_write. lia.
    + unfold writeArray; cbn [arrays]. rewrite replaceNth_length. exact Hrefs.
    + exact Hnd.
    + apply resolve_write; [exact Hnd | | exact Hget].
      eapply refsWithin_weaken; [| |exact Hrefs]; lia.
  - change (alloc [] s) with (List.length (arrays s), snd (alloc [] s)).
    cbv iota beta.
    set (r := List.length (arrays s)). set (s1 := snd (alloc [] s)).
    rewrite !Map_get_set, Z.eqb_refl.
    assert (Hs1 : resolve s1 m = resolve s m).
    { apply resolve_ext. intros kv Hkv. apply readArray_alloc_old.
      unfold refsWithin in Hrefs. rewrite Forall_forall in Hrefs.
      specialize (Hrefs _ Hkv). unfold ref in *. lia. }
    assert (Hnew : readArray s1 r = []) by apply readArray_alloc_new.
    assert (Hrefs1 : refsWithin b (List.length (arrays s1)) (Map_set m (monthOffset e) r)).
    { unfold s1. rewrite alloc_length, Map_set_absent by exact Hhas.
      apply Forall_app; split.
      - eapply refsWithin_weaken; [| |exact Hrefs]; lia.
      - constructor; [|constructor]. cbn [snd]. unfold r. lia. }
    assert (Hnd1 : NoDup (map snd (Map_set m (monthOffset e) r))).
    { rewrite Map_set_absent by exact Hhas. rewrite map_app. cbn [map snd].
      apply NoDup_app; [exact Hnd | constructor; [intros [] | constructor] |].
      intros x Hx [Hx'|[]]. subst x. apply in_map_iff in Hx.
      destruct Hx as [kv [Hsnd Hkv]].
      unfold refsWithin in Hrefs. rewrite Forall_forall in Hrefs.
      specialize (Hrefs _ Hkv). unfold r, ref in *. lia. }
    unfold groupInv; cbn [fst snd]. split; [|split; [|split]].
    + eapply frame_trans; [exact Hframe|].
      eapply frame_trans; [apply frame_alloc; exact Hlen|].
      apply frame_write. unfold r. exact Hlen.
    + unfold writeArray; cbn [arrays]. rewrite replaceNth_length. exact Hrefs1.
    + exact Hnd1.
    + rewrite (resolve_write s1 _ (monthOffset e) r).
      * rewrite resolve_Map_set, Hs1, Hnew. reflexivity.
      * exact Hnd1.
      * eapply refsWithin_weaken; [| |exact Hrefs1]; lia.
      * rewrite Map_get_set, Z.eqb_refl. reflexivity.
Qed.

Lemma groupFoldOn_inv b s0 l : forall ms M,
  (b <= List.length (arrays s0))%nat ->
  groupInv b s0 ms M ->
  groupInv b s0 (fold_left groupPushOn l ms) (fold_left groupPush l M).
Proof.
  induction l as [|e l IH]; intros [m s] M Hb Hinv; [exact Hinv|].
  cbn [fold_left]. apply IH; [exact Hb|]. apply groupPushOn_inv; assumption.
Qed.

Lemma alloc_eta v s : alloc v s = (List.length (arrays s), snd (alloc v s)).
Proof. reflexivity. Qed.

Section Frame.
Context {host : Host}.

(** One pass of the segment loop on the store computes what [segmentStep]
    computes on the contents, and only allocates. *)
Lemma segmentStepOn_spec params sd sortedRef ebm s3 st s m :
  frame (List.length (arrays s3)) s3 s ->
  refsWithin 0 (List.length (arrays s3)) ebm ->
  (sortedRef < List.length (arrays s3))%nat ->
  fst (segmentStepOn params sd sortedRef ebm (st, s) m) =
    segmentStep params sd (readArray s3 sortedRef) (resolve s3 ebm) st m /\
  frame (List.length (arrays s3)) s3 (snd (segmentStepOn params sd sortedRef ebm (st, s) m)).
Proof.
  intros Hframe Hrefs Hsorted.
  destruct Hframe as [Hlen [Hsame Hpar]].
  assert (Hf : frame (List.length (arrays s3)) s3 s) by (repeat split; assumption).
  unfold segmentStepOn. rewrite (alloc_eta _ s). cbv iota beta.
  rewrite (Hsame sortedRef Hsorted).
  set (remaining := filter (fun e => (currentMonth st <=? monthOffset e)%Z)
                      (readArray s3 sortedRef)).
  assert (Hrem : readArray (snd (alloc remaining s)) (List.length (arrays s)) = remaining)
    by apply (readArray_alloc_new remaining s).
  rewrite Hrem.
  assert (Hf1 : frame (List.length (arrays s3)) s3 (snd (alloc remaining s))).
  { eapply frame_trans; [exact Hf|]. apply frame_alloc. exact Hlen. }
  set (s1 := snd (alloc remaining s)) in *.
  unfold segmentStep, segmentDeposit, segmentRun. fold remaining.
  rewrite Map_get_resolve.
  destruct (Map_get ebm m) as [r|] eqn:Hget; cbn [option_map].
  - cbv iota beta. cbn [fst snd]. split; [|exact Hf1].
    assert (Hr : readArray s1 r = readArray s3 r).
    { destruct Hf1 as [_ [H _]]. apply H.
      apply Map_get_In in Hget. unfold refsWithin in Hrefs.
      rewrite Forall_forall in Hrefs. specialize (Hrefs _ Hget).
      unfold ref in *. cbn [snd] in Hrefs. lia. }
    unfold resolve. cbn [Map_set map fst snd]. rewrite Hr. reflexivity.
  - rewrite (alloc_eta _ s1). cbv iota beta. cbn [fst snd]. split.
    + unfold resolve. cbn [Map_set map fst snd].
      assert (Hnew : readArray (snd (alloc [] s1)) (List.length (arrays s1)) = [])
        by apply (readArray_alloc_new [] s1).
      rewrite Hnew. reflexivity.
    + eapply frame_trans; [exact Hf1|]. apply frame_alloc.
      destruct Hf1 as [H _]. exact H.
Qed.

Lemma segmentFoldOn_spec params sd sortedRef ebm s3 ms : forall st s,
  frame (List.length (arrays s3)) s3 s ->
  refsWithin 0 (List.length (arrays s3)) ebm ->
  (sortedRef < List.length (arrays s3))%nat ->
  fst (fold_left (segmentStepOn params sd sortedRef ebm) ms (st, s)) =
    fold_left (segmentStep params sd (readArray s3 sortedRef) (resolve s3 ebm)) ms st /\
  frame (List.length (arrays s3)) s3
    (snd (fold_left (segmentStepOn params sd sortedRef ebm) ms (st, s))).
Proof.
  induction ms as [|m ms IH]; intros st s Hframe Hrefs Hsorted.
  - split; [reflexivity | exact Hframe].
  - cbn [fold_left].
    destruct (segmentStepOn_spec params sd sortedRef ebm s3 st s m Hframe Hrefs Hsorted)
      as [Hst Hfr].
    destruct (segmentStepOn params sd sortedRef ebm (st, s) m) as [st' s'].
    cbn [fst snd] in Hst, Hfr. rewrite <- Hst. apply IH; assumption.
Qed.

(** The store version computes [calculateSavingsPlan] of the contents of the
    caller's objects, and leaves every object that existed before the call as
    it was. *)
Lemma calculateSavingsPlanOn_spec paramsRef eventsRef s :
  fst (calculateSavingsPlanOn paramsRef eventsRef s) =
    calculateSavingsPlan (readParams s paramsRef) (readArray s eventsRef) /\
  frame (List.length (arrays s)) s (snd (calculateSavingsPlanOn paramsRef eventsRef s)).
Proof.
  unfold calculateSavingsPlanOn. rewrite (alloc_eta _ s). cbv iota beta.
  set (events := readArray s eventsRef).
  set (params := readParams s paramsRef).
  set (sortedRef := List.length (arrays s)).
  assert (Hcopy : readArray (snd (alloc events s)) sortedRef = events)
    by apply (readArray_alloc_new events s).
  rewrite Hcopy.
  assert (Hlen1 : List.length (arrays (snd (alloc events s))) = S sortedRef)
    by apply alloc_length.
  set (s1 := snd (alloc events s)) in *.
  unfold calculateSavingsPlan.
  remember (sortBy monthOffset events) as sorted eqn:Hdef.
  set (s2 := writeArray sortedRef sorted s1).
  assert (Hsorted : readArray s2 sortedRef = sorted).
  { apply readArray_write_same. unfold ref in *. lia. }
  assert (Hlen2 : List.length (arrays s2) = S sortedRef).
  { unfold s2, writeArray. cbn [arrays]. rewrite replaceNth_length. exact Hlen1. }
  assert (Hf2 : frame sortedRef s s2).
  { eapply frame_trans; [apply frame_alloc; apply Nat.le_refl|].
    apply frame_write. apply Nat.le_refl. }
  rewrite Hsorted.
  assert (Hg0 : groupInv (List.length (arrays s2)) s2 ([], s2) []).
  { unfold groupInv; cbn [fst snd]. repeat split; try constructor; auto. }
  pose proof (groupFoldOn_inv (List.length (arrays s2)) s2 sorted ([], s2) []
                (Nat.le_refl _) Hg0) as [Hf3 [Hrefs3 [_ Hres3]]].
  fold (groupByMonth sorted) in Hres3.
  destruct sorted as [|e0 sorted']; [split; [reflexivity | exact Hf2]|].
  destruct (fold_left groupPushOn (e0 :: sorted') ([], s2)) as [ebm s3].
  cbn [fst snd] in Hf3, Hrefs3, Hres3.
  assert (Hlen3 : (S sortedRef <= List.length (arrays s3))%nat)
    by (destruct Hf3 as [H _]; lia).
  assert (Hsorted3 : readArray s3 sortedRef = e0 :: sorted').
  { destruct Hf3 as [_ [H _]]. rewrite H; [exact Hsorted | lia]. }
  destruct (segmentFoldOn_spec params (newDate (startDate params)) sortedRef ebm s3
              (sortBy (fun k => k) (Map_keys ebm)) (initialPlanState params) s3)
    as [Hst Hf4].
  { apply frame_refl. }
  { eapply refsWithin_weaken; [| |exact Hrefs3]; lia. }
  { unfold ref in *. lia. }
  destruct (fold_left (segmentStepOn params (newDate (startDate params)) sortedRef ebm)
              (sortBy (fun k => k) (Map_keys ebm)) (initialPlanState params, s3))
    as [st s4].
  cbn [fst snd] in Hst, Hf4 |- *.
  rewrite Hsorted3, Hres3 in Hst.
  rewrite <- (Map_keys_resolve s3 ebm), Hres3, Hdef in Hst.
  change (fold_left _ _ (initialPlanState params)) with (planLoop params events) in Hst.
  split.
  - rewrite Hst. reflexivity.
  - eapply frame_trans; [exact Hf2|].
    eapply frame_trans.
    + eapply frame_weaken; [|exact Hf3]. lia.
    + eapply frame_weaken; [|exact Hf4]. unfold ref in *. lia.
Qed.

(** C10.  A call of [calculateSavingsPlan] leaves the caller's objects as they
    were: every array that existed before the call, the caller's [events] array
    among them, has the same length and the same elements in the same order
    afterwards, and the parameter objects are unchanged; the result is the one
    computed from the contents of these objects.  The engine sorts a copy and
    only reads the parameters. *)
Theorem inputs_unchanged (paramsRef eventsRef : ref) (s : Store) :
  let result := fst (calculateSavingsPlanOn paramsRef eventsRef s) in
  let s' := snd (calculateSavingsPlanOn paramsRef eventsRef s) in
  (forall r, (r < List.length (arrays s))%nat -> readArray s' r = readArray s r) /\
  paramObjects s' = paramObjects s /\
  readParams s' paramsRef = readParams s paramsRef /\
  result = calculateSavingsPlan (readParams s paramsRef) (readArray s eventsRef).
Proof.
  cbv zeta.
  destruct (calculateSavingsPlanOn_spec paramsRef eventsRef s) as [Hres [_ [Hsame Hpar]]].
  split; [exact Hsame|]. split; [exact Hpar|]. split; [|exact Hres].
  unfold readParams. rewrite Hpar. reflexivity.
Qed.

End Frame.

(** The caller's array keeps its order although the plan is computed from the
    sorted goals. *)
Example caller_array_keeps_its_order :
  let s := {| arrays := [[goal 24 20000; goal 12 5000]];
              paramObjects := [sampleParams 7 2 25 0] |} in
  readArray (snd (calculateSavingsPlanOn (host := monthCountHost) 0%nat 0%nat s)) 0%nat =
  [goal 24 20000; goal 12 5000].
Proof.
  cbv zeta.
  destruct (calculateSavingsPlanOn_spec (host := monthCountHost) 0%nat 0%nat
              {| arrays := [[goal 24 20000; goal 12 5000]];
                 paramObjects := [sampleParams 7 2 25 0] |}) as [_ [_ [H _]]].
  rewrite H; [reflexivity | simpl; lia].
Qed.

(** Sorting the caller's array itself, without the copy, would reorder it. *)
Example in_place_sort_reorders :
  let s := {| arrays := [[goal 24 20000; goal 12 5000]];
              paramObjects := [sampleParams 7 2 25 0] |} in
  readArray (writeArray 0%nat (sortBy monthOffset (readArray s 0%nat)) s) 0%nat =
  [goal 12 5000; goal 24 20000].
Proof. reflexivity. Qed.

(* ------------------------------------------------------------------------- *)
(** * Further properties *)

(** ** The range of the solver and of the deposits *)

Lemma tenTimes_weaken lo hi lo' hi' d :
  (lo' <= lo)%Z -> (hi <= hi')%Z -> tenTimes lo hi d -> tenTimes lo' hi' d.
Proof. intros Hlo Hhi [k [Hd Hk]]. exists k. split; [exact Hd | lia]. Qed.

Lemma tenTimes_bounds lo hi d : tenTimes lo hi d -> 10 * IZR lo <= d <= 10 * IZR hi.
Proof.
  intros [k [-> [H1 H2]]]. apply IZR_le in H1. apply IZR_le in H2. lra.
Qed.

Lemma roundUp10_tenTimes r :
  maxDepositCap / 2 ^ 20 <= r <= maxDepositCap ->
  tenTimes 1 100000 (Math_ceil (r / 10) * 10).
Proof.
  rewrite cap_width. unfold maxDepositCap. intros Hr.
  destruct (Math_ceil_spec (r / 10)) as [k [-> Hk]].
  exists k. split; [lra|].
  assert (H1 : (0 < k)%Z) by (apply lt_IZR; lra).
  assert (H2 : (k - 1 < 100000)%Z) by (apply lt_IZR; rewrite minus_IZR; lra).
  lia.
Qed.

Section Ranges.
Context {host : Host}.

Lemma solveRequiredDeposit_nonempty_range sb scb sncb sd smi e es params :
  tenTimes 1 100000 (solveRequiredDeposit sb scb sncb sd smi (e :: es) params).
Proof.
  unfold solveRequiredDeposit. apply roundUp10_tenTimes.
  assert (Hcap : 0 <= maxDepositCap) by (unfold maxDepositCap; lra).
  destruct (bisect_spec (lookaheadFails sb scb sncb sd smi e es params) 20 0
              maxDepositCap Hcap) as [Hb _].
  rewrite Rminus_0_r, Rplus_0_l in Hb. exact Hb.
Qed.

(** X1.  [solveRequiredDeposit] returns 0 exactly for an empty goal list;
    for every non-empty goal list, whatever the account and the parameters, it
    returns a multiple of 10 between 10 and the cap 1000000. *)
Theorem solver_result_range sb scb sncb sd smi
    (events : list SavingsEvent) (params : FinancialParams) :
  let d := solveRequiredDeposit sb scb sncb sd smi events params in
  (d = 0 <-> events = []) /\
  (events <> [] -> tenTimes 1 100000 d /\ 10 <= d <= maxDepositCap).
Proof.
  cbv zeta. destruct events as [|e es].
  - split; [split; reflexivity | intros H; contradiction].
  - pose proof (solveRequiredDeposit_nonempty_range sb scb sncb sd smi e es params) as Ht.
    pose proof (tenTimes_bounds _ _ _ Ht) as Hb. unfold maxDepositCap.
    split; [split; [intros H0; lra | discriminate]|].
    intros _. split; [exact Ht | lra].
Qed.

Lemma solveRequiredDeposit_range sb scb sncb sd smi events params :
  tenTimes 0 100000 (solveRequiredDeposit sb scb sncb sd smi events params).
Proof.
  destruct events as [|e es].
  - exists 0%Z. split; [unfold solveRequiredDeposit; lra | lia].
  - eapply tenTimes_weaken; [| |apply solveRequiredDeposit_nonempty_range]; lia.
Qed.

Lemma capDeposit_cases required ceiling :
  capDeposit required ceiling = required \/ ceiling = Some (capDeposit required ceiling).
Proof.
  unfold capDeposit. destruct ceiling as [c|]; [|left; reflexivity].
  destruct (Rgtb required c); [right | left]; reflexivity.
Qed.

Lemma segmentStep_depositsWithin lo params sd sorted st ebm m :
  depositsWithin lo st ->
  tenTimes lo 100000
    (solveRequiredDeposit (currentBalance st) (currentCostBasis st)
       (currentNominalCostBasis st) (addMonths sd (currentMonth st))
       (currentMonth st)
       (filter (fun e => (currentMonth st <=? monthOffset e)%Z) sorted) params) ->
  depositsWithin lo (segmentStep params sd sorted ebm st m).
Proof.
  intros [Hsched Hceil] Hreq.
  assert (Hact : tenTimes lo 100000 (segmentDeposit params sd sorted st)).
  { unfold segmentDeposit.
    destruct (capDeposit_cases
                (solveRequiredDeposit (currentBalance st) (currentCostBasis st)
                   (currentNominalCostBasis st) (addMonths sd (currentMonth st))
                   (currentMonth st)
                   (filter (fun e => (currentMonth st <=? monthOffset e)%Z) sorted)
                   params) (maxDepositConstraint st)) as [->|Hc].
    - exact Hreq.
    - apply Hceil. exact Hc. }
  unfold depositsWithin, segmentStep; cbn [fullSchedule maxDepositConstraint]. split.
  - apply Forall_app; split; [exact Hsched|].
    eapply Forall_impl; [|apply period_schedule_deposit].
    intros r Hr; cbv beta in Hr. rewrite Hr. exact Hact.
  - intros c [= <-]. exact Hact.
Qed.

(** An invariant of the segment loop over increasing boundaries at or after
    the current month may use both facts at every boundary. *)
Lemma planFold_invariant (I : PlanState -> Prop) params sd sorted ebm : forall ms st,
  StronglySorted Z.lt ms ->
  Forall (fun m => (currentMonth st <= m)%Z) ms ->
  (forall st' m, In m ms -> (currentMonth st' <= m)%Z -> I st' ->
                 I (segmentStep params sd sorted ebm st' m)) ->
  I st -> I (fold_left (segmentStep params sd sorted ebm) ms st).
Proof.
  induction ms as [|m ms IH]; intros st Hs Hge Hstep Hst; [exact Hst|].
  inversion Hs as [|? ? Hs' Hlt]; subst.
  inversion Hge as [|? ? Hm Hge']; subst.
  cbn [fold_left]. apply IH.
  - exact Hs'.
  - rewrite Forall_forall in Hlt. apply Forall_forall. intros k Hk.
    specialize (Hlt k Hk). unfold segmentStep; cbn [currentMonth]. lia.
  - intros st' k Hk. apply Hstep. right; exact Hk.
  - apply Hstep; [left; reflexivity | exact Hm | exact Hst].
Qed.

Lemma planLoop_depositsWithin_any params events :
  depositsWithin 0 (planLoop params events).
Proof.
  unfold planLoop. apply (fold_left_invariant (depositsWithin 0)).
  - split; [constructor | intros c; discriminate].
  - intros st m _ Hst. apply segmentStep_depositsWithin; [exact Hst|].
    apply solveRequiredDeposit_range.
Qed.

Lemma planLoop_depositsWithin_positive params events :
  (forall x, In x events -> (0 <= monthOffset x)%Z) ->
  depositsWithin 1 (planLoop params events).
Proof.
  intros Hnonneg. rewrite planLoop_unfold.
  apply (planFold_invariant (depositsWithin 1)).
  - apply eventMonthsOf_increasing.
  - apply eventMonthsOf_nonneg, Hnonneg.
  - intros st m Hm Hcur Hst. apply segmentStep_depositsWithin; [exact Hst|].
    apply eventMonthsOf_In in Hm. apply in_map_iff in Hm.
    destruct Hm as [x [Hx Hin]].
    assert (Hin' : In x (filter (fun e => (currentMonth st <=? monthOffset e)%Z)
                           (sortBy monthOffset events))).
    { apply filter_In. split.
      - apply (Permutation_in _ (sortBy_perm _ _)). exact Hin.
      - apply Z.leb_le. lia. }
    destruct (filter (fun e => (currentMonth st <=? monthOffset e)%Z)
                (sortBy monthOffset events)) as [|e es]; [destruct Hin'|].
    apply solveRequiredDeposit_nonempty_range.
  - split; [constructor | intros c; discriminate].
Qed.

(** X2.  Every month of a plan carries a deposit that is a multiple of 10 and
    at most 1000000; it is never negative, and it is at least 10 when no goal
    has a negative month offset. *)
Theorem plan_deposits_range (params : FinancialParams) (events : list SavingsEvent) :
  let sched := schedule (calculateSavingsPlan params events) in
  Forall (fun m => tenTimes 0 100000 (deposit m) /\ 0 <= deposit m <= maxDepositCap)
    sched /\
  ((forall x, In x events -> (0 <= monthOffset x)%Z) ->
   Forall (fun m => tenTimes 1 100000 (deposit m) /\ 10 <= deposit m) sched).
Proof.
  cbv zeta. unfold calculateSavingsPlan.
  destruct (sortBy monthOffset events) as [|e0 l0]; cbn [schedule].
  - split; [constructor | intros _; constructor].
  - split.
    + eapply Forall_impl; [|apply planLoop_depositsWithin_any].
      intros r Hr; cbv beta in Hr. split; [exact Hr|].
      apply tenTimes_bounds in Hr. unfold maxDepositCap. lra.
    + intros Hnonneg.
      eapply Forall_impl; [|apply (planLoop_depositsWithin_positive _ _ Hnonneg)].
      intros r Hr; cbv beta in Hr. split; [exact Hr|].
      apply tenTimes_bounds in Hr. lra.
Qed.

End Ranges.

(** ** Totals *)

Lemma fold_left_sum_shift {A} (f : A -> R) (l : list A) : forall acc,
  fold_left (fun a m => a + f m) l acc = acc + fold_left (fun a m => a + f m) l 0.
Proof.
  induction l as [|x l IH]; intros acc; simpl; [lra|].
  rewrite (IH (acc + f x)), (IH (0 + f x)). lra.
Qed.

Lemma fold_left_sum_bounds {A} (f : A -> R) (lo hi : R) (l : list A) :
  Forall (fun m => lo <= f m <= hi) l ->
  lo * INR (List.length l) <= fold_left (fun a m => a + f m) l 0
    <= hi * INR (List.length l).
Proof.
  induction 1 as [|x l Hx Hl IH].
  - simpl. lra.
  - cbn [fold_left]. rewrite fold_left_sum_shift.
    change (List.length (x :: l)) with (S (List.length l)). rewrite S_INR. lra.
Qed.

Lemma fold_left_sum_nonneg {A} (f : A -> R) (l : list A) :
  (forall m, 0 <= f m) -> 0 <= fold_left (fun a m => a + f m) l 0.
Proof.
  intros Hf. induction l as [|x l IH]; simpl; [lra|].
  rewrite fold_left_sum_shift. specialize (Hf x). lra.
Qed.

Lemma orZero_whenPositive_nonneg total : 0 <= orZero (whenPositive total total).
Proof.
  unfold whenPositive. destruct (Rgtb total 0) eqn:H; simpl; [|lra].
  apply Rgtb_true_iff in H. lra.
Qed.

Section Totals.
Context {host : Host}.

Lemma period_schedule_optional_nonneg sb scb sncb sd smi dur dep params evs :
  Forall (fun m => 0 <= orZero (withdrawalNet m) /\ 0 <= orZero (taxPaid m) /\
                   0 <= orZero (withdrawalGross m))
    (Period.schedule (runSimulationPeriod sb scb sncb sd smi dur dep params evs)).
Proof.
  apply period_schedule_Forall. intros i bs pre st.
  unfold monthRecord; cbn [withdrawalNet taxPaid withdrawalGross].
  repeat split; apply orZero_whenPositive_nonneg.
Qed.

(** X3.  The totals of a plan are never negative, whatever the parameters and
    the goals: the total deposited lies between 0 and 1000000 per month of the
    schedule (and is at least 10 per month when no month offset is negative),
    and the total net withdrawn and the total tax paid are sums of amounts that
    are recorded only when positive. *)
Theorem plan_totals_nonnegative (params : FinancialParams) (events : list SavingsEvent) :
  let r := calculateSavingsPlan params events in
  let months := INR (List.length (schedule r)) in
  0 <= totalDeposited r <= maxDepositCap * months /\
  0 <= totalWithdrawnNet r /\
  0 <= totalTaxPaid r /\
  ((forall x, In x events -> (0 <= monthOffset x)%Z) -> 10 * months <= totalDeposited r).
Proof.
  cbv zeta.
  assert (Hany : Forall (fun m => 0 <= deposit m <= maxDepositCap)
                   (schedule (calculateSavingsPlan params events))).
  { unfold calculateSavingsPlan.
    destruct (sortBy monthOffset events); cbn [schedule]; [constructor|].
    eapply Forall_impl; [|apply planLoop_depositsWithin_any].
    intros r Hr; cbv beta in Hr. apply tenTimes_bounds in Hr.
    unfold maxDepositCap. lra. }
  assert (Hpos : (forall x, In x events -> (0 <= monthOffset x)%Z) ->
                 Forall (fun m => 10 <= deposit m <= maxDepositCap)
                   (schedule (calculateSavingsPlan params events))).
  { intros Hnonneg. unfold calculateSavingsPlan.
    destruct (sortBy monthOffset events); cbn [schedule]; [constructor|].
    eapply Forall_impl; [|apply (planLoop_depositsWithin_positive _ _ Hnonneg)].
    intros r Hr; cbv beta in Hr. apply tenTimes_bounds in Hr.
    unfold maxDepositCap. lra. }
  assert (Hopt : Forall (fun m => 0 <= orZero (withdrawalNet m) /\
                                  0 <= orZero (taxPaid m) /\
                                  0 <= orZero (withdrawalGross m))
                   (schedule (calculateSavingsPlan params events))).
  { apply calculateSavingsPlan_schedule_Forall. intros.
    apply period_schedule_optional_nonneg. }
  revert Hany Hpos Hopt. unfold calculateSavingsPlan.
  destruct (sortBy monthOffset events) as [|e0 l0];
    cbn [schedule totalDeposited totalWithdrawnNet totalTaxPaid].
  - intros _ _ _. simpl. repeat split; try (intros _); lra.
  - intros Hany Hpos Hopt.
    pose proof (fold_left_sum_bounds deposit 0 maxDepositCap _ Hany) as Hd.
    rewrite Forall_forall in Hopt.
    split; [lra|]. split; [|split].
    + clear Hd Hany Hpos. induction (fullSchedule (planLoop params events)) as [|x l IH];
        [simpl; lra|].
      cbn [fold_left]. rewrite fold_left_sum_shift.
      assert (0 <= orZero (withdrawalNet x)) by (apply Hopt; left; reflexivity).
      assert (0 <= fold_left (fun acc m => acc + orZero (withdrawalNet m)) l 0)
        by (apply IH; intros m Hm; apply Hopt; right; exact Hm).
      lra.
    + clear Hd Hany Hpos. induction (fullSchedule (planLoop params events)) as [|x l IH];
        [simpl; lra|].
      cbn [fold_left]. rewrite fold_left_sum_shift.
      assert (0 <= orZero (taxPaid x)) by (apply Hopt; left; reflexivity).
      assert (0 <= fold_left (fun acc m => acc + orZero (taxPaid m)) l 0)
        by (apply IH; intros m Hm; apply Hopt; right; exact Hm).
      lra.
    + intros Hnonneg.
      pose proof (fold_left_sum_bounds deposit 10 maxDepositCap _ (Hpos Hnonneg)). lra.
Qed.

End Totals.

(** ** The schedule is one continuous account *)

Lemma chained_app b l1 mid l2 f :
  chained b l1 mid -> chained mid l2 f -> chained b (l1 ++ l2) f.
Proof.
  revert b; induction l1 as [|m l1 IH]; intros b H1 H2; simpl in *.
  - subst. exact H2.
  - destruct H1 as [Hm H1]. split; [exact Hm | apply (IH _ H1 H2)].
Qed.

Lemma last_cons_default {A} (x : A) l d : last (x :: l) d = last l x.
Proof.
  revert x d; induction l as [|y l IH]; intros x d; [reflexivity|].
  change (last (y :: l) d = last (y :: l) x). rewrite !IH. reflexivity.
Qed.

Lemma chained_facts b l f :
  chained b l f ->
  (forall m, nth_error l 0 = Some m -> balanceStart m = b) /\
  (forall i m m', nth_error l i = Some m -> nth_error l (S i) = Some m' ->
                  balanceStart m' = balanceEnd m) /\
  f = last (map balanceEnd l) b.
Proof.
  revert b; induction l as [|x l IH]; intros b H; simpl in H.
  - split; [intros m; discriminate|]. split; [intros i m m'; destruct i; discriminate|].
    simpl. symmetry. exact H.
  - destruct H as [Hx Hl]. destruct (IH _ Hl) as [Hhead [Hnext Hlast]].
    split; [intros m [= <-]; exact Hx|]. split.
    + intros [|i] m m' Hm Hm'; simpl in Hm, Hm'.
      * injection Hm as <-. apply Hhead. exact Hm'.
      * exact (Hnext i m m' Hm Hm').
    + rewrite Hlast. cbn [map]. rewrite last_cons_default. reflexivity.
Qed.

Section Continuity.
Context {host : Host}.

Lemma period_schedule_chained sb scb sncb sd smi dur dep params evs :
  let run := runSimulationPeriod sb scb sncb sd smi dur dep params evs in
  chained sb (Period.schedule run) (Period.finalBalance run).
Proof.
  cbv zeta. unfold runSimulationPeriod. cbn [Period.schedule Period.finalBalance].
  apply (monthLoop_invariant (fun st => chained sb (simSchedule st) (simBalance st))).
  - reflexivity.
  - intros j s Hs. rewrite monthStep_schedule.
    eapply chained_app; [exact Hs|]. simpl. split; reflexivity.
Qed.

Lemma planLoop_chained params events :
  chained (initialCapital params) (fullSchedule (planLoop params events))
    (currentBalance (planLoop params events)).
Proof.
  unfold planLoop.
  apply (fold_left_invariant
           (fun st => chained (initialCapital params) (fullSchedule st) (currentBalance st))).
  - reflexivity.
  - intros st m _ Hst. unfold segmentStep; cbn [fullSchedule currentBalance].
    eapply chained_app; [exact Hst|]. unfold segmentRun. apply period_schedule_chained.
Qed.

(** X4.  The schedule of a plan is one continuous account: its first month
    starts from the initial capital, every other month starts from the balance
    the month before ended with, also across the boundary between two segments,
    and the final balance of the result is the ending balance of the last month
    (the initial capital when the schedule is empty). *)
Theorem plan_schedule_continuous (params : FinancialParams) (events : list SavingsEvent) :
  let r := calculateSavingsPlan params events in
  (forall m, nth_error (schedule r) 0 = Some m -> balanceStart m = initialCapital params) /\
  (forall i m m', nth_error (schedule r) i = Some m ->
                  nth_error (schedule r) (S i) = Some m' ->
                  balanceStart m' = balanceEnd m) /\
  finalBalance r = last (map balanceEnd (schedule r)) (initialCapital params).
Proof.
  cbv zeta. apply chained_facts. unfold calculateSavingsPlan.
  destruct (sortBy monthOffset events); cbn [schedule finalBalance].
  - reflexivity.
  - apply planLoop_chained.
Qed.

End Continuity.

(** ** What a month record adds up to *)

Lemma withdraw_booksBalance tax mi idx grown a e :
  booksBalance grown a -> booksBalance grown (withdraw tax mi idx a e).
Proof.
  intros [Ht Hb]. unfold booksBalance, withdraw.
  cbn [monthTaxPaid monthWithdrawalGross monthWithdrawalNet balance].
  rewrite Ht, Hb. split; ring.
Qed.

Section Bookkeeping.
Context {host : Host}.

Lemma handleEvents_booksBalance tax mi idx evs a :
  booksBalance (balance a) a ->
  booksBalance (balance a) (handleEvents tax mi idx evs a).
Proof.
  intros Ha. unfold handleEvents.
  destruct (Map_get evs idx) as [monthEvents|]; [|exact Ha].
  apply (fold_left_invariant (booksBalance (balance a))); [exact Ha|].
  intros a' e _ Ha'. apply withdraw_booksBalance, Ha'.
Qed.

(** Every record of a segment satisfies [P] as soon as the record the month
    step builds from any state does. *)
Lemma period_schedule_Forall_exact (P : SimulationMonth -> Prop)
    sb scb sncb sd smi dur dep params evs :
  (forall i st,
      let grown :=
        afterGrowth (getMonthlyRate (annualReturn params))
          (getMonthlyRate (annualInflation params)) dep st in
      P (monthRecord sd smi i dep (simBalance st)
           (monthPreWithdrawalBalance (smi + i) evs grown)
           (handleEvents (capitalGainsTax params / 100)
              (getMonthlyRate (annualInflation params)) (smi + i) evs grown))) ->
  Forall P (Period.schedule
              (runSimulationPeriod sb scb sncb sd smi dur dep params evs)).
Proof.
  intros HP. unfold runSimulationPeriod; cbn [Period.schedule].
  apply (monthLoop_invariant (fun s => Forall P (simSchedule s))).
  - constructor.
  - intros j s Hs. rewrite monthStep_schedule.
    apply Forall_app; split; [assumption|]. constructor; [apply HP | constructor].
Qed.

Lemma period_schedule_books sb scb sncb sd smi dur dep params evs :
  Forall (fun m =>
            exists gross net,
              withdrawalGross m = whenPositive gross gross /\
              withdrawalNet m = whenPositive net net /\
              taxPaid m = whenPositive (gross - net) (gross - net) /\
              balanceEnd m =
                (balanceStart m + deposit m) * (1 + getMonthlyRate (annualReturn params))
                - gross)
    (Period.schedule (runSimulationPeriod sb scb sncb sd smi dur dep params evs)).
Proof.
  apply period_schedule_Forall_exact. intros i st. cbv zeta.
  set (grown := afterGrowth _ _ dep st).
  destruct (handleEvents_booksBalance (capitalGainsTax params / 100)
              (getMonthlyRate (annualInflation params)) (smi + i) evs grown)
    as [Ht Hb].
  { unfold booksBalance, grown, afterGrowth.
    cbn [monthTaxPaid monthWithdrawalGross monthWithdrawalNet balance]. split; ring. }
  set (a := handleEvents _ _ _ evs grown) in *.
  exists (monthWithdrawalGross a), (monthWithdrawalNet a).
  unfold monthRecord;
    cbn [withdrawalGross withdrawalNet taxPaid balanceEnd balanceStart deposit].
  rewrite <- Ht. repeat split; try reflexivity.
  rewrite Hb. unfold grown, afterGrowth. cbn [balance]. reflexivity.
Qed.

Lemma whenPositive_Some total v x : whenPositive total v = Some x -> x = v /\ 0 < total.
Proof.
  unfold whenPositive. destruct (Rgtb total 0) eqn:H; [|discriminate].
  apply Rgtb_true_iff in H. intros [= <-]. split; [reflexivity | exact H].
Qed.

Lemma whenPositive_None total v : whenPositive total v = None -> total <= 0.
Proof.
  unfold whenPositive. destruct (Rgtb total 0) eqn:H; [discriminate|].
  apply Rgtb_false_iff in H. intros _. exact H.
Qed.

Lemma books_addsUp mr m :
  (exists gross net,
      withdrawalGross m = whenPositive gross gross /\
      withdrawalNet m = whenPositive net net /\
      taxPaid m = whenPositive (gross - net) (gross - net) /\
      balanceEnd m = (balanceStart m + deposit m) * (1 + mr) - gross) ->
  addsUp mr m.
Proof.
  intros [gross [net [Hg [Hn [Ht Hb]]]]]. unfold addsUp. cbv zeta.
  rewrite Hg, Hn, Ht, Hb. split; [|split; [|split]].
  - intros g H. apply whenPositive_Some in H. destruct H as [-> H]. split; [exact H | reflexivity].
  - intros H. apply whenPositive_None in H. lra.
  - intros g n t H1 H2 H3.
    apply whenPositive_Some in H1, H2, H3.
    destruct H1 as [-> _], H2 as [-> _], H3 as [-> H3]. split; [exact H3 | reflexivity].
  - intros g n H1 H2 H3.
    apply whenPositive_Some in H1, H2. apply whenPositive_None in H3.
    destruct H1 as [-> _], H2 as [-> _]. lra.
Qed.

(** X5.  A month record with at most one goal adds up: in every segment, for
    a month whose map entry holds at most one goal, and in every plan whose
    goals are due in pairwise different months, a recorded gross withdrawal is
    positive and the ending balance is the starting balance plus the deposit,
    grown by the monthly return, minus that gross withdrawal; without a
    recorded gross withdrawal the ending balance is not below the grown
    balance; and a recorded tax is positive and equal to the recorded gross
    minus the recorded net withdrawal. *)
Theorem month_record_adds_up (params : FinancialParams) :
  (forall sb scb sncb sd smi dur dep evs,
      Forall (fun m => atMostOneGoal evs (monthIndex m) ->
                       addsUp (getMonthlyRate (annualReturn params)) m)
        (Period.schedule (runSimulationPeriod sb scb sncb sd smi dur dep params evs))) /\
  (forall events,
      NoDup (map monthOffset events) ->
      Forall (addsUp (getMonthlyRate (annualReturn params)))
        (schedule (calculateSavingsPlan params events))).
Proof.
  assert (Hperiod : forall sb scb sncb sd smi dur dep evs,
      Forall (addsUp (getMonthlyRate (annualReturn params)))
        (Period.schedule (runSimulationPeriod sb scb sncb sd smi dur dep params evs))).
  { intros. eapply Forall_impl; [|apply period_schedule_books].
    intros m Hm. apply books_addsUp, Hm. }
  split.
  - intros. eapply Forall_impl; [|apply Hperiod]. intros m Hm _. exact Hm.
  - intros events _. apply calculateSavingsPlan_schedule_Forall. exact Hperiod.
Qed.

(** X6.  A month for which the events map has no entry leaves every optional
    field of its record absent (no event, no gross, net, tax, pre-withdrawal
    balance or gains), and its ending balance is the starting balance plus the
    deposit, grown by the monthly return. *)
Theorem month_without_events (params : FinancialParams)
    sb scb sncb sd smi dur dep evs :
  Forall (fun m =>
            Map_get evs (monthIndex m) = None ->
            eventOccurred m = None /\ withdrawalGross m = None /\
            withdrawalNet m = None /\ taxPaid m = None /\
            preWithdrawalBalance m = None /\ realGain m = None /\
            nominalGain m = None /\
            balanceEnd m =
              (balanceStart m + deposit m) * (1 + getMonthlyRate (annualReturn params)))
    (Period.schedule (runSimulationPeriod sb scb sncb sd smi dur dep params evs)).
Proof.
  apply period_schedule_Forall_exact. intros i st. cbv zeta.
  unfold monthRecord, handleEvents. cbn [monthIndex]. intros Hnone. rewrite Hnone.
  unfold afterGrowth.
  cbn [eventOccurred withdrawalGross withdrawalNet taxPaid preWithdrawalBalance
       realGain nominalGain balanceEnd balanceStart deposit eventRef
       monthWithdrawalGross monthWithdrawalNet monthTaxPaid balance].
  rewrite !whenPositive_zero. repeat split; reflexivity.
Qed.

End Bookkeeping.

(** X5 at work: goals due in months 6 and 12. *)
Lemma month_record_adds_up_witness :
  NoDup (map monthOffset [goal 6 1000; goal 12 500]) /\
  Forall (addsUp (getMonthlyRate (annualReturn (sampleParams 7 2 25 0))))
    (schedule (calculateSavingsPlan (host := monthCountHost) (sampleParams 7 2 25 0)
                 [goal 6 1000; goal 12 500])).
Proof.
  assert (Hnd : NoDup (map monthOffset [goal 6 1000; goal 12 500])).
  { simpl. constructor; [intros [H|[]]; discriminate|].
    constructor; [intros []|constructor]. }
  split; [exact Hnd|].
  exact (proj2 (month_record_adds_up (host := monthCountHost) (sampleParams 7 2 25 0))
           [goal 6 1000; goal 12 500] Hnd).
Defined.

(** ** The failure flag of a segment *)

Lemma withdraw_failed_sticky tax mi idx a e :
  accFailed a = true -> accFailed (withdraw tax mi idx a e) = true.
Proof.
  intros H. unfold withdraw. cbn [accFailed]. rewrite H.
  destruct (Rleb (balance a) 0 && Rgtb _ 0); reflexivity.
Qed.

Section FailureFlag.
Context {host : Host}.

Lemma handleEvents_failed_sticky tax mi idx evs a :
  accFailed a = true -> accFailed (handleEvents tax mi idx evs a) = true.
Proof.
  intros H. unfold handleEvents.
  destruct (Map_get evs idx) as [monthEvents|]; [|exact H].
  apply (fold_left_invariant (fun a => accFailed a = true)); [exact H|].
  intros a' e _ Ha'. apply withdraw_failed_sticky, Ha'.
Qed.

Lemma monthStep_not_failed sd smi dep params evs i st :
  simFailed (monthStep sd smi dep params evs i st) = false ->
  simFailed st = false /\ -1 <= simBalance (monthStep sd smi dep params evs i st).
Proof.
  unfold monthStep. cbn [simFailed simBalance].
  set (grown := afterGrowth _ _ dep st).
  set (a := handleEvents _ _ _ evs grown).
  destruct (Rltb (balance a) (-1)) eqn:Hlt; [discriminate|].
  apply Rltb_false_iff in Hlt. intros Hacc. split; [|exact Hlt].
  destruct (simFailed st) eqn:Hst; [|reflexivity].
  assert (Hg : accFailed grown = true) by exact Hst.
  pose proof (handleEvents_failed_sticky (capitalGainsTax params / 100)
                (getMonthlyRate (annualInflation params)) (smi + i) evs grown Hg) as Hs.
  fold a in Hs. congruence.
Qed.

(** X7.  When [runSimulationPeriod] reports no failure, no month of its
    schedule ends below the tolerance -1; so a month ending below -1 always
    sets the failure flag. *)
Theorem no_failure_means_within_tolerance sb scb sncb sd smi dur dep params evs :
  let run := runSimulationPeriod sb scb sncb sd smi dur dep params evs in
  Period.failed run = false ->
  Forall (fun m => -1 <= balanceEnd m) (Period.schedule run).
Proof.
  cbv zeta. unfold runSimulationPeriod. cbn [Period.failed Period.schedule].
  apply (monthLoop_invariant
           (fun st => simFailed st = false ->
                      Forall (fun m => -1 <= balanceEnd m) (simSchedule st))).
  - intros _. constructor.
  - intros j s IH Hf. destruct (monthStep_not_failed _ _ _ _ _ _ _ Hf) as [Hs Hb].
    rewrite monthStep_schedule. apply Forall_app; split; [apply IH, Hs|].
    constructor; [exact Hb | constructor].
Qed.

End FailureFlag.

(** X7 at work: the goal of 100.5 taken from a balance of 100 ends the month
    at -0.5 without failure. *)
Lemma no_failure_means_within_tolerance_witness :
  let run :=
    runSimulationPeriod (host := monthCountHost) 100 50 50 0%Z 0 1 0
      (sampleParams 0 0 0 0) [(0%Z, [goal 0 (201 / 2)])] in
  Period.failed run = false /\
  Forall (fun m => -1 <= balanceEnd m) (Period.schedule run).
Proof.
  cbv zeta.
  pose proof (proj1 overdraft_leaves_basis_above_balance) as Hf.
  cbv zeta in Hf. split; [exact Hf|].
  exact (no_failure_means_within_tolerance (host := monthCountHost)
           100 50 50 0%Z 0 1 0 (sampleParams 0 0 0 0) [(0%Z, [goal 0 (201 / 2)])] Hf).
Defined.

(** ** Running a segment in two parts *)

Lemma withdraw_accAgree f tax mi idx a b e :
  accAgree f a b -> accAgree f (withdraw tax mi idx a e) (withdraw tax mi idx b e).
Proof.
  destruct a, b. unfold accAgree. simpl.
  intros [H1 [H2 [H3 [H4 [H5 [H6 [H7 [H8 [H9 H10]]]]]]]]]. subst.
  repeat split; try reflexivity.
  destruct (Rleb balance1 0 && Rgtb _ 0); [rewrite orb_true_r|]; reflexivity.
Qed.

Section TwoParts.
Context {host : Host}.

Lemma handleEvents_accAgree f tax mi idx evs a b :
  accAgree f a b ->
  accAgree f (handleEvents tax mi idx evs a) (handleEvents tax mi idx evs b).
Proof.
  intros H. unfold handleEvents.
  destruct (Map_get evs idx) as [monthEvents|]; [|exact H].
  revert a b H. induction monthEvents as [|e l IH]; intros a b H; [exact H|].
  cbn [fold_left]. apply IH, withdraw_accAgree, H.
Qed.

Lemma monthStep_simAgree f pre sdA sdB smi n dep params evs j a b :
  simAgree f pre a b ->
  simAgree f pre
    (monthStep sdA smi dep params evs (n + j) a)
    (monthStep sdB (smi + n) dep params evs j b).
Proof.
  intros [H1 [H2 [H3 [H4 H5]]]].
  unfold monthStep.
  replace (smi + n + j)%Z with (smi + (n + j))%Z by lia.
  set (grownA := afterGrowth _ _ dep a).
  set (grownB := afterGrowth _ _ dep b).
  assert (Hg : accAgree f grownA grownB).
  { unfold accAgree, grownA, grownB, afterGrowth. simpl.
    rewrite H1, H2, H3. repeat split; try reflexivity. exact H4. }
  pose proof (handleEvents_accAgree f (capitalGainsTax params / 100)
                (getMonthlyRate (annualInflation params)) (smi + (n + j)) evs
                grownA grownB Hg) as Ha.
  set (aA := handleEvents _ _ _ evs grownA) in *.
  set (aB := handleEvents _ _ _ evs grownB) in *.
  destruct Ha as [A1 [A2 [A3 [A4 [A5 [A6 [A7 [A8 [A9 A10]]]]]]]]].
  assert (Hpre : monthPreWithdrawalBalance (smi + (n + j)) evs grownA =
                 monthPreWithdrawalBalance (smi + (n + j)) evs grownB).
  { unfold monthPreWithdrawalBalance.
    destruct (Map_get evs (smi + (n + j))); [|reflexivity].
    destruct Hg as [Hb _]. exact Hb. }
  unfold simAgree.
  cbn [simBalance simCostBasis simNominalCostBasis simFailed simSchedule].
  split; [exact A1|]. split; [exact A2|]. split; [exact A3|]. split.
  - rewrite A1, A10. destruct (Rltb (balance aB) (-1)); [rewrite orb_true_r|]; reflexivity.
  - rewrite !map_app, H5, <- app_assoc. f_equal. cbn [map]. f_equal.
    unfold eraseDate, monthRecord. simpl.
    rewrite H1, Hpre, A1, A2, A4, A5, A6, A7, A8, A9.
    replace (smi + n + j)%Z with (smi + (n + j))%Z by lia. reflexivity.
Qed.

Lemma monthLoop_simAgree f pre sdA sdB smi n dep params evs k : forall j a b,
  simAgree f pre a b ->
  simAgree f pre
    (monthLoop (monthStep sdA smi dep params evs) k (n + j) a)
    (monthLoop (monthStep sdB (smi + n) dep params evs) k j b).
Proof.
  induction k as [|k IH]; intros j a b H; [exact H|].
  cbn [monthLoop]. replace (n + j + 1)%Z with (n + (j + 1))%Z by lia.
  apply IH, monthStep_simAgree, H.
Qed.

Lemma monthLoop_app step n k : forall i st,
  monthLoop step (n + k) i st = monthLoop step k (i + Z.of_nat n) (monthLoop step n i st).
Proof.
  induction n as [|n IH]; intros i st.
  - simpl. f_equal. lia.
  - cbn [Nat.add monthLoop]. rewrite IH. f_equal. lia.
Qed.

(** X8.  Running a segment for [n + k] months is running it for [n] months
    and then for [k] more months from the state reached, with the start month
    moved forward by [n]: the final balance and both final cost bases are the
    same, the failure flag is the disjunction of the two flags, and the
    schedule is the two schedules one after the other (up to the formatted
    dates, which are computed from different start dates). *)
Theorem run_in_two_parts sb scb sncb sd sd' smi n k dep params evs :
  (0 <= n)%Z -> (0 <= k)%Z ->
  let whole := runSimulationPeriod sb scb sncb sd smi (n + k) dep params evs in
  let first := runSimulationPeriod sb scb sncb sd smi n dep params evs in
  let second :=
    runSimulationPeriod (Period.finalBalance first) (Period.finalCostBasis first)
      (Period.finalNominalCostBasis first) sd' (smi + n) k dep params evs in
  Period.finalBalance whole = Period.finalBalance second /\
  Period.finalCostBasis whole = Period.finalCostBasis second /\
  Period.finalNominalCostBasis whole = Period.finalNominalCostBasis second /\
  Period.failed whole = Period.failed first || Period.failed second /\
  map eraseDate (Period.schedule whole) =
    map eraseDate (Period.schedule first) ++ map eraseDate (Period.schedule second).
Proof.
  intros Hn Hk. cbv zeta. unfold runSimulationPeriod.
  cbn [Period.finalBalance Period.finalCostBasis Period.finalNominalCostBasis
       Period.failed Period.schedule].
  rewrite Z2Nat.inj_add by assumption. rewrite monthLoop_app.
  set (stN := monthLoop (monthStep sd smi dep params evs) (Z.to_nat n) 0%Z _).
  rewrite Z2Nat.id by assumption.
  replace (0 + n)%Z with (n + 0)%Z by lia.
  apply (monthLoop_simAgree (simFailed stN) (map eraseDate (simSchedule stN))).
  unfold simAgree. cbn [simBalance simCostBasis simNominalCostBasis simFailed simSchedule].
  repeat split; try reflexivity.
  - rewrite orb_false_r. reflexivity.
  - cbn [map]. rewrite app_nil_r. reflexivity.
Qed.

End TwoParts.

(** X8 at work: 25 months as 13 months followed by 12. *)
Lemma run_in_two_parts_witness :
  let params := sampleParams 7 2 25 0 in
  let evs := [(12%Z, [goal 12 5000]); (24%Z, [goal 24 20000])] in
  let whole :=
    runSimulationPeriod (host := monthCountHost) 0 0 0 0%Z 0 (13 + 12) 900 params evs in
  let first :=
    runSimulationPeriod (host := monthCountHost) 0 0 0 0%Z 0 13 900 params evs in
  let second :=
    runSimulationPeriod (host := monthCountHost)
      (Period.finalBalance first) (Period.finalCostBasis first)
      (Period.finalNominalCostBasis first) 13%Z (0 + 13) 12 900 params evs in
  (0 <= 13)%Z /\ (0 <= 12)%Z /\
  Period.finalBalance whole = Period.finalBalance second /\
  Period.failed whole = Period.failed first || Period.failed second.
Proof.
  cbv zeta.
  assert (H13 : (0 <= 13)%Z) by lia.
  assert (H12 : (0 <= 12)%Z) by lia.
  destruct (run_in_two_parts (host := monthCountHost) 0 0 0 0%Z 13%Z 0 13 12 900
              (sampleParams 7 2 25 0)
              [(12%Z, [goal 12 5000]); (24%Z, [goal 24 20000])] H13 H12)
    as [Hb [_ [_ [Hf _]]]].
  split; [exact H13|]. split; [exact H12|]. split; [exact Hb | exact Hf].
Defined.

(** ** The order of the goals *)

Lemma insertBy_least {A} (key : A -> Z) x l :
  Forall (fun y => (key x <= key y)%Z) l -> insertBy key x l = x :: l.
Proof.
  intros H. destruct l as [|y l]; [reflexivity|].
  inversion H as [|? ? Hy _]; subst. simpl.
  apply Z.leb_le in Hy. rewrite Hy. reflexivity.
Qed.

Lemma sortBy_sorted_id {A} (key : A -> Z) l : sortedBy key l -> sortBy key l = l.
Proof.
  unfold sortedBy. induction 1 as [|x l Hs IH Hx]; [reflexivity|].
  simpl. fold (sortBy key l). rewrite IH. apply insertBy_least, Hx.
Qed.

Lemma sortBy_idempotent {A} (key : A -> Z) l : sortBy key (sortBy key l) = sortBy key l.
Proof. apply sortBy_sorted_id, sortBy_sorted. Qed.

(** Two sorted lists with the same elements and no repeated key are equal. *)
Lemma sorted_perm_unique {A} (key : A -> Z) (l1 : list A) : forall l2,
  sortedBy key l1 -> sortedBy key l2 -> NoDup (map key l1) -> Permutation l1 l2 ->
  l1 = l2.
Proof.
  unfold sortedBy. induction l1 as [|x l1 IH]; intros l2 H1 H2 Hnd Hp.
  - apply Permutation_nil in Hp. subst. reflexivity.
  - destruct l2 as [|y l2];
      [apply Permutation_sym, Permutation_nil in Hp; discriminate|].
    inversion H1 as [|? ? Hs1 Hx]; subst. inversion H2 as [|? ? Hs2 Hy]; subst.
    inversion Hnd as [|? ? Hnin Hnd']; subst.
    rewrite Forall_forall in Hx, Hy.
    assert (Hxy : x = y).
    { assert (Hin : In x (y :: l2)) by (apply (Permutation_in _ Hp); left; reflexivity).
      destruct Hin as [Heq|Hin]; [symmetry; exact Heq|].
      assert (Hin' : In y (x :: l1))
        by (apply (Permutation_in _ (Permutation_sym Hp)); left; reflexivity).
      destruct Hin' as [Heq|Hin']; [exact Heq|].
      exfalso. specialize (Hx _ Hin'). specialize (Hy _ Hin).
      assert (Hk : key x = key y) by lia.
      apply Hnin. rewrite Hk. apply in_map, Hin'. }
    subst y. f_equal. apply IH; try assumption.
    apply (Permutation_cons_inv Hp).
Qed.

Lemma sortBy_perm_unique {A} (key : A -> Z) l1 l2 :
  NoDup (map key l1) -> Permutation l1 l2 -> sortBy key l1 = sortBy key l2.
Proof.
  intros Hnd Hp. apply (sorted_perm_unique key).
  - apply sortBy_sorted.
  - apply sortBy_sorted.
  - eapply Permutation_NoDup; [|exact Hnd]. apply Permutation_map, sortBy_perm.
  - rewrite <- (sortBy_perm key l1), <- (sortBy_perm key l2). exact Hp.
Qed.

Section GoalOrder.
Context {host : Host}.

Lemma calculateSavingsPlan_sorted_ext params l1 l2 :
  sortBy monthOffset l1 = sortBy monthOffset l2 ->
  calculateSavingsPlan params l1 = calculateSavingsPlan params l2.
Proof.
  intros H. unfold calculateSavingsPlan, planLoop. rewrite H. reflexivity.
Qed.

(** X10.  The plan does not depend on the order in which goals due in different
    months are listed: two goal lists that are permutations of one another and
    in which no two goals share a month offset give the same result. *)
Theorem plan_ignores_goal_order (params : FinancialParams)
    (events events' : list SavingsEvent) :
  NoDup (map monthOffset events) -> Permutation events events' ->
  calculateSavingsPlan params events = calculateSavingsPlan params events'.
Proof.
  intros Hnd Hp. apply calculateSavingsPlan_sorted_ext, sortBy_perm_unique; assumption.
Qed.

(** X11.  The plan reads the goals only through their stable sort by month
    offset: goal lists with the same sorted order give the same result, and
    sorting the list beforehand changes nothing. *)
Theorem plan_reads_sorted_goals (params : FinancialParams) (events : list SavingsEvent) :
  calculateSavingsPlan params (sortBy monthOffset events) =
    calculateSavingsPlan params events /\
  (forall events',
     sortBy monthOffset events' = sortBy monthOffset events ->
     calculateSavingsPlan params events' = calculateSavingsPlan params events).
Proof.
  split.
  - apply calculateSavingsPlan_sorted_ext, sortBy_idempotent.
  - intros events' H. apply calculateSavingsPlan_sorted_ext, H.
Qed.

End GoalOrder.

(** X10 at work: two goals listed in either order. *)
Lemma plan_ignores_goal_order_witness :
  let params := sampleParams 7 2 25 0 in
  NoDup (map monthOffset [goal 24 20000; goal 12 5000]) /\
  Permutation [goal 24 20000; goal 12 5000] [goal 12 5000; goal 24 20000] /\
  calculateSavingsPlan (host := monthCountHost) params [goal 24 20000; goal 12 5000] =
  calculateSavingsPlan (host := monthCountHost) params [goal 12 5000; goal 24 20000].
Proof.
  cbv zeta.
  assert (Hnd : NoDup (map monthOffset [goal 24 20000; goal 12 5000])).
  { simpl. constructor; [intros [H|[]]; discriminate|].
    constructor; [intros []|constructor]. }
  assert (Hp : Permutation [goal 24 20000; goal 12 5000] [goal 12 5000; goal 24 20000])
    by apply perm_swap.
  split; [exact Hnd|]. split; [exact Hp|].
  exact (plan_ignores_goal_order (host := monthCountHost) (sampleParams 7 2 25 0)
           _ _ Hnd Hp).
Defined.

(** ** The goal editor *)

(** X12.  For a goal that is not in the past, the adjusted amount the editor
    shows is the inflation-adjusted net target the engine withdraws for it. *)
Theorem adjusted_amount_matches_engine (params : FinancialParams) (e : SavingsEvent) :
  (0 <= monthOffset e)%Z ->
  calculateAdjustedAmount params (targetAmount e) (monthOffset e) =
  targetNetNominal (getMonthlyRate (annualInflation params)) (monthOffset e) e.
Proof.
  intros Hk. unfold calculateAdjustedAmount, targetNetNominal, inflationFactor.
  destruct (monthOffset e <=? 0)%Z eqn:Hle; [|reflexivity].
  apply Z.leb_le in Hle. assert (Hz : monthOffset e = 0%Z) by lia.
  rewrite Hz. unfold Math_pow, Rpower. rewrite Rmult_0_l, exp_0. lra.
Qed.

(** X12 at work: a goal a year ahead. *)
Lemma adjusted_amount_matches_engine_witness :
  (0 <= monthOffset (goal 12 5000))%Z /\
  calculateAdjustedAmount (sampleParams 7 2 25 0) (targetAmount (goal 12 5000))
    (monthOffset (goal 12 5000)) =
  targetNetNominal (getMonthlyRate (annualInflation (sampleParams 7 2 25 0)))
    (monthOffset (goal 12 5000)) (goal 12 5000).
Proof.
  split; [simpl; lia|].
  apply (adjusted_amount_matches_engine (sampleParams 7 2 25 0) (goal 12 5000)).
  simpl; lia.
Defined.

Lemma lastEventMonthOf_bounds e es :
  (forall x, In x (e :: es) -> (monthOffset x <= lastEventMonthOf e es)%Z) /\
  (exists x, In x (e :: es) /\ lastEventMonthOf e es = monthOffset x).
Proof.
  destruct (fold_left_max_spec (map monthOffset es) (monthOffset e))
    as [Hin [Hle Hall]].
  fold (lastEventMonthOf e es) in Hin, Hle, Hall. split.
  - intros x [<-|Hx]; [exact Hle|]. apply Hall, in_map, Hx.
  - destruct Hin as [Heq|Hin].
    + exists e. split; [left; reflexivity | exact Heq].
    + apply in_map_iff in Hin. destruct Hin as [x [Hx Hin]].
      exists x. split; [right; exact Hin | symmetry; exact Hx].
Qed.

Lemma lastEventMonthOf_snoc e es x :
  lastEventMonthOf e (es ++ [x]) = Z.max (lastEventMonthOf e es) (monthOffset x).
Proof. unfold lastEventMonthOf. rewrite map_app, fold_left_app. reflexivity. Qed.

Lemma insertBy_snoc_greater {A} (key : A -> Z) a x l :
  (key a < key x)%Z -> insertBy key a (l ++ [x]) = insertBy key a l ++ [x].
Proof.
  intros Hlt. induction l as [|y l IH]; simpl.
  - assert (H : (key a <=? key x)%Z = true) by (apply Z.leb_le; lia).
    rewrite H. reflexivity.
  - destruct (key a <=? key y)%Z; [reflexivity|]. rewrite IH. reflexivity.
Qed.

Lemma sortBy_snoc_greatest {A} (key : A -> Z) x l :
  (forall a, In a l -> (key a < key x)%Z) ->
  sortBy key (l ++ [x]) = sortBy key l ++ [x].
Proof.
  induction l as [|a l IH]; intros H; [reflexivity|].
  simpl. fold (sortBy key (l ++ [x])). fold (sortBy key l).
  rewrite IH by (intros b Hb; apply H; right; exact Hb).
  apply insertBy_snoc_greater, H. left; reflexivity.
Qed.

(** X13.  The goal added by the "add" button is appended to the list, carries
    the fresh id and the default target of 10000, and is due twelve months
    after the latest goal of the list (in month 12 when the list is empty); it
    is therefore due strictly later than every other goal and comes last in
    the sorted order the engine and the editor use. *)
Theorem added_goal_comes_last (newId : string) (events : list SavingsEvent) :
  exists newEvent,
    handleAddDefaultEvent newId events = events ++ [newEvent] /\
    id newEvent = newId /\ targetAmount newEvent = 10000 /\
    (events = [] -> monthOffset newEvent = 12%Z) /\
    (events <> [] ->
       exists latest, In latest events /\
         monthOffset newEvent = (monthOffset latest + 12)%Z) /\
    (forall e, In e events -> (monthOffset e + 12 <= monthOffset newEvent)%Z) /\
    sortBy monthOffset (handleAddDefaultEvent newId events) =
      sortBy monthOffset events ++ [newEvent].
Proof.
  unfold handleAddDefaultEvent. cbv zeta.
  set (lastOffset := match events with [] => 0%Z | e :: es => lastEventMonthOf e es end).
  set (newEvent := {| id := newId; name := defaultEventName;
                      monthOffset := (lastOffset + 12)%Z; targetAmount := 10000 |}).
  assert (Hall : forall e, In e events -> (monthOffset e + 12 <= monthOffset newEvent)%Z).
  { intros e He. simpl. destruct events as [|e0 es]; [destruct He|].
    pose proof (proj1 (lastEventMonthOf_bounds e0 es) e He). unfold lastOffset. lia. }
  exists newEvent. split; [reflexivity|]. split; [reflexivity|]. split; [reflexivity|].
  split; [|split; [|split]].
  - intros ->. reflexivity.
  - intros Hne. destruct events as [|e0 es]; [contradiction|].
    destruct (proj2 (lastEventMonthOf_bounds e0 es)) as [x [Hx Heq]].
    exists x. split; [exact Hx|]. simpl. unfold lastOffset. rewrite Heq. reflexivity.
  - exact Hall.
  - apply sortBy_snoc_greatest. intros a Ha. specialize (Hall a Ha). lia.
Qed.

Section EditorAndPlan.
Context {host : Host}.

(** X14.  Adding the default goal to a list of goals none of which is in the
    past lengthens the plan by exactly twelve months; from the empty list it
    gives a plan of thirteen months. *)
Theorem added_goal_extends_plan_by_a_year (params : FinancialParams) (newId : string)
    (events : list SavingsEvent) :
  (forall x, In x events -> (0 <= monthOffset x)%Z) ->
  List.length (schedule (calculateSavingsPlan params (handleAddDefaultEvent newId events))) =
  match events with
  | [] => 13%nat
  | _ :: _ => (List.length (schedule (calculateSavingsPlan params events)) + 12)%nat
  end.
Proof.
  intros Hnonneg. unfold handleAddDefaultEvent. cbv zeta.
  destruct events as [|e es].
  - simpl app.
    rewrite <- (length_map monthIndex), plan_schedule_indices.
    + rewrite monthRange_length. reflexivity.
    + intros x [<-|[]]. simpl. lia.
  - set (newEvent := {| id := newId; name := defaultEventName;
                        monthOffset := (lastEventMonthOf e es + 12)%Z;
                        targetAmount := 10000 |}).
    pose proof (proj1 (lastEventMonthOf_bounds e es) e (or_introl eq_refl)) as Hle.
    pose proof (Hnonneg e (or_introl eq_refl)) as He.
    change ((e :: es) ++ [newEvent]) with (e :: (es ++ [newEvent])).
    rewrite <- (length_map monthIndex), <- (length_map monthIndex (schedule _)).
    rewrite !plan_schedule_indices.
    + rewrite !monthRange_length, lastEventMonthOf_snoc.
      change (monthOffset newEvent) with (lastEventMonthOf e es + 12)%Z. lia.
    + exact Hnonneg.
    + intros x Hx. change (e :: es ++ [newEvent]) with ((e :: es) ++ [newEvent]) in Hx.
      apply in_app_or in Hx. destruct Hx as [Hx|[<-|[]]]; [apply Hnonneg, Hx|].
      simpl. lia.
Qed.

End EditorAndPlan.

(** X14 at work: a goal added after one at month 6. *)
Lemma added_goal_extends_plan_by_a_year_witness :
  (forall x, In x [goal 6 1000] -> (0 <= monthOffset x)%Z) /\
  List.length (schedule (calculateSavingsPlan (host := monthCountHost)
                           (sampleParams 7 2 25 0)
                           (handleAddDefaultEvent EmptyString [goal 6 1000]))) =
  (List.length (schedule (calculateSavingsPlan (host := monthCountHost)
                            (sampleParams 7 2 25 0) [goal 6 1000])) + 12)%nat.
Proof.
  assert (H : forall x, In x [goal 6 1000] -> (0 <= monthOffset x)%Z).
  { intros x [<-|[]]. simpl. lia. }
  split; [exact H|].
  exact (added_goal_extends_plan_by_a_year (host := monthCountHost)
           (sampleParams 7 2 25 0) EmptyString [goal 6 1000] H).
Defined.

Lemma filter_all_true {A} (f : A -> bool) l :
  (forall x, In x l -> f x = true) -> filter f l = l.
Proof.
  induction l as [|x l IH]; intros H; [reflexivity|]. simpl.
  rewrite (H x (or_introl eq_refl)). f_equal. apply IH.
  intros y Hy. apply H. right; exact Hy.
Qed.

Lemma sortedBy_filter {A} (key : A -> Z) (f : A -> bool) l :
  sortedBy key l -> sortedBy key (filter f l).
Proof.
  unfold sortedBy. induction 1 as [|x l Hs IH Hx]; simpl; [constructor|].
  destruct (f x); [|exact IH]. constructor; [exact IH|].
  rewrite Forall_forall in *. intros y Hy. apply Hx.
  apply filter_In in Hy. tauto.
Qed.

Lemma id_differs_iff (e : SavingsEvent) (eventId : string) :
  negb (String.eqb (id e) eventId) = true <-> id e <> eventId.
Proof.
  rewrite negb_true_iff. split.
  - intros H Heq. apply String.eqb_eq in Heq. congruence.
  - intros H. apply String.eqb_neq. exact H.
Qed.

(** X15.  Deleting by id removes exactly the goals with that id (all of them,
    should several share it) and keeps the remaining goals in their order: the
    result holds a goal exactly when the list held it under another id, a
    sorted list stays sorted, no goal of the result has the id, and deleting
    the id again, or deleting an id no goal has, changes nothing. *)
Theorem delete_removes_exactly_that_id (eventId : string) (events : list SavingsEvent) :
  (forall e, In e (handleDelete eventId events) <-> In e events /\ id e <> eventId) /\
  (sortedBy monthOffset events -> sortedBy monthOffset (handleDelete eventId events)) /\
  handleDelete eventId (handleDelete eventId events) = handleDelete eventId events /\
  ((forall e, In e events -> id e <> eventId) -> handleDelete eventId events = events) /\
  (List.length (handleDelete eventId events) <= List.length events)%nat.
Proof.
  unfold handleDelete. split; [|split; [|split; [|split]]].
  - intros e. rewrite filter_In, id_differs_iff. tauto.
  - apply sortedBy_filter.
  - apply filter_all_true. intros x Hx. apply filter_In in Hx. tauto.
  - intros H. apply filter_all_true. intros x Hx. apply id_differs_iff, H, Hx.
  - apply filter_length_le.
Qed.

(** X16.  Deleting the goal just added, when its id is fresh, gives back the
    list as it was. *)
Theorem delete_undoes_add (newId : string) (events : list SavingsEvent) :
  (forall e, In e events -> id e <> newId) ->
  handleDelete newId (handleAddDefaultEvent newId events) = events.
Proof.
  intros Hfresh. unfold handleAddDefaultEvent, handleDelete. cbv zeta.
  rewrite filter_app. cbn [filter id]. rewrite String.eqb_refl. cbn [negb].
  rewrite app_nil_r. apply filter_all_true.
  intros x Hx. apply id_differs_iff, Hfresh, Hx.
Qed.

(** X16 at work: a goal named "a", and a new goal with id "b". *)
Lemma delete_undoes_add_witness :
  (forall e, In e [namedGoal "a" 6 1000] -> id e <> "b"%string) /\
  handleDelete "b" (handleAddDefaultEvent "b" [namedGoal "a" 6 1000]) =
    [namedGoal "a" 6 1000].
Proof.
  assert (H : forall e, In e [namedGoal "a" 6 1000] -> id e <> "b"%string).
  { intros e [<-|[]]. simpl. discriminate. }
  split; [exact H|]. exact (delete_undoes_add "b" [namedGoal "a" 6 1000] H).
Defined.

(** ** Relabelling goals *)

Lemma bisect_ext fails1 fails2 n :
  (forall x, fails1 x = fails2 x) ->
  forall low high result,
    bisect fails1 n low high result = bisect fails2 n low high result.
Proof.
  intros Hext. induction n as [|n IH]; intros low high result; [reflexivity|].
  simpl. rewrite Hext. destruct (fails2 ((low + high) / 2)); apply IH.
Qed.

Lemma fold_left_map {A B C} (g : A -> C -> A) (h : B -> C) (l : list B) : forall a,
  fold_left g (map h l) a = fold_left (fun acc x => g acc (h x)) l a.
Proof. induction l as [|x l IH]; intros a; [reflexivity|]. simpl. apply IH. Qed.

Lemma existsb_over_map {A B} (p : B -> bool) (h : A -> B) (l : list A) :
  existsb p (map h l) = existsb (fun x => p (h x)) l.
Proof. induction l as [|x l IH]; [reflexivity|]. simpl. rewrite IH. reflexivity. Qed.

Section Relabel.
Context {host : Host}.
Variable f : SavingsEvent -> SavingsEvent.
Hypothesis Hf : keepsNumbers f.

Lemma relabel_month e : monthOffset (f e) = monthOffset e.
Proof. apply Hf. Qed.

Lemma relabel_target e : targetAmount (f e) = targetAmount e.
Proof. apply Hf. Qed.

Lemma insertBy_relabel x l :
  insertBy monthOffset (f x) (map f l) = map f (insertBy monthOffset x l).
Proof.
  induction l as [|y l IH]; [reflexivity|]. simpl.
  rewrite !relabel_month. destruct (monthOffset x <=? monthOffset y)%Z; [reflexivity|].
  simpl. rewrite IH. reflexivity.
Qed.

Lemma sortBy_relabel l :
  sortBy monthOffset (map f l) = map f (sortBy monthOffset l).
Proof.
  induction l as [|x l IH]; [reflexivity|]. simpl.
  fold (sortBy monthOffset (map f l)). fold (sortBy monthOffset l).
  rewrite IH. apply insertBy_relabel.
Qed.

Lemma Map_get_relabel m k :
  Map_get (relabelMap f m) k = option_map (map f) (Map_get m k).
Proof.
  induction m as [|[k' v] m IH]; [reflexivity|]. simpl.
  destruct (k' =? k)%Z; [reflexivity | exact IH].
Qed.

Lemma Map_has_relabel m k : Map_has (relabelMap f m) k = Map_has m k.
Proof. unfold Map_has. rewrite Map_get_relabel. destruct (Map_get m k); reflexivity. Qed.

Lemma Map_set_relabel m k v :
  Map_set (relabelMap f m) k (map f v) = relabelMap f (Map_set m k v).
Proof.
  induction m as [|[k' v'] m IH]; [reflexivity|]. simpl.
  destruct (k' =? k)%Z; [reflexivity|]. simpl. rewrite IH. reflexivity.
Qed.

Lemma Map_keys_relabel m : Map_keys (relabelMap f m) = Map_keys m.
Proof. unfold Map_keys, relabelMap. rewrite map_map. reflexivity. Qed.

Lemma groupPush_relabel m e :
  groupPush (relabelMap f m) (f e) = relabelMap f (groupPush m e).
Proof.
  unfold groupPush. cbv zeta. rewrite relabel_month, Map_has_relabel.
  destruct (Map_has m (monthOffset e)).
  - rewrite Map_get_relabel. destruct (Map_get m (monthOffset e)) as [arr|]; simpl.
    + rewrite <- Map_set_relabel, map_app. reflexivity.
    + reflexivity.
  - rewrite (Map_set_relabel m (monthOffset e) [] : Map_set (relabelMap f m) _ [] = _).
    rewrite Map_get_relabel.
    destruct (Map_get (Map_set m (monthOffset e) []) (monthOffset e)) as [arr|]; simpl.
    + rewrite <- (Map_set_relabel _ _ (arr ++ [e])), map_app. reflexivity.
    + reflexivity.
Qed.

Lemma groupFold_relabel l : forall m,
  fold_left groupPush (map f l) (relabelMap f m) = relabelMap f (fold_left groupPush l m).
Proof.
  induction l as [|e l IH]; intros m; [reflexivity|]. simpl.
  rewrite groupPush_relabel. apply IH.
Qed.

Lemma groupByMonth_relabel l :
  groupByMonth (map f l) = relabelMap f (groupByMonth l).
Proof. unfold groupByMonth. apply (groupFold_relabel l []). Qed.

Lemma withdraw_relabel tax mi idx a e :
  withdraw tax mi idx (relabelAcc f a) (f e) = relabelAcc f (withdraw tax mi idx a e).
Proof.
  unfold withdraw, relabelAcc, targetNetNominal. cbv zeta. simpl.
  rewrite relabel_target. reflexivity.
Qed.

Lemma withdrawFold_relabel tax mi idx l : forall a,
  fold_left (withdraw tax mi idx) (map f l) (relabelAcc f a) =
  relabelAcc f (fold_left (withdraw tax mi idx) l a).
Proof.
  induction l as [|e l IH]; intros a; [reflexivity|]. simpl.
  rewrite withdraw_relabel. apply IH.
Qed.

Lemma handleEvents_relabel tax mi idx m a :
  handleEvents tax mi idx (relabelMap f m) (relabelAcc f a) =
  relabelAcc f (handleEvents tax mi idx m a).
Proof.
  unfold handleEvents. rewrite Map_get_relabel.
  destruct (Map_get m idx) as [evs|]; simpl; [apply withdrawFold_relabel | reflexivity].
Qed.

Lemma monthPreWithdrawalBalance_relabel idx m a :
  monthPreWithdrawalBalance idx (relabelMap f m) (relabelAcc f a) =
  monthPreWithdrawalBalance idx m a.
Proof.
  unfold monthPreWithdrawalBalance. rewrite Map_get_relabel.
  destruct (Map_get m idx); reflexivity.
Qed.

Lemma monthStep_relabel sd smi d params m i st :
  monthStep sd smi d params (relabelMap f m) i (relabelSim f st) =
  relabelSim f (monthStep sd smi d params m i st).
Proof.
  unfold monthStep. cbv zeta.
  set (grown := afterGrowth _ _ d st).
  change (afterGrowth (getMonthlyRate (annualReturn params))
            (getMonthlyRate (annualInflation params)) d (relabelSim f st))
    with (relabelAcc f grown).
  rewrite handleEvents_relabel, monthPreWithdrawalBalance_relabel.
  unfold relabelSim.
  cbn [simBalance simCostBasis simNominalCostBasis simSchedule simFailed relabelAcc
       balance accCostBasis nominalCostBasis accFailed].
  rewrite map_app. reflexivity.
Qed.

Lemma monthLoop_relabel sd smi d params m n : forall i st,
  monthLoop (monthStep sd smi d params (relabelMap f m)) n i (relabelSim f st) =
  relabelSim f (monthLoop (monthStep sd smi d params m) n i st).
Proof.
  induction n as [|n IH]; intros i st; [reflexivity|]. simpl.
  rewrite monthStep_relabel. apply IH.
Qed.

Lemma runSimulationPeriod_relabel sb scb sncb sd smi dur d params m :
  runSimulationPeriod sb scb sncb sd smi dur d params (relabelMap f m) =
  relabelPeriod f (runSimulationPeriod sb scb sncb sd smi dur d params m).
Proof.
  unfold runSimulationPeriod. cbv zeta.
  set (start := {| simBalance := sb; simCostBasis := scb; simNominalCostBasis := sncb;
                   simSchedule := []; simFailed := false |}).
  pose proof (monthLoop_relabel sd smi d params m (Z.to_nat dur) 0%Z start) as H.
  change (relabelSim f start) with start in H at 1. rewrite H. reflexivity.
Qed.

Lemma lastEventMonthOf_relabel e es :
  lastEventMonthOf (f e) (map f es) = lastEventMonthOf e es.
Proof.
  unfold lastEventMonthOf. rewrite relabel_month, map_map.
  f_equal. apply map_ext. intros x. apply relabel_month.
Qed.

Lemma lookaheadFails_relabel sb scb sncb sd smi e es params mid :
  lookaheadFails sb scb sncb sd smi (f e) (map f es) params mid =
  lookaheadFails sb scb sncb sd smi e es params mid.
Proof.
  unfold lookaheadFails. cbv zeta. rewrite lastEventMonthOf_relabel.
  change (f e :: map f es) with (map f (e :: es)).
  rewrite groupByMonth_relabel, runSimulationPeriod_relabel. reflexivity.
Qed.

Lemma solveRequiredDeposit_relabel sb scb sncb sd smi events params :
  solveRequiredDeposit sb scb sncb sd smi (map f events) params =
  solveRequiredDeposit sb scb sncb sd smi events params.
Proof.
  unfold solveRequiredDeposit. destruct events as [|e es]; [reflexivity|].
  cbn [map]. cbv zeta. f_equal. f_equal. f_equal.
  apply bisect_ext. intros x. apply lookaheadFails_relabel.
Qed.

Lemma remaining_relabel cm l :
  filter (fun e => (cm <=? monthOffset e)%Z) (map f l) =
  map f (filter (fun e => (cm <=? monthOffset e)%Z) l).
Proof.
  induction l as [|x l IH]; [reflexivity|]. simpl. rewrite relabel_month.
  destruct (cm <=? monthOffset x)%Z; simpl; rewrite IH; reflexivity.
Qed.

Lemma segmentDeposit_relabel params sd sorted st :
  segmentDeposit params sd (map f sorted) (relabelPlan f st) =
  segmentDeposit params sd sorted st.
Proof.
  unfold segmentDeposit. cbv zeta.
  cbn [relabelPlan currentMonth currentBalance currentCostBasis currentNominalCostBasis
       maxDepositConstraint].
  rewrite remaining_relabel, solveRequiredDeposit_relabel. reflexivity.
Qed.

Lemma segmentRun_relabel params sd ebm st m d :
  segmentRun params sd (relabelMap f ebm) (relabelPlan f st) m d =
  relabelPeriod f (segmentRun params sd ebm st m d).
Proof.
  unfold segmentRun. cbv zeta.
  cbn [relabelPlan currentMonth currentBalance currentCostBasis currentNominalCostBasis].
  rewrite <- runSimulationPeriod_relabel. f_equal.
  rewrite Map_get_relabel. destruct (Map_get ebm m) as [evs|]; reflexivity.
Qed.

Lemma segmentStep_relabel params sd sorted ebm st m :
  segmentStep params sd (map f sorted) (relabelMap f ebm) (relabelPlan f st) m =
  relabelPlan f (segmentStep params sd sorted ebm st m).
Proof.
  unfold segmentStep. cbv zeta.
  rewrite segmentDeposit_relabel, segmentRun_relabel.
  unfold relabelPlan.
  cbn [fullSchedule currentBalance currentCostBasis currentNominalCostBasis currentMonth
       maxDepositConstraint relabelPeriod Period.schedule Period.finalBalance
       Period.finalCostBasis Period.finalNominalCostBasis].
  rewrite map_app. reflexivity.
Qed.

Lemma segmentFold_relabel params sd sorted ebm ms : forall st,
  fold_left (segmentStep params sd (map f sorted) (relabelMap f ebm)) ms (relabelPlan f st) =
  relabelPlan f (fold_left (segmentStep params sd sorted ebm) ms st).
Proof.
  induction ms as [|m ms IH]; intros st; [reflexivity|]. simpl.
  rewrite segmentStep_relabel. apply IH.
Qed.

Lemma planLoop_relabel params events :
  planLoop params (map f events) = relabelPlan f (planLoop params events).
Proof.
  unfold planLoop. cbv zeta.
  rewrite sortBy_relabel, groupByMonth_relabel, Map_keys_relabel.
  apply (segmentFold_relabel params _ _ _ _ (initialPlanState params)).
Qed.

(** Relabelling the goals relabels the plan and changes none of its numbers. *)
Lemma calculateSavingsPlan_relabel params events :
  calculateSavingsPlan params (map f events) =
  relabelResult f (calculateSavingsPlan params events).
Proof.
  unfold calculateSavingsPlan. cbv zeta. rewrite sortBy_relabel.
  destruct (sortBy monthOffset events) as [|e0 sorted]; [reflexivity|].
  cbn [map]. rewrite planLoop_relabel. unfold relabelResult.
  cbn [relabelPlan fullSchedule currentBalance success schedule finalBalance
       totalDeposited totalWithdrawnNet totalTaxPaid].
  rewrite !fold_left_map. cbn [relabelMonth deposit withdrawalNet taxPaid].
  f_equal. f_equal. apply existsb_over_map.
Qed.

End Relabel.

Lemma updateOne_keepsNumbers eventId fv : labelOnly fv -> keepsNumbers (updateOne eventId fv).
Proof.
  intros Hfv e. unfold updateOne.
  destruct (negb (String.eqb (id e) eventId)); [split; reflexivity|].
  destruct fv; try contradiction; split; reflexivity.
Qed.

Section Renaming.
Context {host : Host}.

(** X17.  Editing the name or the id of a goal changes no number of the plan:
    the plan of the edited list is the plan of the list as it was, with the
    goals its month records refer to edited in the same way; success, every
    deposit, balance, withdrawal and tax, and all totals stay as they were. *)
Theorem renaming_keeps_the_numbers (params : FinancialParams) (eventId : string)
    (fv : FieldValue) (events : list SavingsEvent) :
  labelOnly fv ->
  calculateSavingsPlan params (handleUpdateEvent eventId fv events) =
  relabelResult (updateOne eventId fv) (calculateSavingsPlan params events).
Proof.
  intros Hfv.
  change (handleUpdateEvent eventId fv events) with (map (updateOne eventId fv) events).
  apply calculateSavingsPlan_relabel, updateOne_keepsNumbers, Hfv.
Qed.

End Renaming.

(** X17 at work: the goal "a" renamed to "b". *)
Lemma renaming_keeps_the_numbers_witness :
  labelOnly (NameValue "b") /\
  calculateSavingsPlan (host := monthCountHost) (sampleParams 7 2 25 0)
    (handleUpdateEvent "a" (NameValue "b") [namedGoal "a" 6 1000]) =
  relabelResult (updateOne "a" (NameValue "b"))
    (calculateSavingsPlan (host := monthCountHost) (sampleParams 7 2 25 0)
       [namedGoal "a" 6 1000]).
Proof.
  split; [exact I|].
  exact (renaming_keeps_the_numbers (host := monthCountHost) (sampleParams 7 2 25 0)
           "a" (NameValue "b") [namedGoal "a" 6 1000] I).
Defined.

(** ** Rendering the goal list *)

Lemma replaceNth_overflow {A} n (v : A) l :
  (List.length l <= n)%nat -> replaceNth n v l = l.
Proof.
  revert n; induction l as [|x l IH]; intros [|n] Hn; simpl in *; try reflexivity;
    try lia.
  f_equal. apply IH. lia.
Qed.

Lemma replaceNth_twice {A} n (v w : A) l :
  replaceNth n w (replaceNth n v l) = replaceNth n w l.
Proof.
  revert n; induction l as [|x l IH]; intros [|n]; simpl; try reflexivity.
  f_equal. apply IH.
Qed.

Lemma readArray_write_sorted r s :
  readArray (writeArray r (sortBy monthOffset (readArray s r)) s) r =
  sortBy monthOffset (readArray s r).
Proof.
  destruct (Nat.lt_ge_cases r (List.length (arrays s))) as [Hlt|Hge].
  - apply readArray_write_same, Hlt.
  - unfold writeArray, readArray. cbn [arrays].
    rewrite replaceNth_overflow by exact Hge.
    rewrite (nth_overflow (arrays s) [] Hge). reflexivity.
Qed.

Section Rendering.
Context {host : Host}.

(** X18.  Rendering the goal list sorts the array object the component was
    handed, in place: after a render the caller's array holds its goals in
    stable month order, so it is changed exactly when it was not sorted; no
    other array and no parameter object is touched, the rows are the sorted
    goals, a second render changes nothing more, and the plan computed from the
    array is the same before and after. *)
Theorem render_sorts_the_callers_array (params : FinancialParams)
    (eventsRef : Heap.ref) (s : Heap.Store) :
  let rows := fst (Editor.renderEventRows params eventsRef s) in
  let s' := snd (Editor.renderEventRows params eventsRef s) in
  Heap.readArray s' eventsRef = sortBy monthOffset (Heap.readArray s eventsRef) /\
  (Heap.readArray s' eventsRef = Heap.readArray s eventsRef <->
     sortedBy monthOffset (Heap.readArray s eventsRef)) /\
  (forall r, r <> eventsRef -> Heap.readArray s' r = Heap.readArray s r) /\
  Heap.paramObjects s' = Heap.paramObjects s /\
  map fst rows = sortBy monthOffset (Heap.readArray s eventsRef) /\
  snd (Editor.renderEventRows params eventsRef s') = s' /\
  (forall planParams,
     calculateSavingsPlan planParams (Heap.readArray s' eventsRef) =
     calculateSavingsPlan planParams (Heap.readArray s eventsRef)).
Proof.
  cbv zeta. unfold Editor.renderEventRows. cbv zeta. cbn [fst snd].
  rewrite !readArray_write_sorted.
  split; [reflexivity|]. split; [|split; [|split; [|split; [|split]]]].
  - split.
    + intros H. rewrite <- H. apply sortBy_sorted.
    + apply sortBy_sorted_id.
  - intros r Hr. apply readArray_write_other. congruence.
  - reflexivity.
  - rewrite map_map. cbn [fst]. apply map_id.
  - rewrite sortBy_idempotent. unfold writeArray. cbn [arrays paramObjects].
    rewrite replaceNth_twice. reflexivity.
  - intros planParams. apply calculateSavingsPlan_sorted_ext, sortBy_idempotent.
Qed.

End Rendering.

(** ** The results view *)

Lemma Reqb_true_iff x y : Reqb x y = true <-> x = y.
Proof. unfold Reqb. destruct (Req_dec_T x y); split; congruence. Qed.

Lemma nonIncreasing_initialDeposit l :
  nonIncreasingDeposits l -> Forall (fun m => deposit m <= initialDeposit l) l.
Proof.
  unfold nonIncreasingDeposits. intros H. destruct l as [|m l]; [constructor|].
  inversion H as [|? ? _ Hm]; subst. constructor; [simpl; lra | exact Hm].
Qed.

Lemma constant_not_variable l d :
  Forall (fun m => deposit m = d) l -> isVariableDeposit l = false.
Proof.
  intros H. unfold isVariableDeposit.
  destruct (existsb _ l) eqn:Hex; [|reflexivity]. exfalso.
  apply existsb_exists in Hex. destruct Hex as [m [Hin Hm]].
  apply negb_true_iff in Hm.
  assert (Heq : Reqb (deposit m) (initialDeposit l) = true); [|congruence].
  apply Reqb_true_iff. rewrite Forall_forall in H. rewrite (H m Hin).
  destruct l as [|m0 l]; [destruct Hin|]. simpl. symmetry. apply H. left; reflexivity.
Qed.

(** Increasing month lists with one and the same element have one element. *)
Lemma increasing_constant (k : Z) (ms : list Z) :
  StronglySorted Z.lt ms -> In k ms -> (forall x, In x ms -> x = k) -> ms = [k].
Proof.
  intros Hs Hin Hall. destruct ms as [|a ms]; [destruct Hin|].
  assert (Ha : a = k) by (apply Hall; left; reflexivity). subst a.
  destruct ms as [|b ms]; [reflexivity|]. exfalso.
  inversion Hs as [|? ? _ Hlt]; subst. inversion Hlt as [|? ? Hb _]; subst.
  assert (b = k) by (apply Hall; right; left; reflexivity). lia.
Qed.

Lemma eventMonthsOf_one_month e es :
  (forall x, In x es -> monthOffset x = monthOffset e) ->
  eventMonthsOf (e :: es) = [monthOffset e].
Proof.
  intros Hsame. apply increasing_constant.
  - apply eventMonthsOf_increasing.
  - apply eventMonthsOf_In. left; reflexivity.
  - intros k Hk. apply eventMonthsOf_In in Hk. apply in_map_iff in Hk.
    destruct Hk as [x [<- [<-|Hx]]]; [reflexivity | apply Hsame, Hx].
Qed.

Section Deposits.
Context {host : Host}.

Lemma plan_schedule_nonIncreasing params events :
  nonIncreasingDeposits (schedule (calculateSavingsPlan params events)).
Proof.
  unfold calculateSavingsPlan.
  destruct (sortBy monthOffset events); cbn [schedule]; [constructor|].
  apply planLoop_ceilingInvariant.
Qed.

(** X19.  The "initial monthly deposit" the results view shows is the largest
    deposit of the plan, and the view announces a deposit that "will go down"
    exactly when some month of the plan has a strictly smaller deposit. *)
Theorem initial_deposit_is_the_largest (params : FinancialParams)
    (events : list SavingsEvent) :
  let data := schedule (calculateSavingsPlan params events) in
  Forall (fun m => deposit m <= initialDeposit data) data /\
  (isVariableDeposit data = true <->
     exists m, In m data /\ deposit m < initialDeposit data).
Proof.
  cbv zeta. set (data := schedule (calculateSavingsPlan params events)).
  assert (Hle : Forall (fun m => deposit m <= initialDeposit data) data)
    by apply nonIncreasing_initialDeposit, plan_schedule_nonIncreasing.
  split; [exact Hle|]. unfold isVariableDeposit. rewrite existsb_exists.
  rewrite Forall_forall in Hle. split; intros [m [Hin Hm]]; exists m; split; try exact Hin.
  - apply negb_true_iff in Hm. specialize (Hle m Hin).
    destruct (Rle_lt_or_eq_dec _ _ Hle) as [Hlt|Heq]; [exact Hlt|].
    apply Reqb_true_iff in Heq. congruence.
  - apply negb_true_iff. destruct (Reqb (deposit m) (initialDeposit data)) eqn:Heq;
      [|reflexivity].
    apply Reqb_true_iff in Heq. lra.
Qed.

(** X20.  When all goals are due in the same month the plan has a single
    segment and one deposit throughout, so the results view reports a constant
    deposit. *)
Theorem one_goal_month_constant_deposit (params : FinancialParams)
    (e : SavingsEvent) (es : list SavingsEvent) :
  (forall x, In x es -> monthOffset x = monthOffset e) ->
  isVariableDeposit (schedule (calculateSavingsPlan params (e :: es))) = false /\
  exists d, Forall (fun m => deposit m = d)
              (schedule (calculateSavingsPlan params (e :: es))).
Proof.
  intros Hsame.
  assert (Hd : exists d, Forall (fun m => deposit m = d)
                           (schedule (calculateSavingsPlan params (e :: es)))).
  { rewrite calculateSavingsPlan_nonempty, planLoop_unfold.
    rewrite (eventMonthsOf_one_month e es Hsame). cbn [fold_left].
    unfold segmentStep. cbv zeta. cbn [fullSchedule initialPlanState app].
    eexists. unfold segmentRun. cbv zeta. apply period_schedule_deposit. }
  split; [|exact Hd]. destruct Hd as [d Hd]. exact (constant_not_variable _ d Hd).
Qed.

(** X21.  When all goals are due in one and the same past month (a negative
    month offset) no month is simulated: the result is the one for an empty
    goal list. *)
Theorem goals_in_one_past_month (params : FinancialParams)
    (e : SavingsEvent) (es : list SavingsEvent) :
  (monthOffset e < 0)%Z ->
  (forall x, In x es -> monthOffset x = monthOffset e) ->
  calculateSavingsPlan params (e :: es) = calculateSavingsPlan params [].
Proof.
  intros Hneg Hsame.
  assert (Hplan : planLoop params (e :: es) =
                  {| fullSchedule := [];
                     currentBalance := initialCapital params;
                     currentCostBasis := initialCapital params;
                     currentNominalCostBasis := initialCapital params;
                     currentMonth := (monthOffset e + 1)%Z;
                     maxDepositConstraint :=
                       Some (segmentDeposit params (newDate (startDate params))
                               (sortBy monthOffset (e :: es))
                               (initialPlanState params)) |}).
  { rewrite planLoop_unfold, (eventMonthsOf_one_month e es Hsame). cbn [fold_left].
    unfold segmentStep. cbv zeta. unfold segmentRun, runSimulationPeriod. cbv zeta.
    cbn [initialPlanState currentMonth currentBalance currentCostBasis
         currentNominalCostBasis fullSchedule].
    replace (Z.to_nat (monthOffset e - 0 + 1)) with O by lia.
    reflexivity. }
  unfold calculateSavingsPlan. cbv zeta.
  destruct (sortBy monthOffset (e :: es)) eqn:Hsorted;
    [exfalso; exact (sortBy_cons_nonempty _ _ _ Hsorted)|].
  rewrite Hplan. reflexivity.
Qed.

End Deposits.

(** X20 at work: two goals due in month 6. *)
Lemma one_goal_month_constant_deposit_witness :
  (forall x, In x [goal 6 500] -> monthOffset x = monthOffset (goal 6 1000)) /\
  isVariableDeposit
    (schedule (calculateSavingsPlan (host := monthCountHost) (sampleParams 7 2 25 0)
                 [goal 6 1000; goal 6 500])) = false.
Proof.
  assert (H : forall x, In x [goal 6 500] -> monthOffset x = monthOffset (goal 6 1000)).
  { intros x [<-|[]]. reflexivity. }
  split; [exact H|].
  exact (proj1 (one_goal_month_constant_deposit (host := monthCountHost)
                  (sampleParams 7 2 25 0) (goal 6 1000) [goal 6 500] H)).
Defined.

(** X21 at work: two goals due three months ago. *)
Lemma goals_in_one_past_month_witness :
  (monthOffset (goal (-3) 1000) < 0)%Z /\
  (forall x, In x [goal (-3) 500] -> monthOffset x = monthOffset (goal (-3) 1000)) /\
  calculateSavingsPlan (host := monthCountHost) (sampleParams 7 2 25 100)
    [goal (-3) 1000; goal (-3) 500] =
  calculateSavingsPlan (host := monthCountHost) (sampleParams 7 2 25 100) [].
Proof.
  assert (H0 : (monthOffset (goal (-3) 1000) < 0)%Z) by (simpl; lia).
  assert (H : forall x, In x [goal (-3) 500] ->
                        monthOffset x = monthOffset (goal (-3) 1000)).
  { intros x [<-|[]]. reflexivity. }
  split; [exact H0|]. split; [exact H|].
  exact (goals_in_one_past_month (host := monthCountHost) (sampleParams 7 2 25 100)
           (goal (-3) 1000) [goal (-3) 500] H0 H).
Defined.

(** ** The rows of the breakdown table *)

Lemma withdrawFold_last tax mi idx (l : list SavingsEvent) : forall a d,
  l <> [] -> eventRef (fold_left (withdraw tax mi idx) l a) = Some (last l d).
Proof.
  induction l as [|e l IH]; intros a d Hne; [contradiction|].
  destruct l as [|e' l']; [reflexivity|].
  change (fold_left (withdraw tax mi idx) (e :: e' :: l') a)
    with (fold_left (withdraw tax mi idx) (e' :: l') (withdraw tax mi idx a e)).
  change (last (e :: e' :: l') d) with (last (e' :: l') d).
  apply IH. discriminate.
Qed.

Lemma last_In {A} (l : list A) d : l <> [] -> In (last l d) l.
Proof.
  induction l as [|x l IH]; intros Hne; [contradiction|].
  destruct l as [|y l']; [left; reflexivity|].
  right. apply IH. discriminate.
Qed.

Lemma sorted_map_filter {A} (key : A -> Z) (p : A -> bool) l :
  StronglySorted Z.lt (map key l) -> StronglySorted Z.lt (map key (filter p l)).
Proof.
  induction l as [|x l IH]; intros Hs; [constructor|].
  simpl in Hs. inversion Hs as [|? ? Hs' Hx]; subst. simpl.
  destruct (p x); [|apply IH, Hs']. simpl. constructor; [apply IH, Hs'|].
  rewrite Forall_forall in *. intros k Hk. apply Hx.
  apply in_map_iff in Hk. destruct Hk as [y [<- Hy]].
  apply in_map. apply filter_In in Hy. tauto.
Qed.

Lemma monthRange_increasing n : forall from, StronglySorted Z.lt (monthRange from n).
Proof.
  induction n as [|n IH]; intros from; [constructor|].
  rewrite monthRange_cons. constructor; [apply IH|].
  apply Forall_forall. intros k Hk. apply monthRange_In in Hk. lia.
Qed.

Lemma durations_positive (rows : list SimulationMonth) : forall p,
  StronglySorted Z.lt (map monthIndex rows) ->
  Forall (fun k => (p < k)%Z) (map monthIndex rows) ->
  Forall (fun d => (1 <= d)%Z) (durationMonthsFrom p rows).
Proof.
  induction rows as [|m rows IH]; intros p Hs Hp; [constructor|].
  simpl in Hs, Hp. inversion Hs as [|? ? Hs' Hm]; subst.
  inversion Hp as [|? ? Hpm _]; subst. simpl.
  constructor; [lia|]. apply IH; assumption.
Qed.

Lemma durations_sum (rows : list SimulationMonth) : forall p,
  sumZ (durationMonthsFrom p rows) = (last (map monthIndex rows) p - p)%Z.
Proof.
  induction rows as [|m rows IH]; intros p; [simpl; lia|].
  cbn [durationMonthsFrom sumZ fold_right]. fold (sumZ (durationMonthsFrom (monthIndex m) rows)).
  rewrite IH. cbn [map].
  rewrite (last_cons_default (monthIndex m) (map monthIndex rows) p). lia.
Qed.

Section Breakdown.
Context {host : Host}.

Lemma handleEvents_ref tax mi idx evs a0 :
  monthWithdrawalGross a0 = 0 ->
  monthWithdrawalGross (handleEvents tax mi idx evs a0) = 0 \/
  exists l, Map_get evs idx = Some l /\ l <> [] /\
            forall d, eventRef (handleEvents tax mi idx evs a0) = Some (last l d).
Proof.
  intros H0. unfold handleEvents. destruct (Map_get evs idx) as [l|]; [|left; exact H0].
  destruct l as [|e l]; [left; exact H0|]. right.
  exists (e :: l). split; [reflexivity|]. split; [discriminate|].
  intros d. apply withdrawFold_last. discriminate.
Qed.

Lemma period_schedule_rows sb scb sncb sd smi dur dep params evs :
  Forall (fun m =>
            withdrawalGross m <> None ->
            (exists g, withdrawalGross m = Some g /\ 0 < g) /\
            preWithdrawalBalance m <> None /\ realGain m <> None /\
            nominalGain m <> None /\
            exists l, Map_get evs (monthIndex m) = Some l /\ l <> [] /\
                      forall d, eventOccurred m = Some (last l d))
    (Period.schedule (runSimulationPeriod sb scb sncb sd smi dur dep params evs)).
Proof.
  apply period_schedule_Forall_exact. intros i st. cbv zeta.
  set (grown := afterGrowth _ _ dep st).
  destruct (handleEvents_ref (capitalGainsTax params / 100)
              (getMonthlyRate (annualInflation params)) (smi + i) evs grown eq_refl)
    as [H0|[l [Hget [Hne Hlast]]]].
  - unfold monthRecord. cbn [withdrawalGross]. rewrite H0, whenPositive_zero.
    intros Hc. contradiction.
  - unfold monthRecord.
    cbn [withdrawalGross preWithdrawalBalance realGain nominalGain monthIndex
         eventOccurred].
    set (a := handleEvents _ _ _ evs grown) in *.
    intros Hsome.
    destruct (whenPositive (monthWithdrawalGross a) (monthWithdrawalGross a)) as [g|] eqn:Hw;
      [|contradiction].
    apply whenPositive_Some in Hw. destruct Hw as [-> Hpos].
    rewrite !whenPositive_pos by exact Hpos.
    split; [eexists; split; [reflexivity | exact Hpos]|].
    split; [discriminate|]. split; [discriminate|]. split; [discriminate|].
    exists l. split; [exact Hget|]. split; [exact Hne | exact Hlast].
Qed.

Lemma plan_schedule_cases params events :
  schedule (calculateSavingsPlan params events) = [] \/
  schedule (calculateSavingsPlan params events) = fullSchedule (planLoop params events).
Proof.
  unfold calculateSavingsPlan. destruct (sortBy monthOffset events); [left | right];
    reflexivity.
Qed.

Lemma plan_schedule_rows params events :
  Forall (fun m => withdrawalGross m <> None -> tableRow events m)
    (schedule (calculateSavingsPlan params events)).
Proof.
  destruct (plan_schedule_cases params events) as [->| ->]; [constructor|].
  rewrite planLoop_unfold.
  apply (fold_left_invariant
           (fun st => Forall (fun m => withdrawalGross m <> None -> tableRow events m)
                        (fullSchedule st))).
  - constructor.
  - intros st k _ Hst. unfold segmentStep. cbv zeta. cbn [fullSchedule].
    apply Forall_app. split; [exact Hst|].
    unfold segmentRun. cbv zeta.
    eapply Forall_impl; [|apply period_schedule_rows].
    intros m Hm Hsome.
    destruct (Hm Hsome) as [Hg [Hpre [Hr [Hn [l [Hget [Hne Hlast]]]]]]].
    cbn [Map_set Map_get] in Hget.
    destruct (k =? monthIndex m)%Z eqn:Hk; [|discriminate].
    apply Z.eqb_eq in Hk. subst k. injection Hget as Hl.
    rewrite groupByMonth_get in Hl.
    assert (Hdue : eventsDue (monthIndex m) (sortBy monthOffset events) = l).
    { destruct (eventsDue (monthIndex m) (sortBy monthOffset events));
        [symmetry in Hl; contradiction | exact Hl]. }
    destruct (exists_last Hne) as [front [e Hfront]].
    split; [exact Hg|]. split; [exact Hpre|]. split; [exact Hr|]. split; [exact Hn|].
    exists e, front.
    assert (Hin : In e (eventsDue (monthIndex m) (sortBy monthOffset events))).
    { rewrite Hdue, Hfront. apply in_or_app. right. left; reflexivity. }
    apply filter_In in Hin. destruct Hin as [Hin Hmonth]. apply Z.eqb_eq in Hmonth.
    split; [|split; [|split]].
    + rewrite (Hlast e), Hfront, last_last. reflexivity.
    + rewrite Hdue. exact Hfront.
    + exact (Permutation_in _ (Permutation_sym (sortBy_perm monthOffset events)) Hin).
    + exact Hmonth.
Qed.

(** X22.  The breakdown table of the results view has one row for every month
    of the plan that records a withdrawal, and no other; each row carries a
    positive gross amount, a pre-withdrawal balance and both gains, and the
    goal it names is a goal of the list due in the row's month: the last of
    that month's goals in sorted order. *)
Theorem breakdown_rows_show_goals (params : FinancialParams)
    (events : list SavingsEvent) :
  let data := schedule (calculateSavingsPlan params events) in
  Forall (tableRow events) (withdrawals data) /\
  (forall m, In m data -> (In m (withdrawals data) <-> withdrawalGross m <> None)).
Proof.
  cbv zeta. pose proof (plan_schedule_rows params events) as Hrows.
  rewrite Forall_forall in Hrows.
  assert (Hpresent : forall m, truthy (withdrawalGross m) = true -> withdrawalGross m <> None).
  { intros m Hm Hnone. rewrite Hnone in Hm. discriminate. }
  split.
  - apply Forall_forall. intros m Hm. unfold withdrawals in Hm.
    apply filter_In in Hm. destruct Hm as [Hin Ht].
    apply (Hrows m Hin), Hpresent, Ht.
  - intros m Hin. unfold withdrawals. rewrite filter_In. split.
    + intros [_ Ht]. apply Hpresent, Ht.
    + intros Hsome. split; [exact Hin|].
      destruct (Hrows m Hin Hsome) as [[g [Hg Hpos]] _]. rewrite Hg. simpl.
      apply negb_true_iff. destruct (Reqb g 0) eqn:Heq; [|reflexivity].
      apply Reqb_true_iff in Heq. lra.
Qed.

(** X23.  For goals that are not in the past, the saving periods the breakdown
    table shows beside its rows are each at least one month long and add up to
    the number of months up to and including the month of the last row, which
    is at most the length of the plan. *)
Theorem breakdown_periods_add_up (params : FinancialParams)
    (e : SavingsEvent) (es : list SavingsEvent) :
  (forall x, In x (e :: es) -> (0 <= monthOffset x)%Z) ->
  let rows := withdrawals (schedule (calculateSavingsPlan params (e :: es))) in
  Forall (fun d => (1 <= d)%Z) (durationMonths rows) /\
  sumZ (durationMonths rows) = (last (map monthIndex rows) (-1) + 1)%Z /\
  (sumZ (durationMonths rows) <= lastEventMonthOf e es + 1)%Z.
Proof.
  intros Hnonneg. cbv zeta.
  set (data := schedule (calculateSavingsPlan params (e :: es))).
  pose proof (plan_schedule_indices params e es Hnonneg) as Hidx. fold data in Hidx.
  assert (Hs : StronglySorted Z.lt (map monthIndex (withdrawals data))).
  { apply sorted_map_filter. rewrite Hidx. apply monthRange_increasing. }
  assert (Hrange : forall k, In k (map monthIndex (withdrawals data)) ->
                             (0 <= k <= lastEventMonthOf e es)%Z).
  { intros k Hk. apply in_map_iff in Hk. destruct Hk as [m [<- Hm]].
    apply filter_In in Hm. destruct Hm as [Hm _].
    apply (in_map monthIndex) in Hm. rewrite Hidx in Hm.
    apply monthRange_In in Hm. lia. }
  assert (Hsum : sumZ (durationMonths (withdrawals data)) =
                 (last (map monthIndex (withdrawals data)) (-1) + 1)%Z).
  { unfold durationMonths. rewrite durations_sum. lia. }
  split; [|split].
  - apply durations_positive; [exact Hs|].
    apply Forall_forall. intros k Hk. specialize (Hrange k Hk). lia.
  - exact Hsum.
  - rewrite Hsum.
    pose proof (proj1 (lastEventMonthOf_bounds e es) e (or_introl eq_refl)) as Hle.
    pose proof (Hnonneg e (or_introl eq_refl)) as He.
    destruct (map monthIndex (withdrawals data)) as [|k ks] eqn:Hrows; [simpl; lia|].
    assert (Hin : In (last (k :: ks) (-1)%Z) (k :: ks)) by (apply last_In; discriminate).
    specialize (Hrange _ Hin). lia.
Qed.

End Breakdown.

(** X23 at work: goals due in months 6 and 12. *)
Lemma breakdown_periods_add_up_witness :
  let rows := withdrawals
                (schedule (calculateSavingsPlan (host := monthCountHost)
                             (sampleParams 7 2 25 0) [goal 6 1000; goal 12 500])) in
  (forall x, In x [goal 6 1000; goal 12 500] -> (0 <= monthOffset x)%Z) /\
  Forall (fun d => (1 <= d)%Z) (durationMonths rows).
Proof.
  cbv zeta.
  assert (H : forall x, In x [goal 6 1000; goal 12 500] -> (0 <= monthOffset x)%Z).
  { intros x [<-|[<-|[]]]; simpl; lia. }
  split; [exact H|].
  exact (proj1 (breakdown_periods_add_up (host := monthCountHost)
                  (sampleParams 7 2 25 0) (goal 6 1000) [goal 12 500] H)).
Defined.

(** ** Grouping goals by month *)

(** X25.  The grouping loop maps every month in which a goal of the list is
    due, and no other, to the goals due in that month, in list order; no month
    is mapped to an empty array, and every segment boundary of a plan has an
    entry, so that the fallback to an empty array in the segment loop is never
    taken. *)
Theorem grouping_by_month (events : list SavingsEvent) :
  NoDup (Map_keys (groupByMonth events)) /\
  (forall k, In k (Map_keys (groupByMonth events)) <-> In k (map monthOffset events)) /\
  (forall k evs, Map_get (groupByMonth events) k = Some evs <->
                 evs = eventsDue k events /\ evs <> []) /\
  (forall k, In k (eventMonthsOf events) ->
     Map_get (groupByMonth (sortBy monthOffset events)) k =
       Some (eventsDue k (sortBy monthOffset events)) /\
     eventsDue k (sortBy monthOffset events) <> []).
Proof.
  split; [apply groupByMonth_keys|]. split; [apply groupByMonth_keys|]. split.
  - intros k evs. rewrite groupByMonth_get.
    destruct (eventsDue k events) as [|e l].
    + split; [discriminate | intros [-> H]; contradiction].
    + split; [intros [= <-]; split; [reflexivity | discriminate] | intros [-> _]; reflexivity].
  - intros k Hk. rewrite groupByMonth_get.
    assert (Hne : eventsDue k (sortBy monthOffset events) <> []).
    { apply eventMonthsOf_In in Hk. apply in_map_iff in Hk. destruct Hk as [e [Hm He]].
      assert (Hin : In e (eventsDue k (sortBy monthOffset events))).
      { apply filter_In. split.
        - exact (Permutation_in _ (sortBy_perm monthOffset events) He).
        - apply Z.eqb_eq, Hm. }
      intros Hnil. rewrite Hnil in Hin. destruct Hin. }
    split; [|exact Hne].
    destruct (eventsDue k (sortBy monthOffset events)); [contradiction | reflexivity].
Qed.

(** ** The dates of the records *)

Lemma increasing_around (l1 : list Z) x l2 :
  StronglySorted Z.lt (l1 ++ x :: l2) ->
  (forall a, In a l1 -> (a < x)%Z) /\ (forall b, In b l2 -> (x < b)%Z).
Proof.
  induction l1 as [|y l1 IH]; intros Hs.
  - simpl in Hs. inversion Hs as [|? ? _ Hx]; subst.
    rewrite Forall_forall in Hx. split; [intros a []| exact Hx].
  - simpl in Hs. inversion Hs as [|? ? Hs' Hy]; subst.
    destruct (IH Hs') as [H1 H2]. split; [|exact H2].
    intros a [<-|Ha]; [|apply H1, Ha].
    rewrite Forall_forall in Hy. apply Hy. apply in_or_app. right. left; reflexivity.
Qed.

Section Dates.
Context {host : Host}.

(** A record of a segment is dated its distance from the segment's first
    month after the segment's start date. *)
Lemma period_schedule_dated sb scb sncb sd smi dur dep params evs :
  Forall (fun m =>
            (smi <= monthIndex m < smi + dur)%Z /\
            date m = formatDate (addMonths sd (monthIndex m - smi)))
    (Period.schedule (runSimulationPeriod sb scb sncb sd smi dur dep params evs)).
Proof.
  assert (Hdate : Forall (fun m => date m = formatDate (addMonths sd (monthIndex m - smi)))
            (Period.schedule
               (runSimulationPeriod sb scb sncb sd smi dur dep params evs))).
  { apply period_schedule_Forall_exact. intros i st. cbv zeta.
    unfold monthRecord. cbn [date monthIndex].
    replace (smi + i - smi)%Z with i by lia. reflexivity. }
  pose proof (period_schedule_indices sb scb sncb sd smi dur dep params evs) as Hidx.
  rewrite Forall_forall in *. intros m Hm. split; [|apply Hdate, Hm].
  apply (in_map monthIndex) in Hm. rewrite Hidx in Hm.
  apply monthRange_In in Hm. lia.
Qed.

Lemma segmentFold_dated params sd sorted ebm (events : list SavingsEvent) :
  forall ms done st,
    StronglySorted Z.lt (done ++ ms) ->
    (forall k, In k (done ++ ms) <-> In k (map monthOffset events)) ->
    (forall k, In k done -> (k < currentMonth st)%Z) ->
    (currentMonth st = 0%Z \/
     In (currentMonth st - 1)%Z (map monthOffset events)) ->
    Forall (fun m => exists s,
              segmentStartOf events (monthIndex m) s /\
              date m = formatDate (addMonths (addMonths sd s) (monthIndex m - s)))
      (fullSchedule st) ->
    Forall (fun m => exists s,
              segmentStartOf events (monthIndex m) s /\
              date m = formatDate (addMonths (addMonths sd s) (monthIndex m - s)))
      (fullSchedule (fold_left (segmentStep params sd sorted ebm) ms st)).
Proof.
  induction ms as [|k ms IH]; intros done st Hs Hmonths Hdone Hcm Hst; [exact Hst|].
  cbn [fold_left].
  destruct (increasing_around done k ms Hs) as [Hbefore Hafter].
  apply (IH (done ++ [k])).
  - rewrite <- app_assoc. exact Hs.
  - intros x. rewrite <- app_assoc. apply Hmonths.
  - intros x Hx. unfold segmentStep. cbv zeta. cbn [currentMonth].
    apply in_app_or in Hx. destruct Hx as [Hx|[<-|[]]]; [|lia].
    specialize (Hbefore x Hx). lia.
  - right. unfold segmentStep. cbv zeta. cbn [currentMonth].
    replace (k + 1 - 1)%Z with k by lia.
    apply Hmonths. apply in_or_app. right. left; reflexivity.
  - unfold segmentStep. cbv zeta. cbn [fullSchedule].
    apply Forall_app. split; [exact Hst|].
    unfold segmentRun. cbv zeta.
    eapply Forall_impl; [|apply period_schedule_dated].
    intros m [Hrange Hdate]. exists (currentMonth st).
    split; [|exact Hdate].
    split; [lia|]. split; [exact Hcm|].
    intros e He Hin.
    assert (Hk : In (monthOffset e) (done ++ k :: ms))
      by (apply Hmonths, in_map, He).
    apply in_app_or in Hk. destruct Hk as [Hk|[Hk|Hk]].
    + specialize (Hdone _ Hk). lia.
    + lia.
    + specialize (Hafter _ Hk). lia.
Qed.

(** X26.  Every record of a plan is dated by two steps of the host's month
    arithmetic: from the start date to the first month of the record's
    segment, and from there to the record's own month.  The first month of a
    segment is month 0 or the month after a goal month, and no goal is due
    between it and the record's month. *)
Theorem record_dates_follow_segments (params : FinancialParams)
    (events : list SavingsEvent) :
  Forall (fun m => exists s,
            segmentStartOf events (monthIndex m) s /\
            date m = formatDate
                       (addMonths (addMonths (newDate (startDate params)) s)
                          (monthIndex m - s)))
    (schedule (calculateSavingsPlan params events)).
Proof.
  destruct (plan_schedule_cases params events) as [->| ->]; [constructor|].
  rewrite planLoop_unfold.
  apply (segmentFold_dated params _ _ _ events (eventMonthsOf events) []).
  - apply eventMonthsOf_increasing.
  - intros k. apply eventMonthsOf_In.
  - intros k [].
  - left. reflexivity.
  - constructor.
Qed.

End Dates.

(** ** Tax on real gains *)

Lemma profitRatio_range basis bal : 0 <= basis -> 0 <= profitRatio basis bal <= 1.
Proof.
  intros Hb. unfold profitRatio, Math_max.
  destruct (Rgtb bal 0) eqn:Hpos; [|lra].
  apply Rgtb_true_iff in Hpos.
  assert (Hq : 0 <= basis / bal).
  { unfold Rdiv. apply Rmult_le_pos; [exact Hb|]. left. apply Rinv_0_lt_compat, Hpos. }
  destruct (Rleb 0 (1 - basis / bal)) eqn:Hle; [|lra].
  apply Rleb_true_iff in Hle. lra.
Qed.

Lemma profitRatio_overdrawn basis bal : bal <= 0 -> profitRatio basis bal = 0.
Proof.
  intros H. unfold profitRatio.
  replace (Rgtb bal 0) with false by (symmetry; cmp_false). reflexivity.
Qed.

Lemma profitRatio_pos basis bal : 0 <= basis < bal -> 0 < profitRatio basis bal.
Proof.
  intros [Hb Hlt]. unfold profitRatio, Math_max.
  replace (Rgtb bal 0) with true by (symmetry; cmp_true).
  assert (Hpos : 0 < bal) by lra.
  pose proof (Rinv_0_lt_compat _ Hpos) as Hj.
  assert (Hone : bal * / bal = 1) by (apply Rinv_r; lra).
  assert (Hq : basis / bal < 1) by (unfold Rdiv; nra).
  destruct (Rleb 0 (1 - basis / bal)) eqn:Hle; [lra|].
  apply Rleb_false_iff in Hle. lra.
Qed.

(** The gross amount for a net target that is not negative, at a tax rate from
    0 up to, but not including, 1 and a cost basis that is not negative. *)
Lemma grossNeeded_bounds t target basis bal :
  0 <= t < 1 -> 0 <= basis -> 0 <= target ->
  let rho := profitRatio basis bal in
  let gross := grossNeeded t target basis bal in
  target <= gross /\ gross * (1 - t) <= target /\
  gross - target = gross * rho * t /\
  (0 < t -> 0 < rho -> 0 < target -> target < gross).
Proof.
  intros Ht Hb Htarget. cbv zeta.
  pose proof (profitRatio_range basis bal Hb) as Hrho.
  unfold grossNeeded. set (rho := profitRatio basis bal) in *.
  assert (Hden : 0 < 1 - rho * t) by nra.
  assert (Hg : target / (1 - rho * t) * (1 - rho * t) = target) by (field; lra).
  assert (Hg0 : 0 <= target / (1 - rho * t)).
  { unfold Rdiv. apply Rmult_le_pos; [exact Htarget|].
    left. apply Rinv_0_lt_compat, Hden. }
  set (g := target / (1 - rho * t)) in *.
  assert (Hgrt : 0 <= g * rho) by (apply Rmult_le_pos; lra).
  assert (Hgrt' : 0 <= g * rho * t) by (apply Rmult_le_pos; lra).
  assert (Hgt : 0 <= g * t) by (apply Rmult_le_pos; lra).
  assert (Hgt' : 0 <= g * t * (1 - rho)) by (apply Rmult_le_pos; lra).
  assert (Htax : g - target = g * rho * t) by (rewrite <- Hg; ring).
  split; [lra|]. split; [rewrite <- Hg; lra|]. split; [exact Htax|].
  intros Ht0 Hrho0 Htarget0.
  assert (Hgpos : 0 < g).
  { destruct (Rle_lt_or_eq_dec _ _ Hg0) as [H|H]; [exact H|].
    rewrite <- H in Hg. lra. }
  assert (Hprod : 0 < g * rho * t).
  { apply Rmult_lt_0_compat; [apply Rmult_lt_0_compat|]; assumption. }
  lra.
Qed.

Lemma withdraw_taxBooks t mi idx a e :
  0 <= t < 1 -> 0 <= targetAmount e ->
  taxBooks a -> taxBooks (withdraw t mi idx a e).
Proof.
  intros Ht He Ha. unfold taxBooks in *.
  destruct (withdraw_bases t mi idx a e) as [Hbal [Hcb _]]. cbv zeta in Hbal, Hcb.
  rewrite Hbal, Hcb. clear Hbal Hcb.
  unfold withdraw. cbv zeta.
  cbn [monthTaxPaid monthRealGain monthWithdrawalGross monthWithdrawalNet].
  assert (Htarget : 0 <= targetNetNominal mi idx e).
  { unfold targetNetNominal, inflationFactor, Math_pow.
    apply Rmult_le_pos; [exact He|]. left. apply Rpower_pos. }
  set (target := targetNetNominal mi idx e) in *.
  intros Hafter.
  destruct (Rlt_dec 0 (balance a)) as [Hpos|Hnpos].
  - destruct Ha as [HC [HN [HT [HR Hno]]]]; [lra|].
    destruct (grossNeeded_bounds t target (accCostBasis a) (balance a) Ht HC Htarget)
      as [Hge [_ [Htax _]]].
    pose proof (profitRatio_range (accCostBasis a) (balance a) HC) as Hrho.
    set (rho := profitRatio (accCostBasis a) (balance a)) in *.
    set (g := grossNeeded t target (accCostBasis a) (balance a)) in *.
    assert (Hg0 : 0 <= g) by lra.
    assert (Hgr : 0 <= g * rho) by (apply Rmult_le_pos; lra).
    assert (Hgr1 : g * rho <= g) by nra.
    replace (Rgtb (balance a) 0) with true by (symmetry; cmp_true).
    pose proof (Rinv_0_lt_compat _ Hpos) as Hj.
    assert (Hone : balance a * / balance a = 1) by (apply Rinv_r; lra).
    unfold Rdiv. set (j := / balance a) in *.
    assert (Hratio : 0 <= 1 - g * j) by nra.
    split; [apply Rmult_le_pos; assumption|].
    split; [lra|]. split; [lra|]. split; [lra|].
    intros Hzero.
    assert (HR0 : monthRealGain a = 0) by lra.
    assert (Hgr0 : g * rho = 0) by lra.
    rewrite (Hno HR0), Htax, Hgr0. lra.
  - assert (Hrho : profitRatio (accCostBasis a) (balance a) = 0)
      by (apply profitRatio_overdrawn; lra).
    assert (Hg : grossNeeded t target (accCostBasis a) (balance a) = target).
    { unfold grossNeeded. rewrite Hrho. field. }
    rewrite Hrho, Hg in *.
    replace (Rgtb (balance a) 0) with false by (symmetry; cmp_false).
    destruct Ha as [HC [HN [HT [HR Hno]]]]; [lra|].
    split; [lra|]. split; [lra|]. split; [lra|]. split; [lra|].
    intros Hzero. assert (HR0 : monthRealGain a = 0) by lra.
    rewrite (Hno HR0). lra.
Qed.

Lemma orZero_whenPositive_self x : 0 <= x -> orZero (whenPositive x x) = x.
Proof.
  intros Hx. unfold whenPositive. destruct (Rgtb x 0) eqn:H; [reflexivity|].
  apply Rgtb_false_iff in H. simpl. lra.
Qed.

Lemma orZero_whenPositive_part total v :
  0 <= v <= total -> orZero (whenPositive total v) = v.
Proof.
  intros Hv. unfold whenPositive. destruct (Rgtb total 0) eqn:H; [reflexivity|].
  apply Rgtb_false_iff in H. simpl. lra.
Qed.

Section TaxRule.
Context {host : Host}.

Lemma handleEvents_taxBooks t mi idx evs a :
  0 <= t < 1 -> targetsNonNegative evs ->
  taxBooks a -> taxBooks (handleEvents t mi idx evs a).
Proof.
  intros Ht Hevs Ha. unfold handleEvents.
  destruct (Map_get evs idx) as [l|] eqn:Hget; [|exact Ha].
  apply (fold_left_invariant taxBooks); [exact Ha|].
  intros a' e He Ha'. apply withdraw_taxBooks; [exact Ht | | exact Ha'].
  exact (Hevs idx l e Hget He).
Qed.

Lemma afterGrowth_taxBooks mr mi dep st :
  0 < 1 + mi -> 0 <= dep -> 0 <= simCostBasis st ->
  taxBooks (afterGrowth mr mi dep st).
Proof.
  intros Hmi Hdep Hcb _. unfold afterGrowth.
  cbn [accCostBasis monthTaxPaid monthRealGain monthWithdrawalGross
       monthWithdrawalNet].
  split; [apply Rmult_le_pos; lra|]. repeat split; lra.
Qed.

Lemma record_taxBounds sd smi i dep bs pre a :
  taxBooks a -> 0 <= balance a ->
  taxBounds (monthRecord sd smi i dep bs pre a).
Proof.
  intros Ha Hbal. destruct (Ha Hbal) as [_ [HN [HT [HR Hno]]]].
  unfold taxBounds, monthRecord.
  cbn [taxPaid realGain withdrawalNet withdrawalGross].
  rewrite (orZero_whenPositive_self (monthWithdrawalNet a)) by lra.
  rewrite (orZero_whenPositive_self (monthWithdrawalGross a)) by lra.
  rewrite (orZero_whenPositive_self (monthTaxPaid a)) by lra.
  rewrite (orZero_whenPositive_part (monthWithdrawalGross a) (monthRealGain a)) by lra.
  split; [lra|]. split; [lra|]. split; [lra | exact Hno].
Qed.

Lemma monthLoop_taxBounds sd smi dep params evs sb scb sncb :
  0 <= capitalGainsTax params < 100 -> 0 <= dep -> 0 <= scb ->
  targetsNonNegative evs ->
  forall n,
    let st := monthLoop (monthStep sd smi dep params evs) n 0%Z
                (startState sb scb sncb) in
    Forall (fun m => 0 <= balanceEnd m) (simSchedule st) ->
    0 <= simCostBasis st /\ Forall taxBounds (simSchedule st).
Proof.
  intros Htax Hdep Hscb Hevs n. cbv zeta.
  assert (Ht : 0 <= capitalGainsTax params / 100 < 1) by lra.
  induction n as [|n IH].
  - intros _. split; [exact Hscb | constructor].
  - rewrite monthLoop_snoc.
    set (st := monthLoop (monthStep sd smi dep params evs) n 0%Z
                 (startState sb scb sncb)) in *.
    rewrite monthStep_schedule. intros Hall.
    apply Forall_app in Hall. destruct Hall as [Hprev Hlast].
    destruct (IH Hprev) as [Hcb Hrule].
    inversion Hlast as [|? ? Hend _]; subst. cbn [balanceEnd monthRecord] in Hend.
    assert (Hbooks : taxBooks
                       (handleEvents (capitalGainsTax params / 100)
                          (getMonthlyRate (annualInflation params))
                          (smi + (0 + Z.of_nat n)) evs
                          (afterGrowth (getMonthlyRate (annualReturn params))
                             (getMonthlyRate (annualInflation params)) dep st))).
    { apply handleEvents_taxBooks; [exact Ht | exact Hevs|].
      apply afterGrowth_taxBooks; [|exact Hdep | exact Hcb].
      unfold getMonthlyRate, Math_pow.
      pose proof (Rpower_pos (1 + annualInflation params / 100) (1 / 12)). lra. }
    split.
    + unfold monthStep. cbn [simCostBasis]. exact (proj1 (Hbooks Hend)).
    + apply Forall_app; split; [exact Hrule|]. constructor; [|constructor].
      apply record_taxBounds; [exact Hbooks | exact Hend].
Qed.

(** X27.  Tax is paid on real gains only.  With a tax rate from 0% up to, but
    not including, 100%, a deposit and a starting real cost basis that are not
    negative and goals whose targets are not negative, in a simulation none of
    whose months ends overdrawn every record shows a net withdrawal, a tax and
    a real gain between 0 and the gross withdrawal it shows, and no tax where
    it shows no real gain; the real cost basis is not negative at the end. *)
Theorem tax_only_on_real_gain (params : FinancialParams)
    sb scb sncb sd smi dur dep evs :
  0 <= capitalGainsTax params < 100 ->
  0 <= dep -> 0 <= scb -> targetsNonNegative evs ->
  let run := runSimulationPeriod sb scb sncb sd smi dur dep params evs in
  Forall (fun m => 0 <= balanceEnd m) (Period.schedule run) ->
  Forall taxBounds (Period.schedule run) /\
  0 <= Period.finalCostBasis run.
Proof.
  intros Htax Hdep Hscb Hevs. cbv zeta. intros Hall.
  unfold runSimulationPeriod in *. cbn [Period.schedule Period.finalCostBasis] in *.
  destruct (monthLoop_taxBounds sd smi dep params evs sb scb sncb Htax Hdep Hscb Hevs
              (Z.to_nat dur) Hall) as [H1 H2].
  split; assumption.
Qed.

End TaxRule.

(** X27 at work: a goal of 10 taken from an account of 100 with a real cost
    basis of 50, taxed at 25%. *)
Lemma tax_only_on_real_gain_witness :
  let params := sampleParams 0 0 25 0 in
  let evs := [(0%Z, [goal 0 10])] in
  let run :=
    runSimulationPeriod (host := monthCountHost) 100 50 50 0%Z 0 1 0 params evs in
  0 <= capitalGainsTax params < 100 /\ 0 <= 0 /\ 0 <= 50 /\ targetsNonNegative evs /\
  Forall (fun m => 0 <= balanceEnd m) (Period.schedule run) /\
  Forall taxBounds (Period.schedule run).
Proof.
  cbv zeta.
  assert (Htax : 0 <= capitalGainsTax (sampleParams 0 0 25 0) < 100) by (simpl; lra).
  assert (H0 : 0 <= 0) by lra.
  assert (H50 : 0 <= 50) by lra.
  assert (Hevs : targetsNonNegative [(0%Z, [goal 0 10])]).
  { intros k l e Hget He. cbn [Map_get] in Hget.
    destruct (0 =? k)%Z; [|discriminate].
    injection Hget as <-. destruct He as [<-|[]]. simpl. lra. }
  assert (Hall : Forall (fun m => 0 <= balanceEnd m)
            (Period.schedule
               (runSimulationPeriod (host := monthCountHost) 100 50 50 0%Z 0 1 0
                  (sampleParams 0 0 25 0) [(0%Z, [goal 0 10])]))).
  { unfold runSimulationPeriod. change (Z.to_nat 1) with 1%nat.
    cbn [monthLoop monthStep Period.schedule simSchedule app].
    constructor; [|constructor].
    unfold monthRecord. cbn [balanceEnd]. unfold handleEvents.
    change (0 + 0)%Z with 0%Z. cbn [Map_get Z.eqb fold_left].
    cbn [sampleParams annualReturn annualInflation capitalGainsTax].
    rewrite getMonthlyRate_zero.
    set (grown := afterGrowth 0 0 0 _).
    destruct (withdraw_bases (25 / 100) 0 0 grown (goal 0 10)) as [Hbal _].
    cbv zeta in Hbal. rewrite Hbal. clear Hbal.
    unfold grossNeeded, targetNetNominal. rewrite inflationFactor_zero.
    assert (Hrho : 0 <= profitRatio (accCostBasis grown) (balance grown) <= 1).
    { apply profitRatio_range. unfold grown, afterGrowth. simpl. lra. }
    set (rho := profitRatio _ _) in *.
    assert (Hb : balance grown = 100) by (unfold grown, afterGrowth; simpl; lra).
    rewrite Hb. cbn [targetAmount goal].
    assert (Hden : 3 / 4 <= 1 - rho * (25 / 100)) by lra.
    assert (Hinv : / (1 - rho * (25 / 100)) <= / (3 / 4))
      by (apply Rinv_le_contravar; lra).
    unfold Rdiv at 1. replace (/ (3 / 4)) with (4 / 3) in Hinv by field. lra. }
  split; [exact Htax|]. split; [exact H0|]. split; [exact H50|]. split; [exact Hevs|].
  split; [exact Hall|].
  exact (proj1 (tax_only_on_real_gain (host := monthCountHost)
                  (sampleParams 0 0 25 0) 100 50 50 0%Z 0 1 0 [(0%Z, [goal 0 10])]
                  Htax H0 H50 Hevs Hall)).
Defined.

(** ** Dates are cosmetic *)

Lemma withdraw_accSame tax mi idx a b e :
  accSame a b -> accSame (withdraw tax mi idx a e) (withdraw tax mi idx b e).
Proof.
  destruct a, b. unfold accSame. simpl.
  intros [H1 [H2 [H3 [H4 [H5 [H6 [H7 [H8 [H9 H10]]]]]]]]]. subst.
  repeat split; reflexivity.
Qed.

Lemma handleEvents_accSame tax mi idx evs a b :
  accSame a b -> accSame (handleEvents tax mi idx evs a) (handleEvents tax mi idx evs b).
Proof.
  intros H. unfold handleEvents.
  destruct (Map_get evs idx) as [monthEvents|]; [|exact H].
  revert a b H. induction monthEvents as [|e l IH]; intros a b H; [exact H|].
  cbn [fold_left]. apply IH, withdraw_accSame, H.
Qed.

Lemma sum_dateless (g : SimulationMonth -> R) (l l' : list SimulationMonth) :
  (forall m, g (eraseDate m) = g m) ->
  map eraseDate l = map eraseDate l' ->
  fold_left (fun acc m => acc + g m) l 0 = fold_left (fun acc m => acc + g m) l' 0.
Proof.
  intros Hg Hl.
  assert (H : forall k a, fold_left (fun acc m => acc + g m) k a =
                          fold_left (fun acc m => acc + g m) (map eraseDate k) a).
  { induction k as [|m k IH]; intros a; [reflexivity|]. simpl. rewrite Hg. apply IH. }
  rewrite (H l), (H l'), Hl. reflexivity.
Qed.

Lemma existsb_dateless (g : SimulationMonth -> bool) (l l' : list SimulationMonth) :
  (forall m, g (eraseDate m) = g m) ->
  map eraseDate l = map eraseDate l' ->
  existsb g l = existsb g l'.
Proof.
  intros Hg Hl.
  assert (H : forall k, existsb g k = existsb g (map eraseDate k)).
  { induction k as [|m k IH]; [reflexivity|]. simpl. rewrite Hg, IH. reflexivity. }
  rewrite (H l), (H l'), Hl. reflexivity.
Qed.

Section Cosmetic.
Variables hostA hostB : Host.
Variables p q : FinancialParams.
Hypothesis Hpq : sameNumbers p q.

Lemma monthStep_dateless sdA sdB smi dep evs j a b :
  simSame a b ->
  simSame (monthStep (host := hostA) sdA smi dep p evs j a)
          (monthStep (host := hostB) sdB smi dep q evs j b).
Proof.
  destruct Hpq as [Hr [Hi [Ht _]]].
  intros [H1 [H2 [H3 [H4 H5]]]].
  unfold monthStep. rewrite <- Hr, <- Hi, <- Ht.
  set (grownA := afterGrowth _ _ dep a).
  set (grownB := afterGrowth _ _ dep b).
  assert (Hg : accSame grownA grownB).
  { unfold accSame, grownA, grownB, afterGrowth. simpl.
    rewrite H1, H2, H3. repeat split; try reflexivity. exact H4. }
  pose proof (handleEvents_accSame (capitalGainsTax p / 100)
                (getMonthlyRate (annualInflation p)) (smi + j) evs
                grownA grownB Hg) as Ha.
  set (aA := handleEvents _ _ _ evs grownA) in *.
  set (aB := handleEvents _ _ _ evs grownB) in *.
  destruct Ha as [A1 [A2 [A3 [A4 [A5 [A6 [A7 [A8 [A9 A10]]]]]]]]].
  assert (Hpre : monthPreWithdrawalBalance (smi + j) evs grownA =
                 monthPreWithdrawalBalance (smi + j) evs grownB).
  { unfold monthPreWithdrawalBalance.
    destruct (Map_get evs (smi + j)); [|reflexivity].
    destruct Hg as [Hb _]. exact Hb. }
  unfold simSame.
  cbn [simBalance simCostBasis simNominalCostBasis simFailed simSchedule].
  split; [exact A1|]. split; [exact A2|]. split; [exact A3|]. split.
  - rewrite A1, A10. reflexivity.
  - rewrite !map_app, H5. f_equal. cbn [map]. f_equal.
    unfold eraseDate, monthRecord. simpl.
    rewrite H1, Hpre, A1, A2, A4, A5, A6, A7, A8, A9. reflexivity.
Qed.

Lemma monthLoop_dateless sdA sdB smi dep evs k : forall j a b,
  simSame a b ->
  simSame (monthLoop (monthStep (host := hostA) sdA smi dep p evs) k j a)
          (monthLoop (monthStep (host := hostB) sdB smi dep q evs) k j b).
Proof.
  induction k as [|k IH]; intros j a b H; [exact H|].
  cbn [monthLoop]. apply IH, monthStep_dateless, H.
Qed.

Lemma runSimulationPeriod_dateless sb scb sncb sdA sdB smi dur dep evs :
  periodSame
    (runSimulationPeriod (host := hostA) sb scb sncb sdA smi dur dep p evs)
    (runSimulationPeriod (host := hostB) sb scb sncb sdB smi dur dep q evs).
Proof.
  unfold runSimulationPeriod, periodSame.
  cbn [Period.finalBalance Period.finalCostBasis Period.finalNominalCostBasis
       Period.failed Period.schedule].
  apply (monthLoop_dateless sdA sdB smi dep evs (Z.to_nat dur) 0%Z).
  repeat split; reflexivity.
Qed.

Lemma solveRequiredDeposit_dateless sb scb sncb sdA sdB smi events :
  solveRequiredDeposit (host := hostA) sb scb sncb sdA smi events p =
  solveRequiredDeposit (host := hostB) sb scb sncb sdB smi events q.
Proof.
  unfold solveRequiredDeposit. destruct events as [|e es]; [reflexivity|].
  cbv zeta.
  assert (Hext : forall x,
             lookaheadFails (host := hostA) sb scb sncb sdA smi e es p x =
             lookaheadFails (host := hostB) sb scb sncb sdB smi e es q x).
  { intros x. unfold lookaheadFails. cbv zeta.
    exact (proj1 (proj2 (proj2 (proj2
             (runSimulationPeriod_dateless sb scb sncb sdA sdB smi
                (lastEventMonthOf e es - smi + 1) x (groupByMonth (e :: es))))))). }
  rewrite (bisect_ext _ _ 20 Hext). reflexivity.
Qed.

Lemma segmentStep_dateless sdA sdB sorted ebm a b m :
  planSame a b ->
  planSame (segmentStep (host := hostA) p sdA sorted ebm a m)
           (segmentStep (host := hostB) q sdB sorted ebm b m).
Proof.
  intros [H1 [H2 [H3 [H4 [H5 H6]]]]].
  assert (Hd : segmentDeposit (host := hostA) p sdA sorted a =
               segmentDeposit (host := hostB) q sdB sorted b).
  { unfold segmentDeposit. cbv zeta. rewrite H1, H2, H3, H4, H5.
    rewrite (solveRequiredDeposit_dateless (currentBalance b) (currentCostBasis b)
               (currentNominalCostBasis b)
               (addMonths (Host := hostA) sdA (currentMonth b))
               (addMonths (Host := hostB) sdB (currentMonth b))).
    reflexivity. }
  unfold segmentStep. cbv zeta. rewrite Hd.
  set (d := segmentDeposit (host := hostB) q sdB sorted b).
  assert (Hrun : periodSame (segmentRun (host := hostA) p sdA ebm a m d)
                            (segmentRun (host := hostB) q sdB ebm b m d)).
  { unfold segmentRun. cbv zeta. rewrite H1, H2, H3, H4.
    apply runSimulationPeriod_dateless. }
  destruct Hrun as [R1 [R2 [R3 [_ R5]]]].
  unfold planSame.
  cbn [currentBalance currentCostBasis currentNominalCostBasis currentMonth
       maxDepositConstraint fullSchedule].
  rewrite !map_app, H6, R5.
  repeat split; try reflexivity; assumption.
Qed.

Lemma segmentFold_dateless sdA sdB sorted ebm ms : forall a b,
  planSame a b ->
  planSame (fold_left (segmentStep (host := hostA) p sdA sorted ebm) ms a)
           (fold_left (segmentStep (host := hostB) q sdB sorted ebm) ms b).
Proof.
  induction ms as [|m ms IH]; intros a b H; [exact H|].
  cbn [fold_left]. apply IH, segmentStep_dateless, H.
Qed.

Lemma planLoop_dateless events :
  planSame (planLoop (host := hostA) p events) (planLoop (host := hostB) q events).
Proof.
  unfold planLoop. cbv zeta. apply segmentFold_dateless.
  destruct Hpq as [_ [_ [_ Hc]]].
  unfold planSame, initialPlanState.
  cbn [currentBalance currentCostBasis currentNominalCostBasis currentMonth
       maxDepositConstraint fullSchedule].
  repeat split; try reflexivity; exact Hc.
Qed.

(** X28.  Dates are cosmetic.  Two parameter objects that differ at most in
    their start date, on hosts that may compute and format dates differently,
    give plans with the same success flag, final balance and totals, and
    schedules that differ at most in the date strings of their records. *)
Theorem dates_are_cosmetic (events : list SavingsEvent) :
  let planA := calculateSavingsPlan (host := hostA) p events in
  let planB := calculateSavingsPlan (host := hostB) q events in
  success planA = success planB /\
  finalBalance planA = finalBalance planB /\
  totalDeposited planA = totalDeposited planB /\
  totalWithdrawnNet planA = totalWithdrawnNet planB /\
  totalTaxPaid planA = totalTaxPaid planB /\
  map eraseDate (schedule planA) = map eraseDate (schedule planB).
Proof.
  cbv zeta. unfold calculateSavingsPlan. cbv zeta.
  destruct (sortBy monthOffset events) as [|e0 sorted].
  - destruct Hpq as [_ [_ [_ Hc]]].
    cbn [success finalBalance totalDeposited totalWithdrawnNet totalTaxPaid schedule].
    repeat split; try reflexivity. exact Hc.
  - destruct (planLoop_dateless events) as [H1 [_ [_ [_ [_ H6]]]]].
    cbn [success finalBalance totalDeposited totalWithdrawnNet totalTaxPaid schedule].
    split; [|split; [|split; [|split; [|split]]]].
    + f_equal. apply existsb_dateless; [reflexivity | exact H6].
    + exact H1.
    + apply (sum_dateless deposit); [reflexivity | exact H6].
    + apply (sum_dateless (fun m => orZero (withdrawalNet m))); [reflexivity | exact H6].
    + apply (sum_dateless (fun m => orZero (taxPaid m))); [reflexivity | exact H6].
    + exact H6.
Qed.

End Cosmetic.

(** X28 at work: the same plan from another start date on another host. *)
Lemma dates_are_cosmetic_witness :
  let p := sampleParams 7 2 25 0 in
  let q := {| startDate := "2030-01-01"; annualReturn := 7; annualInflation := 2;
              capitalGainsTax := 25; initialCapital := 0 |} in
  sameNumbers p q /\
  finalBalance (calculateSavingsPlan (host := monthCountHost) p [goal 6 1000]) =
  finalBalance (calculateSavingsPlan (host := blankDateHost) q [goal 6 1000]).
Proof.
  cbv zeta.
  assert (H : sameNumbers (sampleParams 7 2 25 0)
                {| startDate := "2030-01-01"; annualReturn := 7; annualInflation := 2;
                   capitalGainsTax := 25; initialCapital := 0 |}).
  { unfold sameNumbers. simpl. repeat split; reflexivity. }
  split; [exact H|].
  exact (proj1 (proj2 (dates_are_cosmetic monthCountHost blankDateHost _ _ H
                         [goal 6 1000]))).
Defined.

(** ** Tax on real gains, for a whole plan *)

Lemma tenTimes_nonneg hi d : tenTimes 0 hi d -> 0 <= d.
Proof.
  intros [k [-> [Hk _]]]. apply IZR_le in Hk. lra.
Qed.

Lemma zero_sum (f : SimulationMonth -> R) (l : list SimulationMonth) :
  Forall (fun m => f m = 0) l -> fold_left (fun acc m => acc + f m) l 0 = 0.
Proof.
  induction 1 as [|m l Hm _ IH]; [reflexivity|].
  simpl. rewrite Hm, Rplus_0_r. exact IH.
Qed.

Section PlanTaxRule.
Context {host : Host}.

Lemma segmentFold_prefix params sd sorted ebm ms : forall st,
  exists rest,
    fullSchedule (fold_left (segmentStep params sd sorted ebm) ms st) =
    fullSchedule st ++ rest.
Proof.
  induction ms as [|m ms IH]; intros st.
  - exists []. rewrite app_nil_r. reflexivity.
  - cbn [fold_left]. destruct (IH (segmentStep params sd sorted ebm st m)) as [rest Hrest].
    rewrite Hrest. unfold segmentStep at 1. cbv zeta. cbn [fullSchedule].
    rewrite <- app_assoc. eexists. reflexivity.
Qed.

Lemma segmentFold_taxBounds params sd sorted ebm :
  0 <= capitalGainsTax params < 100 -> targetsNonNegative ebm ->
  forall ms st,
    depositsWithin 0 st -> 0 <= currentCostBasis st ->
    Forall taxBounds (fullSchedule st) ->
    Forall (fun m => 0 <= balanceEnd m)
      (fullSchedule (fold_left (segmentStep params sd sorted ebm) ms st)) ->
    Forall taxBounds
      (fullSchedule (fold_left (segmentStep params sd sorted ebm) ms st)).
Proof.
  intros Htax Hebm. induction ms as [|m ms IH]; intros st Hdep Hcb Hrule Hall;
    [exact Hrule|].
  cbn [fold_left] in *.
  assert (Hdep' : depositsWithin 0 (segmentStep params sd sorted ebm st m)).
  { apply segmentStep_depositsWithin; [exact Hdep | apply solveRequiredDeposit_range]. }
  assert (Hd : 0 <= segmentDeposit params sd sorted st).
  { apply (tenTimes_nonneg 100000). apply (proj2 Hdep'). reflexivity. }
  assert (Hseg : Forall (fun m => 0 <= balanceEnd m)
                   (fullSchedule (segmentStep params sd sorted ebm st m))).
  { destruct (segmentFold_prefix params sd sorted ebm ms
                (segmentStep params sd sorted ebm st m)) as [rest Hrest].
    rewrite Hrest in Hall. apply Forall_app in Hall. exact (proj1 Hall). }
  unfold segmentStep in Hseg. cbv zeta in Hseg. cbn [fullSchedule] in Hseg.
  apply Forall_app in Hseg. destruct Hseg as [_ Hseg].
  unfold segmentRun, runSimulationPeriod in Hseg. cbv zeta in Hseg.
  cbn [Period.schedule] in Hseg.
  assert (Hevs : targetsNonNegative
                   (Map_set [] m
                      match Map_get ebm m with Some evs => evs | None => [] end)).
  { intros k l e Hget He. cbn [Map_set Map_get] in Hget.
    destruct (m =? k)%Z; [|discriminate]. injection Hget as <-.
    destruct (Map_get ebm m) as [evs|] eqn:Hm; [|destruct He].
    exact (Hebm m evs e Hm He). }
  destruct (monthLoop_taxBounds (addMonths sd (currentMonth st)) (currentMonth st)
              (segmentDeposit params sd sorted st) params _
              (currentBalance st) (currentCostBasis st) (currentNominalCostBasis st)
              Htax Hd Hcb Hevs _ Hseg) as [Hcb' Hrule'].
  apply IH.
  - exact Hdep'.
  - exact Hcb'.
  - unfold segmentStep. cbv zeta. cbn [fullSchedule].
    apply Forall_app. split; [exact Hrule | exact Hrule'].
  - exact Hall.
Qed.

(** X29.  Tax on real gains, for a whole plan.  With a tax rate from 0% up to,
    but not including, 100%, an initial capital that is not negative and goals
    whose targets are not negative, in a plan none of whose months ends
    overdrawn every record shows a net withdrawal, a tax and a real gain
    between 0 and the gross withdrawal it shows, and no tax where it shows no
    real gain; when no record shows a real gain the total tax paid is 0. *)
Theorem plan_tax_only_on_real_gain (params : FinancialParams)
    (events : list SavingsEvent) :
  0 <= capitalGainsTax params < 100 ->
  0 <= initialCapital params ->
  (forall e, In e events -> 0 <= targetAmount e) ->
  let plan := calculateSavingsPlan params events in
  Forall (fun m => 0 <= balanceEnd m) (schedule plan) ->
  Forall taxBounds (schedule plan) /\
  (Forall (fun m => orZero (realGain m) = 0) (schedule plan) ->
   totalTaxPaid plan = 0).
Proof.
  intros Htax Hcap Htargets. cbv zeta. intros Hall.
  assert (Hrule : Forall taxBounds (schedule (calculateSavingsPlan params events))).
  { destruct (plan_schedule_cases params events) as [Hnil|Hfull];
      [rewrite Hnil; constructor|].
    rewrite Hfull in *. rewrite planLoop_unfold in *.
    apply segmentFold_taxBounds; try assumption.
    - intros k l e Hget He. rewrite groupByMonth_get in Hget.
      assert (Hl : l = eventsDue k (sortBy monthOffset events)).
      { destruct (eventsDue k (sortBy monthOffset events)); [discriminate|].
        injection Hget as <-. reflexivity. }
      rewrite Hl in He. apply filter_In in He. destruct He as [He _].
      apply Htargets.
      exact (Permutation_in _ (Permutation_sym (sortBy_perm monthOffset events)) He).
    - split; [constructor | intros c; discriminate].
    - constructor. }
  split; [exact Hrule|].
  intros Hnone.
  assert (Hsum : fold_left (fun acc m => acc + orZero (taxPaid m))
                   (schedule (calculateSavingsPlan params events)) 0 = 0).
  { apply zero_sum. rewrite Forall_forall in *. intros m Hm.
    destruct (Hrule m Hm) as [_ [_ [_ Hno]]]. apply Hno, Hnone, Hm. }
  etransitivity; [|exact Hsum]. unfold calculateSavingsPlan. cbv zeta.
  destruct (sortBy monthOffset events); reflexivity.
Qed.

End PlanTaxRule.

(** X29 at work: a goal of 100 due at once, from a capital of 1000 that earns
    12% a year and is taxed at 25%; the month's record shows a tax. *)
Lemma plan_tax_only_on_real_gain_witness :
  let params := sampleParams 12 0 25 1000 in
  let plan := calculateSavingsPlan (host := monthCountHost) params [goal 0 100] in
  0 <= capitalGainsTax params < 100 /\
  0 <= initialCapital params /\
  (forall e, In e [goal 0 100] -> 0 <= targetAmount e) /\
  Forall (fun m => 0 <= balanceEnd m) (schedule plan) /\
  (exists m, In m (schedule plan) /\ 0 < orZero (taxPaid m)) /\
  Forall taxBounds (schedule plan).
Proof.
  cbv zeta.
  assert (Htax : 0 <= capitalGainsTax (sampleParams 12 0 25 1000) < 100)
    by (simpl; lra).
  assert (Hcap : 0 <= initialCapital (sampleParams 12 0 25 1000)) by (simpl; lra).
  assert (Htargets : forall e, In e [goal 0 100] -> 0 <= targetAmount e).
  { intros e [<-|[]]. simpl. lra. }
  assert (Hsched : exists d, 0 <= d /\
            schedule (calculateSavingsPlan (host := monthCountHost)
                        (sampleParams 12 0 25 1000) [goal 0 100]) =
            Period.schedule
              (runSimulationPeriod (host := monthCountHost) 1000 1000 1000 0%Z 0 1 d
                 (sampleParams 12 0 25 1000) [(0%Z, [goal 0 100])])).
  { rewrite calculateSavingsPlan_nonempty, planLoop_unfold.
    rewrite (eventMonthsOf_one_month (goal 0 100) []) by (intros x []).
    cbn [fold_left]. unfold segmentStep. cbv zeta.
    cbn [fullSchedule initialPlanState app].
    exists (segmentDeposit (host := monthCountHost) (sampleParams 12 0 25 1000)
              (newDate (startDate (sampleParams 12 0 25 1000)))
              (sortBy monthOffset [goal 0 100])
              (initialPlanState (sampleParams 12 0 25 1000))).
    split; [|reflexivity].
    apply (tenTimes_nonneg 100000).
    assert (Hinit : depositsWithin 0 (initialPlanState (sampleParams 12 0 25 1000)))
      by (split; [constructor | intros c; discriminate]).
    apply (proj2 (segmentStep_depositsWithin (host := monthCountHost) 0
                    (sampleParams 12 0 25 1000)
                    (newDate (startDate (sampleParams 12 0 25 1000)))
                    (sortBy monthOffset [goal 0 100])
                    (initialPlanState (sampleParams 12 0 25 1000))
                    (groupByMonth (sortBy monthOffset [goal 0 100])) 0%Z
                    Hinit (solveRequiredDeposit_range _ _ _ _ _ _ _))).
    reflexivity. }
  destruct Hsched as [d [Hd Hsched]].
  assert (Hmr : 0 < getMonthlyRate 12).
  { unfold getMonthlyRate, Math_pow.
    assert (H : Rpower 1 (1 / 12) < Rpower (1 + 12 / 100) (1 / 12))
      by (apply Rlt_Rpower_l; lra).
    rewrite Rpower_one_base in H. lra. }
  assert (Hone : exists m,
            0 <= balanceEnd m /\ 0 < orZero (taxPaid m) /\
            Period.schedule
              (runSimulationPeriod (host := monthCountHost) 1000 1000 1000 0%Z 0 1 d
                 (sampleParams 12 0 25 1000) [(0%Z, [goal 0 100])]) = [m]).
  { unfold runSimulationPeriod. change (Z.to_nat 1) with 1%nat.
    cbn [monthLoop monthStep Period.schedule simSchedule app].
    eexists. split; [|split; [|reflexivity]].
    - unfold monthRecord. cbn [balanceEnd]. unfold handleEvents.
      change (0 + 0)%Z with 0%Z. cbn [Map_get Z.eqb fold_left].
      cbn [sampleParams annualReturn annualInflation capitalGainsTax].
      rewrite getMonthlyRate_zero.
      set (grown := afterGrowth (getMonthlyRate 12) 0 d _).
      destruct (withdraw_bases (25 / 100) 0 0 grown (goal 0 100)) as [Hbal _].
      cbv zeta in Hbal. rewrite Hbal. clear Hbal.
      unfold targetNetNominal. rewrite inflationFactor_zero. cbn [targetAmount goal].
      assert (Hcb : 0 <= accCostBasis grown)
        by (unfold grown, afterGrowth; simpl; lra).
      assert (Hb : 1000 <= balance grown).
      { unfold grown, afterGrowth. cbn [balance simBalance]. nra. }
      destruct (grossNeeded_bounds (25 / 100) (100 * 1) (accCostBasis grown)
                  (balance grown)) as [_ [Hup _]]; [lra | exact Hcb | lra |].
      cbv zeta in Hup. lra.
    - unfold monthRecord. cbn [taxPaid]. unfold handleEvents.
      change (0 + 0)%Z with 0%Z. cbn [Map_get Z.eqb fold_left].
      cbn [sampleParams annualReturn annualInflation capitalGainsTax].
      rewrite getMonthlyRate_zero.
      set (grown := afterGrowth (getMonthlyRate 12) 0 d _).
      unfold withdraw. cbv zeta. cbn [monthTaxPaid].
      unfold targetNetNominal. rewrite inflationFactor_zero. cbn [targetAmount goal].
      assert (Hcb : 0 <= accCostBasis grown < balance grown).
      { unfold grown, afterGrowth. cbn [accCostBasis balance simBalance simCostBasis].
        nra. }
      destruct (grossNeeded_bounds (25 / 100) (100 * 1) (accCostBasis grown)
                  (balance grown)) as [_ [_ [_ Hlt]]]; [lra | lra | lra |].
      cbv zeta in Hlt.
      assert (Hpos : 100 * 1 < grossNeeded (25 / 100) (100 * 1) (accCostBasis grown)
                                 (balance grown)).
      { apply Hlt; [lra | apply profitRatio_pos; exact Hcb | lra]. }
      set (g := grossNeeded (25 / 100) (100 * 1) (accCostBasis grown) (balance grown))
        in *.
      change (monthTaxPaid grown) with 0.
      rewrite whenPositive_pos by lra. cbn [orZero]. lra. }
  destruct Hone as [m [Hend [Hpaid Hrun]]].
  assert (Hall : Forall (fun m => 0 <= balanceEnd m)
                   (schedule (calculateSavingsPlan (host := monthCountHost)
                                (sampleParams 12 0 25 1000) [goal 0 100]))).
  { rewrite Hsched, Hrun. constructor; [exact Hend | constructor]. }
  split; [exact Htax|]. split; [exact Hcap|]. split; [exact Htargets|].
  split; [exact Hall|]. split.
  - exists m. split; [rewrite Hsched, Hrun; left; reflexivity | exact Hpaid].
  - exact (proj1 (plan_tax_only_on_real_gain (host := monthCountHost)
                    (sampleParams 12 0 25 1000) [goal 0 100] Htax Hcap Htargets Hall)).
Defined.

(** ** Editing a goal *)

Lemma withField_twice e fv : withField (withField e fv) fv = withField e fv.
Proof. destruct fv; reflexivity. Qed.

Lemma updateOne_other eventId fv e : id e <> eventId -> updateOne eventId fv e = e.
Proof.
  intros H. unfold updateOne.
  replace (negb (String.eqb (id e) eventId)) with true; [reflexivity|].
  symmetry. apply id_differs_iff, H.
Qed.

Lemma updateOne_same eventId fv e :
  id e = eventId -> updateOne eventId fv e = withField e fv.
Proof.
  intros H. unfold updateOne. rewrite H, String.eqb_refl. reflexivity.
Qed.

Lemma updateOne_twice eventId fv e :
  updateOne eventId fv (updateOne eventId fv e) = updateOne eventId fv e.
Proof.
  destruct (string_dec (id e) eventId) as [Heq|Hne].
  - rewrite (updateOne_same _ _ e Heq).
    destruct (string_dec (id (withField e fv)) eventId) as [Heq'|Hne'].
    + rewrite (updateOne_same _ _ _ Heq'). apply withField_twice.
    + apply updateOne_other, Hne'.
  - rewrite (updateOne_other _ _ e Hne). apply updateOne_other, Hne.
Qed.

(** X30.  An edit changes the edited field of every goal that has the given
    id and nothing else: the list keeps its length and order, goals with
    another id stay as they are, goals with the id get the new value; the ids
    stay as they are unless the id is the edited field; an id no goal has
    changes nothing, and an edit made twice is the edit made once. *)
Theorem update_touches_only_that_id (eventId : string) (fv : FieldValue)
    (events : list SavingsEvent) :
  List.length (handleUpdateEvent eventId fv events) = List.length events /\
  Forall2 (fun e e' => (id e <> eventId -> e' = e) /\
                       (id e = eventId -> e' = withField e fv))
    events (handleUpdateEvent eventId fv events) /\
  ((forall v, fv <> IdValue v) ->
   map id (handleUpdateEvent eventId fv events) = map id events) /\
  ((forall e, In e events -> id e <> eventId) ->
   handleUpdateEvent eventId fv events = events) /\
  handleUpdateEvent eventId fv (handleUpdateEvent eventId fv events) =
    handleUpdateEvent eventId fv events.
Proof.
  change (handleUpdateEvent eventId fv) with (map (updateOne eventId fv)).
  split; [apply length_map|]. split; [|split; [|split]].
  - induction events as [|e l IH]; [constructor|]. cbn [map]. constructor; [|exact IH].
    split; [apply updateOne_other | apply updateOne_same].
  - intros Hfv. rewrite map_map. apply map_ext. intros e. unfold updateOne.
    destruct (negb (String.eqb (id e) eventId)); [reflexivity|].
    destruct fv; try reflexivity. exfalso. exact (Hfv v eq_refl).
  - intros Habsent. rewrite <- (map_id events) at 2. apply map_ext_in.
    intros e He. apply updateOne_other, Habsent, He.
  - rewrite map_map. apply map_ext. intros e. apply updateOne_twice.
Qed.
